(** * Offline-sync plug-in: a shallow embedding of the sync services

    The development follows the TypeScript sources of the plug-in, one
    module per source file:

    - [Config]           : the mode the process runs in;
    - [Json]             : the JSON payloads every service passes around,
                           with the JavaScript operators the services use on
                           them (truthiness, [Object.keys], property access
                           and assignment, spread, [JSON.stringify], [===],
                           the sum of two numbers);
    - [Db]               : the query-engine tables ([findOne], [update],
                           [create], [delete]) as lists of rows with a
                           numeric id;
    - [VersionTracker]   : services/version-tracker.ts;
    - [Cms]              : the entity service of the CMS, a collaborator;
    - [ConflictResolver] : services/conflict-resolver.ts;
    - [ConflictController] : controllers/conflict.ts, the [resolve] handler;
    - [SyncService]      : the sync service ([applyChange]);
    - [QueueManager]     : services/queue-manager.ts;
    - [SyncQueue]        : the outbound queue of the middleware, the
                           [sync-queue] service, which is not among the
                           sources and is modelled from the specification;
    - [Lifecycle]        : the lifecycle hooks that feed the version tracker
                           and the queue;
    - [Push]             : the sync service ([pushToMaster]);
    - [ShipTracker]      : services/ship-tracker.ts;
    - [MediaSync]        : the media-sync service (URL rewriting and the
                           URL helpers);
    - [Redaction]        : src/bootstrap.ts, [stripSensitiveData];
    - [Middleware]       : src/bootstrap.ts, the document-service
                           middleware.

    Each module gives the definitions first, as the source has them, and
    then what is proved about them.

    JavaScript numbers are modelled by [Z] (payloads with fractional numbers
    are outside the model) and their sums are rounded as the sums of doubles
    are, strings by [string], timestamps by milliseconds since the epoch in
    [Z].  An object is the association list of its own properties, in
    enumeration order, with distinct keys as a JavaScript object has them.
    The database and the CMS are in-memory stores.  Their operations
    succeed, except where a result is about what happens when they do not:
    the calls [resolveConflict] awaits may reject, and the services the
    middleware calls are arbitrary and may throw. *)

From Stdlib Require Import ZArith List String Ascii Bool Lia.
From Stdlib Require Import DecimalString.
Import ListNotations.

Local Open Scope string_scope.
Local Open Scope list_scope.
Local Open Scope Z_scope.

(** String concatenation, [a + b] on JavaScript strings. *)
Infix "+++" := String.append (right associativity, at level 60).

(* ===================================================================== *)
(** * Plug-in configuration *)
(* ===================================================================== *)

Module Config.

(** [mode] is ['master'] or ['replica']; the configuration validator refuses
    any other value when the plug-in starts. *)
Inductive Mode := Master | Replica.

Definition is_replica (m : Mode) : bool :=
  match m with Replica => true | Master => false end.

End Config.

(* ===================================================================== *)
(** * JSON values and the JavaScript operators used on them *)
(* ===================================================================== *)

Module Json.

Unset Elimination Schemes.
Inductive json : Type :=
| JNull
| JBool (b : bool)
| JNum (n : Z)
| JStr (s : string)
| JArr (items : list json)
| JObj (fields : list (string * json)).
Set Elimination Schemes.

(** Induction through the nested lists. *)
Definition json_induction (P : json -> Prop)
  (HNull : P JNull)
  (HBool : forall b, P (JBool b))
  (HNum : forall n, P (JNum n))
  (HStr : forall s, P (JStr s))
  (HArr : forall items, Forall P items -> P (JArr items))
  (HObj : forall fields, Forall (fun kv => P (snd kv)) fields -> P (JObj fields))
  : forall v, P v :=
  fix go (v : json) : P v :=
    match v with
    | JNull => HNull
    | JBool b => HBool b
    | JNum n => HNum n
    | JStr s => HStr s
    | JArr items =>
        HArr items
          ((fix all (l : list json) : Forall P l :=
              match l with
              | [] => Forall_nil P
              | x :: l' => Forall_cons x (go x) (all l')
              end) items)
    | JObj fields =>
        HObj fields
          ((fix all (l : list (string * json)) : Forall (fun kv => P (snd kv)) l :=
              match l with
              | [] => Forall_nil _
              | kv :: l' => Forall_cons kv (go (snd kv)) (all l')
              end) fields)
    end.

(** [Array.prototype.includes] on an array of strings. *)
Definition includes (l : list string) (k : string) : bool :=
  existsb (String.eqb k) l.

Arguments includes : simpl never.

(** JavaScript truthiness: [null], [false], [0] and [""] are falsy. *)
Definition truthy (v : json) : bool :=
  match v with
  | JNull => false
  | JBool b => b
  | JNum n => negb (n =? 0)
  | JStr s => negb (s =? "")%string
  | JArr _ | JObj _ => true
  end.

(** [typeof v === 'object' && v !== null]. *)
Definition is_object (v : json) : bool :=
  match v with
  | JArr _ | JObj _ => true
  | _ => false
  end.

Definition is_array (v : json) : bool :=
  match v with JArr _ => true | _ => false end.

(** Decimal rendering of an integer, as [String(n)] gives it. *)
Definition string_of_Z (n : Z) : string :=
  NilZero.string_of_int (Z.to_int n).

Definition string_of_nat (n : nat) : string := string_of_Z (Z.of_nat n).

Fixpoint chars (s : string) : list json :=
  match s with
  | EmptyString => []
  | String c s' => JStr (String c EmptyString) :: chars s'
  end.

Definition indexed (l : list json) : list (string * json) :=
  combine (map string_of_nat (seq 0 (List.length l))) l.

(** [Object.entries v]: the own enumerable properties, in order.  Arrays and
    strings enumerate their indices, the other primitives nothing. *)
Definition entries (v : json) : list (string * json) :=
  match v with
  | JObj fields => fields
  | JArr items => indexed items
  | JStr s => indexed (chars s)
  | _ => []
  end.

Definition Object_keys (v : json) : list string := map fst (entries v).

Fixpoint assoc (k : string) (l : list (string * json)) : option json :=
  match l with
  | [] => None
  | (k', v) :: l' => if (k =? k')%string then Some v else assoc k l'
  end.

(** [v[k]] for an own enumerable property; [None] is [undefined]. *)
Definition get (v : json) (k : string) : option json := assoc k (entries v).

(** [k in v] for a plain object. *)
Definition has_key (v : json) (k : string) : bool :=
  match get v k with Some _ => true | None => false end.

(** [x || d] on a property that may be undefined. *)
Definition or_else (x : option json) (d : json) : json :=
  match x with
  | Some v => if truthy v then v else d
  | None => d
  end.

(** [x && typeof x === 'string'] : a non-empty string. *)
Definition as_nonempty_string (x : option json) : option string :=
  match x with
  | Some (JStr s) => if (s =? "")%string then None else Some s
  | _ => None
  end.

(** Assignment [o[k] = v] on an association list: an existing key keeps its
    place, a new key is appended. *)
Fixpoint set_field (k : string) (v : json) (l : list (string * json))
  : list (string * json) :=
  match l with
  | [] => [(k, v)]
  | (k', v') :: l' =>
      if (k =? k')%string then (k, v) :: l' else (k', v') :: set_field k v l'
  end.

(** The spread [{ ...v }] : a fresh object with the enumerable properties. *)
Definition spread (v : json) : list (string * json) := entries v.

(** [a === b].  Two arrays or objects that come from different places are
    never the same reference. *)
Definition strict_eq (a b : json) : bool :=
  match a, b with
  | JNull, JNull => true
  | JBool x, JBool y => Bool.eqb x y
  | JNum x, JNum y => x =? y
  | JStr x, JStr y => (x =? y)%string
  | _, _ => false
  end.

(** ** [JSON.stringify] *)

Definition hex_digit (n : nat) : ascii :=
  match n with
  | 0 => "0" | 1 => "1" | 2 => "2" | 3 => "3" | 4 => "4" | 5 => "5"
  | 6 => "6" | 7 => "7" | 8 => "8" | 9 => "9" | 10 => "a" | 11 => "b"
  | 12 => "c" | 13 => "d" | 14 => "e" | _ => "f"
  end%nat%char.

Definition escape_char (c : ascii) : string :=
  let n := nat_of_ascii c in
  if (n =? 34)%nat then String "\" (String (ascii_of_nat 34) "")
  else if (n =? 92)%nat then "\\"
  else if (n =? 8)%nat then "\b"
  else if (n =? 9)%nat then "\t"
  else if (n =? 10)%nat then "\n"
  else if (n =? 12)%nat then "\f"
  else if (n =? 13)%nat then "\r"
  else if (n <? 32)%nat then
    "\u00" +++ String (hex_digit (n / 16)) (String (hex_digit (n mod 16)) "")
  else String c "".

Fixpoint escape (s : string) : string :=
  match s with
  | EmptyString => ""
  | String c s' => escape_char c +++ escape s'
  end.

Definition quote (s : string) : string :=
  String (ascii_of_nat 34) (escape s +++ String (ascii_of_nat 34) "").

Fixpoint join (sep : string) (l : list string) : string :=
  match l with
  | [] => ""
  | [x] => x
  | x :: l' => x +++ sep +++ join sep l'
  end.

Fixpoint stringify (v : json) : string :=
  match v with
  | JNull => "null"
  | JBool true => "true"
  | JBool false => "false"
  | JNum n => string_of_Z n
  | JStr s => quote s
  | JArr items => "[" +++ join "," (map stringify items) +++ "]"
  | JObj fields =>
      "{" +++ join "," (map (fun kv => quote (fst kv) +++ ":" +++ stringify (snd kv)) fields)
          +++ "}"
  end.

(** [JSON.stringify(o[k])]; the stringification of [undefined] is
    [undefined]. *)
Definition stringify_prop (x : option json) : option string :=
  option_map stringify x.

Definition opt_string_eqb (a b : option string) : bool :=
  match a, b with
  | Some x, Some y => (x =? y)%string
  | None, None => true
  | _, _ => false
  end.

(** ** Numbers

    A JavaScript number is a double.  Every integer of magnitude up to
    [2^53] is one, and the sum of two numbers is their exact sum rounded to
    the nearest double, a tie going to the even mantissa.  [toDouble] is that
    rounding on the integers: 53 significant bits are kept.  (Sums beyond the
    largest double, about [1.8e308], are outside the model.) *)
Definition toDouble (z : Z) : Z :=
  let a := Z.abs z in
  let e := Z.log2 a in
  if e <? 53 then z
  else
    let ulp := 2 ^ (e - 52) in
    let q := a / ulp in
    let r := a mod ulp in
    let q' := if 2 * r <? ulp then q
              else if ulp <? 2 * r then q + 1
              else if Z.even q then q else q + 1 in
    Z.sgn z * (q' * ulp).

(** [a + b] on numbers. *)
Definition Number_add (a b : Z) : Z := toDouble (a + b).

(** ** Properties of a plain object *)

(** The names a plain object inherits from [Object.prototype]. *)
Definition Object_prototype : list string :=
  [ "constructor"; "__defineGetter__"; "__defineSetter__"; "hasOwnProperty";
    "__lookupGetter__"; "__lookupSetter__"; "isPrototypeOf";
    "propertyIsEnumerable"; "toString"; "valueOf"; "__proto__";
    "toLocaleString" ].

(** [o[k] === undefined] on a plain object [o] with the own properties [l]:
    the name is looked up on the object and then on [Object.prototype].  A
    JSON value is never [undefined], so an own property is always defined. *)
Definition is_undefined (l : list (string * json)) (k : string) : bool :=
  match assoc k l with
  | Some _ => false
  | None => negb (includes Object_prototype k)
  end.

(** An array index is the canonical decimal form of an integer from [0] to
    [2^32 - 2]. *)
Definition array_index (k : string) : option Z :=
  match NilZero.uint_of_string k with
  | Some u =>
      let n := Z.of_uint u in
      if (string_of_Z n =? k)%string && (n <? 4294967295) then Some n else None
  | None => None
  end.

(** The place of a new array index among the own properties: the array
    indices come first, in ascending order. *)
Fixpoint insert_index (n : Z) (k : string) (v : json) (l : list (string * json))
  : list (string * json) :=
  match l with
  | [] => [(k, v)]
  | (k', v') :: l' =>
      match array_index k' with
      | Some n' => if n' <? n then (k', v') :: insert_index n k v l'
                   else (k, v) :: l
      | None => (k, v) :: l
      end
  end.

(** The assignment [o[k] = v] on a plain object, for any key.  An own
    property keeps its place.  Otherwise the key [__proto__] reaches the
    setter of [Object.prototype], which sets the prototype or does nothing
    and creates no property; a new array index goes among the indices, any
    other new key to the end. *)
Definition assign (k : string) (v : json) (l : list (string * json))
  : list (string * json) :=
  match assoc k l with
  | Some _ => set_field k v l
  | None =>
      if (k =? "__proto__")%string then l
      else match array_index k with
           | Some n => insert_index n k v l
           | None => l ++ [(k, v)]
           end
  end.

(** The loop [for (const [key, value] of Object.entries(o)) result[key] =
    f(key, value)] on a fresh [result]: the entries of [o] with [f] applied
    to the values, in the order of [o], without the key [__proto__], which
    the assignment does not create. *)
Definition rebuild (f : string -> json -> json) (fields : list (string * json))
  : list (string * json) :=
  filter (fun kv => negb (fst kv =? "__proto__")%string)
         (map (fun kv => (fst kv, f (fst kv) (snd kv))) fields).

(** No object of the value has a key [__proto__] of its own. *)
Fixpoint no_proto (v : json) : bool :=
  match v with
  | JArr items => forallb no_proto items
  | JObj fields =>
      forallb (fun kv => negb (fst kv =? "__proto__")%string && no_proto (snd kv))
              fields
  | _ => true
  end.

Lemma toDouble_exact (z : Z) : Z.abs z <= 2 ^ 53 -> toDouble z = z.
Proof.
  intros Hz. unfold toDouble. cbv zeta.
  destruct (Z.ltb_spec (Z.log2 (Z.abs z)) 53) as [ | Hlog ]; [ reflexivity | ].
  assert (Hpos : 0 < Z.abs z).
  { destruct (Z.le_gt_cases (Z.abs z) 0) as [Hle | ]; [ | assumption ].
    apply Z.log2_nonpos in Hle. lia. }
  assert (Hpow : 2 ^ 53 <= Z.abs z).
  { apply Z.le_trans with (2 ^ Z.log2 (Z.abs z)).
    - apply Z.pow_le_mono_r; lia.
    - apply Z.log2_spec, Hpos. }
  assert (Hcases : z = 2 ^ 53 \/ z = - 2 ^ 53) by lia.
  destruct Hcases as [-> | ->]; reflexivity.
Qed.

Lemma Number_add_exact (a b : Z) :
  Z.abs (a + b) <= 2 ^ 53 -> Number_add a b = a + b.
Proof. apply toDouble_exact. Qed.

Lemma no_proto_keys (fields : list (string * json)) :
  no_proto (JObj fields) = true ->
  forallb (fun kv => negb (fst kv =? "__proto__")%string) fields = true.
Proof.
  cbn [no_proto]. rewrite !forallb_forall. intros H kv Hin.
  specialize (H kv Hin). now apply andb_true_iff in H as [Hk _].
Qed.

Lemma no_proto_field (fields : list (string * json)) (kv : string * json) :
  no_proto (JObj fields) = true -> In kv fields -> no_proto (snd kv) = true.
Proof.
  cbn [no_proto]. rewrite forallb_forall. intros H Hin.
  specialize (H kv Hin). now apply andb_true_iff in H as [_ Hv].
Qed.

Lemma no_proto_item (items : list json) (x : json) :
  no_proto (JArr items) = true -> In x items -> no_proto x = true.
Proof. cbn [no_proto]. rewrite forallb_forall. auto. Qed.

Lemma keys_map_values (p : string -> bool) (f : string -> json -> json)
    (fields : list (string * json)) :
  forallb (fun kv => p (fst kv)) (map (fun kv => (fst kv, f (fst kv) (snd kv))) fields)
  = forallb (fun kv => p (fst kv)) fields.
Proof.
  induction fields as [ | kv fields IH ]; [ reflexivity | ].
  cbn [map forallb fst]. now rewrite IH.
Qed.

Lemma rebuild_no_proto (f : string -> json -> json)
    (fields : list (string * json)) :
  forallb (fun kv => negb (fst kv =? "__proto__")%string) fields = true ->
  rebuild f fields = map (fun kv => (fst kv, f (fst kv) (snd kv))) fields.
Proof.
  unfold rebuild. intros Hkeys.
  induction fields as [ | kv fields IH ]; [ reflexivity | ].
  cbn [forallb] in Hkeys. apply andb_true_iff in Hkeys as [Hk Hrest].
  cbn [map filter fst]. rewrite Hk. f_equal. now apply IH.
Qed.

End Json.
Import Json.

(* ===================================================================== *)
(** * The query engine: tables of rows *)
(* ===================================================================== *)

(** [strapi.db.query(uid)] gives access to one table.  A table is the list
    of its rows in storage order, each with its numeric [id]; [findOne] and
    [update] act on the first row that matches the [where] clause, [create]
    appends a row under an id that is not in the table: the model takes the
    one above every id present, where the engine takes the next of its
    sequence, and the results below use only that the id is new.  The
    operations always succeed. *)
Module Db.

Section Table.

Context {R : Type}.

Definition table := list (Z * R).

Definition findOne (where_ : Z * R -> bool) (t : table) : option (Z * R) :=
  find where_ t.

Definition findMany (where_ : Z * R -> bool) (t : table) : table :=
  filter where_ t.

Definition by_id (id : Z) (row : Z * R) : bool := fst row =? id.

Fixpoint update (where_ : Z * R -> bool) (data : R -> R) (t : table) : table :=
  match t with
  | [] => []
  | row :: t' =>
      if where_ row then (fst row, data (snd row)) :: t'
      else row :: update where_ data t'
  end.

Fixpoint delete (where_ : Z * R -> bool) (t : table) : table :=
  match t with
  | [] => []
  | row :: t' => if where_ row then t' else row :: delete where_ t'
  end.

Definition ids (t : table) : list Z := map fst t.

Definition nextId (t : table) : Z := 1 + fold_right Z.max 0 (ids t).

Definition create (data : R) (t : table) : (Z * R) * table :=
  let row := (nextId t, data) in (row, t ++ [row]).

(** The primary key. *)
Definition unique_ids (t : table) : Prop := NoDup (ids t).

Lemma ids_update where_ data t : ids (update where_ data t) = ids t.
Proof.
  induction t as [ | row t IH ]; simpl; [ reflexivity | ].
  destruct (where_ row); simpl; [ reflexivity | now rewrite IH ].
Qed.

Lemma ids_below_nextId t id : In id (ids t) -> id < nextId t.
Proof.
  unfold nextId, ids. induction t as [ | row t IH ]; cbn [map fold_right In];
    [ tauto | ].
  intros [<- | Hin]; [ lia | specialize (IH Hin); lia ].
Qed.

Lemma unique_ids_update where_ data t :
  unique_ids t -> unique_ids (update where_ data t).
Proof. unfold unique_ids. now rewrite ids_update. Qed.

Lemma unique_ids_create data t :
  unique_ids t -> unique_ids (snd (create data t)).
Proof.
  unfold unique_ids, create, ids. simpl. rewrite map_app. simpl.
  intros Hnd. apply NoDup_app; [ exact Hnd | repeat constructor; simpl; tauto | ].
  intros id Hin [<- | []].
  apply ids_below_nextId in Hin. lia.
Qed.

(** [findOne] returns a row of the table that satisfies the clause. *)
Lemma findOne_some where_ t row :
  findOne where_ t = Some row -> In row t /\ where_ row = true.
Proof. apply find_some. Qed.

(** After an update by a clause, a query by the same clause finds the updated
    row, provided the update keeps the row within the clause. *)
Lemma findOne_update where_ data t row :
  findOne where_ t = Some row ->
  where_ (fst row, data (snd row)) = true ->
  findOne where_ (update where_ data t) = Some (fst row, data (snd row)).
Proof.
  unfold findOne. induction t as [ | r t IH ]; simpl; [ discriminate | ].
  destruct (where_ r) eqn:E.
  - intros [= ->] Hkeep. simpl. now rewrite Hkeep.
  - intros Hfind Hkeep. simpl. rewrite E. now apply IH.
Qed.

(** An update that does not change how rows answer a clause leaves the
    number of rows the clause selects as it was. *)
Lemma filter_update_length (p where_ : Z * R -> bool) (data : R -> R) t :
  (forall row, p (fst row, data (snd row)) = p row) ->
  List.length (filter p (update where_ data t)) = List.length (filter p t).
Proof.
  intros Hp. induction t as [ | r t IH ]; simpl; [ reflexivity | ].
  destruct (where_ r); simpl.
  - rewrite Hp. now destruct (p r).
  - destruct (p r); simpl; now rewrite IH.
Qed.

(** With a primary key, updating the row a query found, by its id, changes
    that very row. *)
Lemma findOne_update_by_id where_ data t row :
  unique_ids t ->
  findOne where_ t = Some row ->
  where_ (fst row, data (snd row)) = true ->
  findOne where_ (update (by_id (fst row)) data t)
  = Some (fst row, data (snd row)).
Proof.
  unfold unique_ids, findOne, by_id, ids.
  induction t as [ | r t IH ]; simpl; [ discriminate | ].
  intros Hnd Hfind Hkeep. inversion Hnd as [ | ? ? Hnotin Hnd' ]; subst.
  destruct (where_ r) eqn:E.
  - injection Hfind as ->. rewrite Z.eqb_refl. simpl. now rewrite Hkeep.
  - destruct (fst r =? fst row) eqn:Eid.
    + apply Z.eqb_eq in Eid. apply find_some in Hfind as [Hin _].
      exfalso. apply Hnotin. rewrite Eid. now apply in_map.
    + simpl. rewrite E. now apply IH.
Qed.

Lemma find_app_none (p : Z * R -> bool) t row :
  find p t = None -> find p (t ++ [row]) = (if p row then Some row else None).
Proof.
  induction t as [ | r t IH ]; simpl; [ reflexivity | ].
  destruct (p r); [ discriminate | exact IH ].
Qed.

Lemma filter_none (p : Z * R -> bool) t :
  find p t = None -> filter p t = [].
Proof.
  induction t as [ | r t IH ]; simpl; [ reflexivity | ].
  destruct (p r); [ discriminate | exact IH ].
Qed.

(** With a primary key, an update by id is a pointwise change. *)
Definition update_row (id : Z) (data : R -> R) (row : Z * R) : Z * R :=
  if fst row =? id then (fst row, data (snd row)) else row.

Lemma update_by_id_map (id : Z) (data : R -> R) t :
  unique_ids t -> update (by_id id) data t = map (update_row id data) t.
Proof.
  unfold unique_ids, ids, by_id, update_row.
  induction t as [ | r t IH ]; simpl; [ reflexivity | ].
  intros Hnd. inversion Hnd as [ | ? ? Hnotin Hnd' ]; subst.
  destruct (fst r =? id) eqn:E.
  - f_equal. apply Z.eqb_eq in E. subst id.
    rewrite <- (map_id t) at 1. apply map_ext_in. intros r' Hin.
    destruct (fst r' =? fst r) eqn:E'; [ | reflexivity ].
    apply Z.eqb_eq in E'. exfalso. apply Hnotin. rewrite <- E'. now apply in_map.
  - f_equal. now apply IH.
Qed.

Lemma same_id_same_row t (r1 r2 : Z * R) :
  unique_ids t -> In r1 t -> In r2 t -> fst r1 = fst r2 -> r1 = r2.
Proof.
  unfold unique_ids, ids. induction t as [ | r t IH ]; simpl; [ tauto | ].
  intros Hnd H1 H2 Heq. inversion Hnd as [ | ? ? Hnotin Hnd' ]; subst.
  destruct H1 as [-> | H1], H2 as [-> | H2]; auto.
  - exfalso. apply Hnotin. rewrite Heq. now apply in_map.
  - exfalso. apply Hnotin. rewrite <- Heq. now apply in_map.
Qed.

(** The rows of an updated table are rows of the table, or the new version
    of a row that satisfied the clause. *)
Lemma in_update where_ data t row :
  In row (update where_ data t) ->
  In row t
  \/ exists r, In r t /\ where_ r = true /\ row = (fst r, data (snd r)).
Proof.
  induction t as [ | r t IH ]; simpl; [ tauto | ].
  destruct (where_ r) eqn:E; simpl.
  - intros [<- | Hin]; [ right; exists r; auto | auto ].
  - intros [<- | Hin]; [ auto | ].
    destruct (IH Hin) as [H | (r0 & H0 & Hw & ->)]; [ auto | ].
    right. exists r0. auto.
Qed.

Lemma in_delete where_ t row : In row (delete where_ t) -> In row t.
Proof.
  induction t as [ | r t IH ]; simpl; [ tauto | ].
  destruct (where_ r); simpl; [ auto | ].
  intros [<- | Hin]; auto.
Qed.

Lemma unique_ids_delete where_ t : unique_ids t -> unique_ids (delete where_ t).
Proof.
  unfold unique_ids, ids. induction t as [ | r t IH ]; simpl; [ auto | ].
  intros Hnd. inversion Hnd as [ | ? ? Hnotin Hnd' ]; subst.
  destruct (where_ r); simpl; [ exact Hnd' | ].
  constructor; [ | now apply IH ].
  intros Hin. apply Hnotin. apply in_map_iff in Hin as (r' & <- & Hin).
  apply in_map. now apply in_delete in Hin.
Qed.

(** A delete removes at most one row. *)
Lemma length_delete where_ t :
  (List.length t <= S (List.length (delete where_ t)))%nat.
Proof.
  induction t as [ | r t IH ]; simpl; [ lia | ].
  destruct (where_ r); simpl; lia.
Qed.

(** A query that selects neither the row an update changes nor its new
    version does not see the update. *)
Lemma findOne_update_frame (p where_ : Z * R -> bool) data t :
  (forall r, In r t -> where_ r = true ->
             p r = false /\ p (fst r, data (snd r)) = false) ->
  findOne p (update where_ data t) = findOne p t.
Proof.
  unfold findOne. induction t as [ | r t IH ]; simpl; intros H; [ reflexivity | ].
  destruct (where_ r) eqn:E; simpl.
  - destruct (H r (or_introl eq_refl) E) as [H1 H2]. now rewrite H1, H2.
  - destruct (p r); [ reflexivity | ].
    apply IH. intros r' Hin. apply H. now right.
Qed.

(** What an update leaves as it is in every row, a query by a clause the
    update does not affect finds as it was. *)
Lemma findOne_update_view {X} (g : Z * R -> X) (p where_ : Z * R -> bool) data t :
  (forall r, p (fst r, data (snd r)) = p r) ->
  (forall r, g (fst r, data (snd r)) = g r) ->
  option_map g (findOne p (update where_ data t)) = option_map g (findOne p t).
Proof.
  unfold findOne. intros Hp Hg.
  induction t as [ | r t IH ]; simpl; [ reflexivity | ].
  destruct (where_ r); simpl.
  - rewrite Hp. destruct (p r); simpl; [ now rewrite Hg | reflexivity ].
  - destruct (p r); simpl; [ reflexivity | exact IH ].
Qed.

Lemma find_app_last (p : Z * R -> bool) t row :
  find p (t ++ [row])
  = match find p t with
    | Some r => Some r
    | None => if p row then Some row else None
    end.
Proof.
  induction t as [ | r t IH ]; simpl; [ reflexivity | ].
  destruct (p r); [ reflexivity | exact IH ].
Qed.

(** An update that can only take rows out of a clause does not add to the
    rows the clause selects. *)
Lemma filter_update_le (p where_ : Z * R -> bool) (data : R -> R) t :
  (forall row, p (fst row, data (snd row)) = true -> p row = true) ->
  (List.length (filter p (update where_ data t)) <= List.length (filter p t))%nat.
Proof.
  intros Hp. induction t as [ | r t IH ]; simpl; [ lia | ].
  destruct (where_ r); simpl.
  - destruct (p (fst r, data (snd r))) eqn:E.
    + rewrite (Hp r E). simpl. lia.
    + destruct (p r); simpl; lia.
  - destruct (p r); simpl; lia.
Qed.

Lemma filter_delete_le (p where_ : Z * R -> bool) t :
  (List.length (filter p (delete where_ t)) <= List.length (filter p t))%nat.
Proof.
  induction t as [ | r t IH ]; simpl; [ lia | ].
  destruct (where_ r); simpl.
  - destruct (p r); simpl; lia.
  - destruct (p r); simpl; lia.
Qed.

End Table.

Arguments table : clear implicits.

End Db.

(* ===================================================================== *)
(** * services/version-tracker.ts *)
(* ===================================================================== *)

Module VersionTracker.

Inductive SyncStatus := Pending | Synced | Conflict.

(** A row of [plugin::offline-sync.sync-metadata]. *)
Record SyncMetadata := {
  contentType : string;
  entityId : Z;
  syncVersion : Z;
  modifiedByLocation : string;
  lastSyncedAt : option Z;
  syncStatus : SyncStatus;
  conflictFlag : bool
}.

Definition table := Db.table SyncMetadata.

(** [where: { contentType, entityId }] *)
Definition where_entity (ct : string) (id : Z) (row : Z * SyncMetadata) : bool :=
  (contentType (snd row) =? ct)%string && (entityId (snd row) =? id).

Definition incrementVersion (ct : string) (id : Z) (location : string)
    (t : table) : Z * table :=
  match Db.findOne (where_entity ct id) t with
  | None =>
      (1, snd (Db.create {| contentType := ct;
                            entityId := id;
                            syncVersion := 1;
                            modifiedByLocation := location;
                            lastSyncedAt := None;
                            syncStatus := Pending;
                            conflictFlag := false |} t))
  | Some metadata =>
      let newVersion := Number_add (syncVersion (snd metadata)) 1 in
      (newVersion,
       Db.update (Db.by_id (fst metadata))
         (fun m => {| contentType := contentType m;
                      entityId := entityId m;
                      syncVersion := newVersion;
                      modifiedByLocation := location;
                      lastSyncedAt := lastSyncedAt m;
                      syncStatus := Pending;
                      conflictFlag := conflictFlag m |}) t)
  end.

Definition getMetadata (ct : string) (id : Z) (t : table)
  : option (Z * SyncMetadata) :=
  Db.findOne (where_entity ct id) t.

(** [getVersion]: [metadata?.syncVersion || null]. *)
Definition getVersion (ct : string) (id : Z) (t : table) : option Z :=
  match Db.findOne (where_entity ct id) t with
  | Some metadata =>
      if syncVersion (snd metadata) =? 0 then None
      else Some (syncVersion (snd metadata))
  | None => None
  end.

Inductive ConflictType := Direct | Indirect | Structural.

Record ConflictReport := {
  hasConflict : bool;
  conflictingFields : option (list string);
  conflictType : option ConflictType
}.

Definition noConflict : ConflictReport :=
  {| hasConflict := false; conflictingFields := None; conflictType := None |}.

Definition excludeFields : list string :=
  [ "id"; "createdAt"; "updatedAt"; "publishedAt"; "syncVersion";
    "lastSyncedAt"; "modifiedByLocation"; "syncStatus"; "conflictFlag" ].

(** [local.syncVersion || 0] *)
Definition versionOf (entity : json) : json :=
  or_else (get entity "syncVersion") (JNum 0).

(** [local.data || local] *)
Definition dataOf (entity : json) : json :=
  or_else (get entity "data") entity.

(** The keys that take part in the comparison. *)
Definition comparedKeys (data : json) : list string :=
  filter (fun key => negb (includes excludeFields key)) (Object_keys data).

Definition detectConflict (local remote : json) : ConflictReport :=
  if negb (truthy local) || negb (truthy remote) then noConflict
  else
    let localVersion := versionOf local in
    let remoteVersion := versionOf remote in
    if strict_eq localVersion remoteVersion then noConflict
    else
      let localData := dataOf local in
      let remoteData := dataOf remote in
      let localKeys := comparedKeys localData in
      let remoteKeys := comparedKeys remoteData in
      let changed :=
        filter (fun key =>
                  includes remoteKeys key
                  && negb (opt_string_eqb (stringify_prop (get localData key))
                                          (stringify_prop (get remoteData key))))
               localKeys in
      let onlyInLocal := filter (fun k => negb (includes remoteKeys k)) localKeys in
      let onlyInRemote := filter (fun k => negb (includes localKeys k)) remoteKeys in
      let conflicting :=
        if (0 <? List.length onlyInLocal)%nat || (0 <? List.length onlyInRemote)%nat
        then changed ++ onlyInLocal ++ onlyInRemote
        else changed in
      if (0 <? List.length conflicting)%nat then
        {| hasConflict := true;
           conflictingFields := Some conflicting;
           conflictType := Some Direct |}
      else noConflict.

Definition markSynced (now : Z) (ct : string) (id : Z) (t : table) : table :=
  match Db.findOne (where_entity ct id) t with
  | Some metadata =>
      Db.update (Db.by_id (fst metadata))
        (fun m => {| contentType := contentType m;
                     entityId := entityId m;
                     syncVersion := syncVersion m;
                     modifiedByLocation := modifiedByLocation m;
                     lastSyncedAt := Some now;
                     syncStatus := Synced;
                     conflictFlag := false |}) t
  | None => t
  end.

(** ** Conflict detection *)

Definition versionsEqual (local remote : json) : bool :=
  strict_eq (versionOf local) (versionOf remote).

(** The stringified values of field [k] differ; a field that one side does
    not have differs from any value the other side has. *)
Definition differs (localData remoteData : json) (k : string) : Prop :=
  stringify_prop (get localData k) <> stringify_prop (get remoteData k).

(** [k] is a non-reserved field of one of the two sides. *)
Definition compared (localData remoteData : json) (k : string) : Prop :=
  includes excludeFields k = false
  /\ (In k (Object_keys localData) \/ In k (Object_keys remoteData)).

Definition article_v2 : json :=
  JObj [ ("id", JNum 1); ("title", JStr "A"); ("body", JStr "text");
         ("syncVersion", JNum 2) ].

Definition article_v3 : json :=
  JObj [ ("title", JStr "B"); ("body", JStr "text"); ("syncVersion", JNum 3) ].

Definition article_v3_short : json :=
  JObj [ ("title", JStr "A"); ("syncVersion", JNum 3) ].

Example changed_title_is_a_direct_conflict :
  detectConflict article_v2 article_v3
  = {| hasConflict := true;
       conflictingFields := Some ["title"];
       conflictType := Some Direct |}.
Proof. reflexivity. Qed.

Example equal_versions_never_conflict :
  detectConflict article_v2 (JObj [("title", JStr "Z"); ("syncVersion", JNum 2)])
  = noConflict.
Proof. reflexivity. Qed.

Lemma includes_In (l : list string) (k : string) :
  includes l k = true <-> In k l.
Proof.
  unfold includes. rewrite existsb_exists. split.
  - intros (x & Hin & Heq). apply String.eqb_eq in Heq. now subst.
  - intros Hin. exists k. split; [ exact Hin | apply String.eqb_refl ].
Qed.

Lemma includes_not_In (l : list string) (k : string) :
  includes l k = false <-> ~ In k l.
Proof.
  rewrite <- includes_In. destruct (includes l k); intuition congruence.
Qed.

Lemma assoc_some_iff (k : string) (l : list (string * json)) :
  In k (map fst l) <-> assoc k l <> None.
Proof.
  induction l as [ | [k' v] l IH ]; simpl.
  - split; [ tauto | intros H; now apply H ].
  - destruct (String.eqb_spec k k') as [-> | Hne].
    + split; [ discriminate | auto ].
    + rewrite <- IH. split.
      * intros [E | H]; [ congruence | exact H ].
      * auto.
Qed.

Lemma keys_get (v : json) (k : string) :
  In k (Object_keys v) <-> get v k <> None.
Proof. apply assoc_some_iff. Qed.

Lemma comparedKeys_In (data : json) (k : string) :
  In k (comparedKeys data)
  <-> includes excludeFields k = false /\ In k (Object_keys data).
Proof.
  unfold comparedKeys. rewrite filter_In, negb_true_iff. tauto.
Qed.

Lemma opt_string_eqb_eq (a b : option string) :
  opt_string_eqb a b = true <-> a = b.
Proof.
  destruct a as [x | ], b as [y | ]; simpl; try (split; congruence).
  rewrite String.eqb_eq. split; congruence.
Qed.

(** The list the function assembles: changed shared fields, then the fields
    of one side only. *)
Definition conflictingOf (localData remoteData : json) : list string :=
  let localKeys := comparedKeys localData in
  let remoteKeys := comparedKeys remoteData in
  filter (fun key =>
            includes remoteKeys key
            && negb (opt_string_eqb (stringify_prop (get localData key))
                                    (stringify_prop (get remoteData key))))
         localKeys
  ++ filter (fun k => negb (includes remoteKeys k)) localKeys
  ++ filter (fun k => negb (includes localKeys k)) remoteKeys.

Lemma conflictingOf_In (localData remoteData : json) (k : string) :
  In k (conflictingOf localData remoteData)
  <-> compared localData remoteData k /\ differs localData remoteData k.
Proof.
  unfold conflictingOf, compared, differs.
  rewrite !in_app_iff, !filter_In, !comparedKeys_In, andb_true_iff,
    !negb_true_iff, includes_In, !comparedKeys_In.
  rewrite !keys_get.
  assert (Hexcl : forall data,
             includes (comparedKeys data) k = false
             <-> ~ (includes excludeFields k = false /\ get data k <> None)).
  { intros data. now rewrite includes_not_In, comparedKeys_In, keys_get. }
  rewrite !Hexcl.
  assert (Hneq : opt_string_eqb (stringify_prop (get localData k))
                   (stringify_prop (get remoteData k)) = false
                 <-> stringify_prop (get localData k)
                     <> stringify_prop (get remoteData k)).
  { now rewrite <- not_true_iff_false, opt_string_eqb_eq. }
  rewrite Hneq.
  destruct (get localData k) as [x | ] eqn:El, (get remoteData k) as [y | ] eqn:Er;
    simpl; intuition (try congruence; try discriminate).
Qed.

Lemma assemble_fields (changed onlyInLocal onlyInRemote : list string) :
  (if (0 <? List.length onlyInLocal)%nat || (0 <? List.length onlyInRemote)%nat
   then changed ++ onlyInLocal ++ onlyInRemote else changed)
  = changed ++ onlyInLocal ++ onlyInRemote.
Proof.
  destruct onlyInLocal, onlyInRemote; simpl; try reflexivity.
  now rewrite app_nil_r.
Qed.

Lemma detectConflict_differing (local remote : json) :
  truthy local = true -> truthy remote = true ->
  versionsEqual local remote = false ->
  detectConflict local remote
  = match conflictingOf (dataOf local) (dataOf remote) with
    | [] => noConflict
    | fields => {| hasConflict := true;
                   conflictingFields := Some fields;
                   conflictType := Some Direct |}
    end.
Proof.
  unfold detectConflict, versionsEqual, conflictingOf.
  intros -> -> ->. cbn [negb orb]. cbv zeta.
  rewrite assemble_fields.
  match goal with |- context [(0 <? List.length ?l)%nat] => now destruct l end.
Qed.

(** C3, as the code has it. [detectConflict] compares [syncVersion] first (a
    missing version counts as 0) and reports no conflict when the versions
    are equal.  When they differ, it compares the payloads of the two sides:
    the payload of a side is its [data] attribute when it has a truthy one,
    and the entity itself otherwise ([dataOf]).  The conflicting fields are
    exactly the non-reserved fields of either payload whose stringified
    values differ, a field present in one payload only included; a conflict
    is reported when that set is non-empty, and its kind is always
    ['direct']: the kind ['structural'] is never reported. *)
Theorem detectConflict_reports_direct_conflicts (local remote : json) :
  let report := detectConflict local remote in
  (versionsEqual local remote = true -> report = noConflict)
  /\ (truthy local = true -> truthy remote = true ->
      versionsEqual local remote = false ->
      exists fields,
        (forall k, In k fields
                   <-> compared (dataOf local) (dataOf remote) k
                       /\ differs (dataOf local) (dataOf remote) k)
        /\ (fields = [] -> report = noConflict)
        /\ (fields <> [] ->
            report = {| hasConflict := true;
                        conflictingFields := Some fields;
                        conflictType := Some Direct |}))
  /\ (hasConflict report = true -> conflictType report = Some Direct)
  /\ conflictType report <> Some Structural.
Proof.
  assert (Hkind : forall l r,
             (hasConflict (detectConflict l r) = true ->
              conflictType (detectConflict l r) = Some Direct)
             /\ conflictType (detectConflict l r) <> Some Structural).
  { intros l r. unfold detectConflict.
    repeat match goal with
           | |- context [if ?c then _ else _] => destruct c
           end; simpl; split; congruence. }
  cbv zeta. split; [ | split; [ | apply Hkind ] ].
  - unfold detectConflict, versionsEqual. intros ->.
    now destruct (negb (truthy local) || negb (truthy remote)).
  - intros Hl Hr Hv. exists (conflictingOf (dataOf local) (dataOf remote)).
    split; [ intros k; apply conflictingOf_In | ].
    rewrite (detectConflict_differing local remote Hl Hr Hv).
    destruct (conflictingOf (dataOf local) (dataOf remote)); split;
      congruence.
Qed.

(** Two entities that carry their payload in a [data] attribute; they
    differ in version and in title, their payloads are the same. *)
Definition wrapped_v2 : json :=
  JObj [ ("title", JStr "A"); ("syncVersion", JNum 2);
         ("data", JObj [("body", JStr "text")]) ].

Definition wrapped_v3 : json :=
  JObj [ ("title", JStr "B"); ("syncVersion", JNum 3);
         ("data", JObj [("body", JStr "text")]) ].

(** C3 as stated fails twice.  A field present on the local side only is
    reported as a ['direct'] conflict, not as a ['structural'] one.  And two
    entities of different versions whose [title] differs are reported
    without conflict when each carries a [data] attribute and the two
    payloads agree: the fields compared are those of the payloads. *)
Lemma one_sided_is_direct_and_data_is_unwrapped :
  (detectConflict article_v2 article_v3_short
   = {| hasConflict := true;
        conflictingFields := Some ["body"];
        conflictType := Some Direct |}
   /\ In "body" (Object_keys article_v2)
   /\ ~ In "body" (Object_keys article_v3_short)
   /\ conflictType (detectConflict article_v2 article_v3_short)
      <> Some Structural)
  /\ (detectConflict wrapped_v2 wrapped_v3 = noConflict
      /\ versionsEqual wrapped_v2 wrapped_v3 = false
      /\ compared wrapped_v2 wrapped_v3 "title"
      /\ differs wrapped_v2 wrapped_v3 "title").
Proof.
  split; repeat split; try reflexivity.
  - simpl. tauto.
  - simpl. intuition discriminate.
  - discriminate.
  - simpl. tauto.
  - discriminate.
Qed.

(** ** The stored version counts the recorded edits *)

(** [(await getVersion(ct, id)) || 0] *)
Definition storedVersion (ct : string) (id : Z) (t : table) : Z :=
  match getVersion ct id t with Some v => v | None => 0 end.

(** The calls that write the table. *)
Inductive Call :=
| IncrementVersion (ct : string) (id : Z) (location : string)
| MarkSynced (now : Z) (ct : string) (id : Z).

Definition run (t : table) (c : Call) : table :=
  match c with
  | IncrementVersion ct id location => snd (incrementVersion ct id location t)
  | MarkSynced now ct id => markSynced now ct id t
  end.

Definition is_edit_of (ct : string) (id : Z) (c : Call) : bool :=
  match c with
  | IncrementVersion ct' id' _ => (ct' =? ct)%string && (id' =? id)
  | MarkSynced _ _ _ => false
  end.

(** The number of [incrementVersion] calls for the entity. *)
Definition edits (ct : string) (id : Z) (calls : list Call) : Z :=
  Z.of_nat (List.length (filter (is_edit_of ct id) calls)).

(** At most one row per entity. *)
Definition one_row_per_entity (t : table) : Prop :=
  forall ct id, (List.length (filter (where_entity ct id) t) <= 1)%nat.

(** A row marked synced carries the time of the sync. *)
Definition synced_has_timestamp (t : table) : Prop :=
  forall row, In row t -> syncStatus (snd row) = Synced ->
              lastSyncedAt (snd row) <> None.

Lemma where_entity_true ct id row :
  where_entity ct id row = true
  <-> contentType (snd row) = ct /\ entityId (snd row) = id.
Proof.
  unfold where_entity. rewrite andb_true_iff, String.eqb_eq, Z.eqb_eq. tauto.
Qed.

Lemma where_entity_other ct id ct' id' row :
  where_entity ct id row = true -> ct' <> ct \/ id' <> id ->
  where_entity ct' id' row = false.
Proof.
  intros Hrow Hother. apply where_entity_true in Hrow as [Hct Hid].
  apply not_true_iff_false. intros H. apply where_entity_true in H as [Hct' Hid'].
  destruct Hother; congruence.
Qed.

Lemma storedVersion_metadata ct id t :
  storedVersion ct id t
  = match getMetadata ct id t with
    | Some m => syncVersion (snd m)
    | None => 0
    end.
Proof.
  unfold storedVersion, getVersion, getMetadata.
  destruct (Db.findOne (where_entity ct id) t) as [m | ]; [ | reflexivity ].
  destruct (Z.eqb_spec (syncVersion (snd m)) 0); congruence.
Qed.

Lemma incrementVersion_unique_ids ct id location t :
  Db.unique_ids t -> Db.unique_ids (snd (incrementVersion ct id location t)).
Proof.
  unfold incrementVersion. destruct (Db.findOne _ t); cbn [snd].
  - apply Db.unique_ids_update.
  - apply Db.unique_ids_create.
Qed.

Lemma markSynced_unique_ids now ct id t :
  Db.unique_ids t -> Db.unique_ids (markSynced now ct id t).
Proof.
  unfold markSynced. destruct (Db.findOne _ t); [ | auto ].
  apply Db.unique_ids_update.
Qed.

(** The metadata of the other entities is out of reach of
    [incrementVersion]. *)
Lemma incrementVersion_frame ct id location t ct' id' :
  Db.unique_ids t -> ct' <> ct \/ id' <> id ->
  getMetadata ct' id' (snd (incrementVersion ct id location t))
  = getMetadata ct' id' t.
Proof.
  intros Hids Hother. unfold getMetadata, incrementVersion.
  destruct (Db.findOne (where_entity ct id) t) as [m | ] eqn:Hfind; cbn [snd].
  - apply Db.findOne_some in Hfind as [Hin Hsat].
    apply Db.findOne_update_frame. intros r Hr Hid.
    unfold Db.by_id in Hid. apply Z.eqb_eq in Hid.
    assert (r = m) by now apply (Db.same_id_same_row t). subst r.
    split; [ now apply (where_entity_other ct id) | ].
    apply (where_entity_other ct id); [ | exact Hother ].
    apply where_entity_true in Hsat. now apply where_entity_true.
  - unfold Db.findOne, Db.create. cbn [snd]. rewrite Db.find_app_last.
    destruct (find (where_entity ct' id') t); [ reflexivity | ].
    rewrite (where_entity_other ct id); [ reflexivity | | exact Hother ].
    now apply where_entity_true.
Qed.

(** The row [incrementVersion] leaves for the entity. *)
Lemma incrementVersion_stored ct id location t :
  Db.unique_ids t ->
  exists m,
    getMetadata ct id (snd (incrementVersion ct id location t)) = Some m
    /\ syncVersion (snd m) = fst (incrementVersion ct id location t)
    /\ modifiedByLocation (snd m) = location
    /\ syncStatus (snd m) = Pending.
Proof.
  intros Hids. unfold getMetadata, incrementVersion.
  destruct (Db.findOne (where_entity ct id) t) as [m | ] eqn:Hfind; cbn [fst snd].
  - eexists. split.
    { apply (Db.findOne_update_by_id _ _ _ m Hids Hfind).
      apply Db.findOne_some in Hfind as [_ Hsat].
      apply where_entity_true in Hsat. now apply where_entity_true. }
    repeat split.
  - eexists. split.
    { unfold Db.findOne, Db.create. cbn [snd]. rewrite Db.find_app_last.
      unfold Db.findOne in Hfind. rewrite Hfind.
      replace (where_entity ct id _) with true; [ reflexivity | ].
      symmetry. now apply where_entity_true. }
    repeat split.
Qed.

Lemma storedVersion_incrementVersion ct id location t ct' id' :
  Db.unique_ids t ->
  storedVersion ct' id' (snd (incrementVersion ct id location t))
  = if is_edit_of ct' id' (IncrementVersion ct id location)
    then Number_add (storedVersion ct' id' t) 1
    else storedVersion ct' id' t.
Proof.
  intros Hids. rewrite !storedVersion_metadata. cbn [is_edit_of].
  destruct ((ct =? ct')%string && (id =? id')) eqn:Hsame.
  - apply andb_true_iff in Hsame as [Hct Hid].
    apply String.eqb_eq in Hct. apply Z.eqb_eq in Hid. subst ct' id'.
    destruct (incrementVersion_stored ct id location t Hids) as (m & -> & -> & _).
    unfold incrementVersion, getMetadata.
    destruct (Db.findOne (where_entity ct id) t); reflexivity.
  - rewrite incrementVersion_frame; [ reflexivity | exact Hids | ].
    apply andb_false_iff in Hsame as [Hct | Hid].
    + left. apply String.eqb_neq in Hct. congruence.
    + right. apply Z.eqb_neq in Hid. congruence.
Qed.

Lemma storedVersion_markSynced now ct id t ct' id' :
  storedVersion ct' id' (markSynced now ct id t) = storedVersion ct' id' t.
Proof.
  rewrite !storedVersion_metadata. unfold markSynced, getMetadata.
  destruct (Db.findOne (where_entity ct id) t) as [m | ]; [ | reflexivity ].
  match goal with
  | |- context [Db.update ?w ?f t] =>
      pose proof (Db.findOne_update_view (fun r => syncVersion (snd r))
                    (where_entity ct' id') w f t
                    (fun r => eq_refl) (fun r => eq_refl)) as Hview
  end.
  destruct (Db.findOne (where_entity ct' id') (Db.update _ _ t)),
           (Db.findOne (where_entity ct' id') t); simpl in Hview; congruence.
Qed.

Lemma run_unique_ids t c : Db.unique_ids t -> Db.unique_ids (run t c).
Proof.
  destruct c; simpl;
    [ apply incrementVersion_unique_ids | apply markSynced_unique_ids ].
Qed.

(** X1. [incrementVersion] returns the version it stores: one more than the
    version the entity had, or 1 for an entity without metadata, as long as
    the version it had is below [2^53] in magnitude (from there on the sum
    is rounded); the row is left pending and attributed to the caller's
    location, [getVersion] reads the new version back, and the metadata of
    every other entity is as it was.  ([id] is the primary key of the
    table.) *)
Theorem incrementVersion_stores_next_version (ct : string) (id : Z)
    (location : string) (t : table) :
  Db.unique_ids t ->
  Z.abs (storedVersion ct id t) < 2 ^ 53 ->
  let out := incrementVersion ct id location t in
  fst out = storedVersion ct id t + 1
  /\ (exists m,
        getMetadata ct id (snd out) = Some m
        /\ syncVersion (snd m) = fst out
        /\ modifiedByLocation (snd m) = location
        /\ syncStatus (snd m) = Pending)
  /\ storedVersion ct id (snd out) = fst out
  /\ (forall ct' id', ct' <> ct \/ id' <> id ->
                      getMetadata ct' id' (snd out) = getMetadata ct' id' t)
  /\ Db.unique_ids (snd out).
Proof.
  intros Hids Hsafe out. subst out.
  split; [ | split; [ | split; [ | split ] ] ].
  - rewrite <- Number_add_exact by lia.
    rewrite storedVersion_metadata. unfold incrementVersion, getMetadata.
    destruct (Db.findOne (where_entity ct id) t); reflexivity.
  - now apply incrementVersion_stored.
  - rewrite storedVersion_metadata.
    now destruct (incrementVersion_stored ct id location t Hids) as (m & -> & -> & _).
  - intros ct' id' Hother. now apply incrementVersion_frame.
  - now apply incrementVersion_unique_ids.
Qed.

Definition two_articles : table :=
  [ (1, {| contentType := "api::article.article"; entityId := 7;
           syncVersion := 2; modifiedByLocation := "local";
           lastSyncedAt := Some 1000; syncStatus := Synced;
           conflictFlag := false |});
    (2, {| contentType := "api::article.article"; entityId := 8;
           syncVersion := 5; modifiedByLocation := "remote";
           lastSyncedAt := None; syncStatus := Pending;
           conflictFlag := false |}) ].

Lemma two_articles_unique_ids : Db.unique_ids two_articles.
Proof. repeat constructor; simpl; intuition discriminate. Qed.

(** From [2^53] on an increment is lost to rounding: the version stays where
    it is. *)
Example version_at_the_end_of_the_safe_range :
  fst (incrementVersion "api::article.article" 7 "local"
         [ (1, {| contentType := "api::article.article"; entityId := 7;
                  syncVersion := 2 ^ 53; modifiedByLocation := "local";
                  lastSyncedAt := None; syncStatus := Pending;
                  conflictFlag := false |}) ])
  = 2 ^ 53.
Proof. reflexivity. Qed.

Lemma incrementVersion_stores_next_version_witness :
  Db.unique_ids two_articles
  /\ Z.abs (storedVersion "api::article.article" 7 two_articles) < 2 ^ 53
  /\ fst (incrementVersion "api::article.article" 7 "ship-1" two_articles) = 3
  /\ storedVersion "api::article.article" 8
       (snd (incrementVersion "api::article.article" 7 "ship-1" two_articles)) = 5.
Proof.
  assert (Hsafe : Z.abs (storedVersion "api::article.article" 7 two_articles)
                  < 2 ^ 53) by (vm_compute; reflexivity).
  pose proof (incrementVersion_stores_next_version "api::article.article" 7
                "ship-1" two_articles two_articles_unique_ids Hsafe) as (Hv & _).
  split; [ exact two_articles_unique_ids | ].
  split; [ exact Hsafe | ].
  split; [ exact Hv | reflexivity ].
Defined.

(** X2. After any run of [incrementVersion] and [markSynced] calls, for any
    entities, the stored version of an entity is the version it had plus the
    number of [incrementVersion] calls made for it, for a version that starts
    non-negative and stays within [2^53], the range in which a number counts
    exactly: every recorded edit counts once, and marking as synced never
    changes a version. *)
Theorem storedVersion_counts_edits (calls : list Call) (t : table)
    (ct : string) (id : Z) :
  Db.unique_ids t ->
  0 <= storedVersion ct id t ->
  storedVersion ct id t + edits ct id calls <= 2 ^ 53 ->
  storedVersion ct id (fold_left run calls t)
  = storedVersion ct id t + edits ct id calls.
Proof.
  unfold edits. revert t.
  induction calls as [ | c calls IH ]; intros t Hids Hpos Hsafe;
    cbn [fold_left filter] in *.
  - simpl. lia.
  - assert (Hstep : storedVersion ct id (run t c)
                    = storedVersion ct id t
                      + (if is_edit_of ct id c then 1 else 0)).
    { destruct c as [ct0 id0 location | now ct0 id0 ]; cbn [run].
      - rewrite storedVersion_incrementVersion by exact Hids.
        destruct (is_edit_of ct id (IncrementVersion ct0 id0 location));
          cbn [List.length] in Hsafe; [ | lia ].
        apply Number_add_exact. lia.
      - rewrite storedVersion_markSynced. cbn [is_edit_of]. lia. }
    rewrite IH; [ | now apply run_unique_ids | | ]; rewrite Hstep;
      destruct (is_edit_of ct id c); cbn [List.length] in *; lia.
Qed.

Lemma storedVersion_counts_edits_witness :
  Db.unique_ids two_articles
  /\ storedVersion "api::article.article" 7
       (fold_left run [ IncrementVersion "api::article.article" 7 "local";
                        MarkSynced 2000 "api::article.article" 7;
                        IncrementVersion "api::article.article" 8 "local";
                        IncrementVersion "api::article.article" 7 "local" ]
          two_articles) = 4.
Proof.
  split; [ exact two_articles_unique_ids | ].
  apply (storedVersion_counts_edits
           [ IncrementVersion "api::article.article" 7 "local";
             MarkSynced 2000 "api::article.article" 7;
             IncrementVersion "api::article.article" 8 "local";
             IncrementVersion "api::article.article" 7 "local" ]
           two_articles "api::article.article" 7 two_articles_unique_ids);
    vm_compute; discriminate.
Defined.

(** ** The shape of the table *)

(** [id] is a key, there is at most one row per entity, and a row marked
    synced carries the time of the sync. *)
Definition wellformed (t : table) : Prop :=
  Db.unique_ids t /\ one_row_per_entity t /\ synced_has_timestamp t.

Lemma one_row_create (m : SyncMetadata) (t : table) :
  one_row_per_entity t ->
  Db.findOne (where_entity (contentType m) (entityId m)) t = None ->
  one_row_per_entity (snd (Db.create m t)).
Proof.
  unfold one_row_per_entity. intros Hinv Hfind ct id.
  unfold Db.create. cbn [snd]. rewrite filter_app, length_app. cbn [filter].
  destruct (where_entity ct id (Db.nextId t, m)) eqn:Hnew; cbn [List.length].
  - apply where_entity_true in Hnew as [Hct Hid]. cbn [snd] in Hct, Hid.
    subst ct id. rewrite (Db.filter_none _ _ Hfind). simpl. lia.
  - specialize (Hinv ct id). lia.
Qed.

Lemma incrementVersion_wellformed ct id location t :
  wellformed t -> wellformed (snd (incrementVersion ct id location t)).
Proof.
  intros (Hids & Hone & Hts).
  split; [ now apply incrementVersion_unique_ids | ].
  unfold incrementVersion.
  destruct (Db.findOne (where_entity ct id) t) as [m | ] eqn:Hfind; cbn [snd].
  - split.
    + intros ct' id'. rewrite Db.filter_update_length; [ apply Hone | ].
      intros row. reflexivity.
    + intros row Hin. apply Db.in_update in Hin as [Hin | (r & _ & _ & ->)].
      * now apply Hts.
      * cbn. discriminate.
  - split.
    + now apply one_row_create.
    + intros row Hin. unfold Db.create in Hin. cbn [snd] in Hin.
      apply in_app_iff in Hin as [Hin | [<- | []]]; [ now apply Hts | ].
      cbn. discriminate.
Qed.

Lemma markSynced_wellformed now ct id t :
  wellformed t -> wellformed (markSynced now ct id t).
Proof.
  intros (Hids & Hone & Hts).
  split; [ now apply markSynced_unique_ids | ].
  unfold markSynced.
  destruct (Db.findOne (where_entity ct id) t) as [m | ]; [ | auto ].
  split.
  - intros ct' id'. rewrite Db.filter_update_length; [ apply Hone | ].
    intros row. reflexivity.
  - intros row Hin. apply Db.in_update in Hin as [Hin | (r & _ & _ & ->)].
    + now apply Hts.
    + cbn. discriminate.
Qed.

Lemma delete_wellformed (where_ : Z * SyncMetadata -> bool) t :
  wellformed t -> wellformed (Db.delete where_ t).
Proof.
  intros (Hids & Hone & Hts).
  split; [ now apply Db.unique_ids_delete | split ].
  - intros ct id. etransitivity; [ apply Db.filter_delete_le | apply Hone ].
  - intros row Hin. apply Db.in_delete in Hin. now apply Hts.
Qed.

End VersionTracker.

(* ===================================================================== *)
(** * The CMS entity service *)
(* ===================================================================== *)

(** The CMS is a collaborator of the plug-in.  It is modelled as one
    collection per registered content type, each a table of entities: an
    entity is an object that carries its own [id], and ids are allotted per
    collection.  [strapi.contentType(uid)] finds the collection of a
    registered type; [strapi.entityService] reads and writes entities, an
    update assigning the given attributes onto the stored entity.  The
    operations always succeed. *)
Module Cms.

Definition entity := list (string * json).

Definition collection := Db.table entity.

Definition store := list (string * collection).

(** [strapi.contentType(uid)] *)
Fixpoint contentType (uid : string) (s : store) : option collection :=
  match s with
  | [] => None
  | (u, c) :: s' => if (uid =? u)%string then Some c else contentType uid s'
  end.

Fixpoint with_collection (uid : string) (f : collection -> collection)
    (s : store) : store :=
  match s with
  | [] => []
  | (u, c) :: s' =>
      if (uid =? u)%string then (u, f c) :: s'
      else (u, c) :: with_collection uid f s'
  end.

Definition findOne (uid : string) (id : Z) (s : store) : option entity :=
  match contentType uid s with
  | Some c => option_map snd (Db.findOne (Db.by_id id) c)
  | None => None
  end.

Definition create (uid : string) (data : json) (s : store) : (Z * entity) * store :=
  let c := match contentType uid s with Some c => c | None => [] end in
  let created := (Db.nextId c, set_field "id" (JNum (Db.nextId c)) (spread data)) in
  (created, with_collection uid (fun c => c ++ [created]) s).

Definition assign (data : json) (attrs : entity) : entity :=
  fold_left (fun acc kv => set_field (fst kv) (snd kv) acc) (spread data) attrs.

Definition update (uid : string) (id : Z) (data : json) (s : store) : store :=
  with_collection uid (Db.update (Db.by_id id) (assign data)) s.

Definition delete (uid : string) (id : Z) (s : store) : store :=
  with_collection uid (Db.delete (Db.by_id id)) s.

End Cms.

(* ===================================================================== *)
(** * services/conflict-resolver.ts *)
(* ===================================================================== *)

Module ConflictResolver.
Import VersionTracker.

Inductive ConflictStatus := StatusPending | StatusResolved.

(** A row of [plugin::offline-sync.conflict-log]. *)
Record ConflictLog := {
  c_contentType : string;
  c_entityId : Z;
  localData : json;
  remoteData : json;
  c_conflictingFields : list string;
  c_conflictType : ConflictType;
  status : ConflictStatus;
  resolution : option string;
  mergedData : option json;
  resolvedAt : option Z;
  resolvedBy : option Z
}.

Definition table := Db.table ConflictLog.

Definition is_pending (c : ConflictLog) : bool :=
  match status c with StatusPending => true | StatusResolved => false end.

(** [where: { contentType, entityId, status: 'pending' }] *)
Definition where_pending (ct : string) (id : Z) (row : Z * ConflictLog) : bool :=
  (c_contentType (snd row) =? ct)%string && (c_entityId (snd row) =? id)
  && is_pending (snd row).

(** The default value of the parameter [conflictType] is ['direct']. *)
Definition flagConflict (ct : string) (id : Z) (local remote : json)
    (fields : list string) (kind : option ConflictType) (t : table) : table :=
  let conflictType := match kind with Some k => k | None => Direct end in
  match Db.findOne (where_pending ct id) t with
  | Some existing =>
      Db.update (Db.by_id (fst existing))
        (fun c => {| c_contentType := c_contentType c;
                     c_entityId := c_entityId c;
                     localData := local;
                     remoteData := remote;
                     c_conflictingFields := fields;
                     c_conflictType := conflictType;
                     status := status c;
                     resolution := resolution c;
                     mergedData := mergedData c;
                     resolvedAt := resolvedAt c;
                     resolvedBy := resolvedBy c |}) t
  | None =>
      snd (Db.create {| c_contentType := ct;
                        c_entityId := id;
                        localData := local;
                        remoteData := remote;
                        c_conflictingFields := fields;
                        c_conflictType := conflictType;
                        status := StatusPending;
                        resolution := None;
                        mergedData := None;
                        resolvedAt := None;
                        resolvedBy := None |} t)
  end.

(** [autoMerge]: the local object, completed with the fields of the remote
    one that read as [undefined] on it, four reserved names apart.  The test
    [merged[key] === undefined] reads through the prototype, so a name the
    merged object inherits from [Object.prototype] counts as defined. *)
Definition autoMerge (local remote : json) : json :=
  JObj (fold_left
          (fun merged kv =>
             let key := fst kv in
             if negb (includes ["id"; "createdAt"; "updatedAt"; "syncVersion"] key)
                && is_undefined merged key
             then assign key (snd kv) merged
             else merged)
          (entries remote) (spread local)).

(** What the services of the plug-in read and write. *)
Record State := {
  entities : Cms.store;
  syncMetadata : VersionTracker.table;
  conflictLog : table;
  warnings : list string
}.

Definition with_entities (s : Cms.store) (st : State) : State :=
  {| entities := s;
     syncMetadata := syncMetadata st; conflictLog := conflictLog st;
     warnings := warnings st |}.

Definition with_syncMetadata (m : VersionTracker.table) (st : State) : State :=
  {| entities := entities st;
     syncMetadata := m; conflictLog := conflictLog st;
     warnings := warnings st |}.

Definition with_conflictLog (c : table) (st : State) : State :=
  {| entities := entities st;
     syncMetadata := syncMetadata st; conflictLog := c;
     warnings := warnings st |}.

Definition warn (message : string) (st : State) : State :=
  {| entities := entities st;
     syncMetadata := syncMetadata st; conflictLog := conflictLog st;
     warnings := warnings st ++ [message] |}.

Definition exn := string.

(** The payload a resolution writes back; [None] for a resolution that is
    not one of the three. *)
Definition finalDataOf (resolution : string) (merged : option json)
    (c : ConflictLog) : option json :=
  if (resolution =? "keep_local")%string then Some (localData c)
  else if (resolution =? "keep_remote")%string then Some (remoteData c)
  else if (resolution =? "merge")%string then
    Some (match merged with
          | Some m => if truthy m then m else autoMerge (localData c) (remoteData c)
          | None => autoMerge (localData c) (remoteData c)
          end)
  else None.

(** The calls [resolveConflict] awaits, in program order: the lookup of the
    conflict, the lookup of the entity, the [create] or [update] of the
    entity, the update of the conflict row, and [markSynced] of the version
    tracker.  Each goes to the query engine or to the CMS and may reject
    instead of resolving, and nothing in [resolveConflict] catches that.
    [Rejections] tells for one run which of them reject, and with what
    error; [None] for a call that resolves.  A call that rejects has written
    nothing. *)
Record Rejections := {
  conflictLog_findOne : option exn;
  entityService_findOne : option exn;
  entityService_write : option exn;
  conflictLog_update : option exn;
  versionTracker_markSynced : option exn
}.

(** The run in which every call resolves. *)
Definition none_rejects : Rejections :=
  {| conflictLog_findOne := None;
     entityService_findOne := None;
     entityService_write := None;
     conflictLog_update := None;
     versionTracker_markSynced := None |}.

Definition resolveConflict (rejects : Rejections) (now : Z) (conflictId : Z)
    (resolution : string) (merged : option json) (by_ : option Z) (st : State)
  : (exn + unit) * State :=
  match conflictLog_findOne rejects with
  | Some e => (inl e, st)
  | None =>
  match Db.findOne (Db.by_id conflictId) (conflictLog st) with
  | None => (inl "Conflict not found or already resolved", st)
  | Some conflict =>
      if negb (is_pending (snd conflict)) then
        (inl "Conflict not found or already resolved", st)
      else
        let ct := c_contentType (snd conflict) in
        let entityId := c_entityId (snd conflict) in
        match finalDataOf resolution merged (snd conflict) with
        | None => (inl ("Invalid resolution: " +++ resolution), st)
        | Some finalData =>
        match entityService_findOne rejects with
        | Some e => (inl e, st)
        | None =>
            let written : exn + State :=
              match Cms.findOne ct entityId (entities st) with
              | None =>
                  if (resolution =? "keep_local")%string
                     || (resolution =? "merge")%string
                  then
                    match entityService_write rejects with
                    | Some e => inl e
                    | None =>
                        inr (with_entities
                               (snd (Cms.create ct finalData (entities st))) st)
                    end
                  else inr st
              | Some _ =>
                  match entityService_write rejects with
                  | Some e => inl e
                  | None =>
                      inr (with_entities
                             (Cms.update ct entityId finalData (entities st)) st)
                  end
              end in
            match written with
            | inl e => (inl e, st)
            | inr st1 =>
            match conflictLog_update rejects with
            | Some e => (inl e, st1)
            | None =>
                let st2 :=
                  with_conflictLog
                    (Db.update (Db.by_id conflictId)
                       (fun c => {| c_contentType := c_contentType c;
                                    c_entityId := c_entityId c;
                                    localData := localData c;
                                    remoteData := remoteData c;
                                    c_conflictingFields := c_conflictingFields c;
                                    c_conflictType := c_conflictType c;
                                    status := StatusResolved;
                                    resolution := Some resolution;
                                    mergedData := Some finalData;
                                    resolvedAt := Some now;
                                    resolvedBy := by_ |})
                       (conflictLog st1)) st1 in
                match versionTracker_markSynced rejects with
                | Some e => (inl e, st2)
                | None =>
                    (inr tt,
                     with_syncMetadata
                       (markSynced now ct entityId (syncMetadata st2)) st2)
                end
            end
            end
        end
        end
  end
  end.

(** ** The conflict log keeps one pending row per entity *)

Definition one_pending_per_entity (t : table) : Prop :=
  forall ct id, (List.length (filter (where_pending ct id) t) <= 1)%nat.

Section FlagConflict.

Variables (ct : string) (id : Z) (local remote : json) (fields : list string)
          (kind : option ConflictType) (t : table).

Let flagged := flagConflict ct id local remote fields kind t.

Lemma flagConflict_unique_ids : Db.unique_ids t -> Db.unique_ids flagged.
Proof.
  unfold flagged, flagConflict.
  destruct (Db.findOne (where_pending ct id) t).
  - apply Db.unique_ids_update.
  - apply Db.unique_ids_create.
Qed.

Lemma flagConflict_one_pending :
  one_pending_per_entity t -> one_pending_per_entity flagged.
Proof.
  unfold flagged, flagConflict, one_pending_per_entity.
  intros Hinv ct' id'.
  destruct (Db.findOne (where_pending ct id) t) as [existing | ] eqn:Hfind.
  - rewrite Db.filter_update_length; [ apply Hinv | ].
    intros row. reflexivity.
  - unfold Db.create. cbn [snd]. rewrite filter_app, length_app. cbn [filter].
    match goal with |- context [where_pending ct' id' ?row] =>
      destruct (where_pending ct' id' row) eqn:Hnew end; cbn [List.length].
    + unfold where_pending in Hnew. cbn in Hnew.
      apply andb_true_iff in Hnew as [Hnew _].
      apply andb_true_iff in Hnew as [Hct Hid].
      apply String.eqb_eq in Hct. apply Z.eqb_eq in Hid. subst ct' id'.
      rewrite (Db.filter_none _ _ Hfind). simpl. lia.
    + specialize (Hinv ct' id'). lia.
Qed.

(** After the call the log has a pending row for the entity and it holds
    the two sides and the fields of this conflict. *)
Lemma flagConflict_logged :
  Db.unique_ids t ->
  exists row,
    Db.findOne (where_pending ct id) flagged = Some row
    /\ localData (snd row) = local
    /\ remoteData (snd row) = remote
    /\ c_conflictingFields (snd row) = fields
    /\ c_conflictType (snd row) = match kind with Some k => k | None => Direct end.
Proof.
  unfold flagged, flagConflict. intros Hids.
  destruct (Db.findOne (where_pending ct id) t) as [existing | ] eqn:Hfind.
  - eexists. split.
    + apply Db.findOne_update_by_id; [ exact Hids | exact Hfind | ].
      apply Db.findOne_some in Hfind as [_ Hsat]. exact Hsat.
    + repeat split.
  - eexists. split.
    + unfold Db.findOne, Db.create. cbn [snd].
      rewrite (Db.find_app_none _ _ _ Hfind).
      unfold where_pending. cbn. now rewrite String.eqb_refl, Z.eqb_refl.
    + repeat split.
Qed.

End FlagConflict.

(** ** Manual resolution *)

Definition valid_resolution (resolution : string) : Prop :=
  resolution = "keep_local" \/ resolution = "keep_remote" \/ resolution = "merge".

Lemma finalDataOf_none resolution merged c :
  finalDataOf resolution merged c = None <-> ~ valid_resolution resolution.
Proof.
  unfold finalDataOf, valid_resolution.
  destruct (String.eqb_spec resolution "keep_local");
    [ split; [ discriminate | tauto ] | ].
  destruct (String.eqb_spec resolution "keep_remote");
    [ split; [ discriminate | tauto ] | ].
  destruct (String.eqb_spec resolution "merge");
    [ split; [ discriminate | tauto ] | ].
  tauto.
Qed.

Definition article_uid : string := "api::article.article".

Definition pending_conflict : ConflictLog :=
  {| c_contentType := article_uid;
     c_entityId := 7;
     localData := JObj [("id", JNum 7); ("title", JStr "A")];
     remoteData := JObj [("title", JStr "B"); ("summary", JStr "s")];
     c_conflictingFields := ["title"];
     c_conflictType := Direct;
     status := StatusPending;
     resolution := None;
     mergedData := None;
     resolvedAt := None;
     resolvedBy := None |}.

Definition conflicted_state : State :=
  {| entities := [ (article_uid, [ (7, [("id", JNum 7); ("title", JStr "A")]) ]) ];
     syncMetadata :=
       [ (1, {| contentType := article_uid; entityId := 7; syncVersion := 2;
                modifiedByLocation := "local"; lastSyncedAt := None;
                syncStatus := Conflict; conflictFlag := true |}) ];
     conflictLog := [ (1, pending_conflict) ];
     warnings := [] |}.

(** Keeping the remote side writes it onto the entity, closes the conflict
    and marks the metadata synced. *)
Example keep_remote_resolves :
  resolveConflict none_rejects 5000 1 "keep_remote" None (Some 42)
    conflicted_state
  = (inr tt,
     {| entities := [ (article_uid, [ (7, [ ("id", JNum 7); ("title", JStr "B");
                                            ("summary", JStr "s") ]) ]) ];
        syncMetadata :=
          [ (1, {| contentType := article_uid; entityId := 7; syncVersion := 2;
                   modifiedByLocation := "local"; lastSyncedAt := Some 5000;
                   syncStatus := Synced; conflictFlag := false |}) ];
        conflictLog :=
          [ (1, {| c_contentType := article_uid;
                   c_entityId := 7;
                   localData := JObj [("id", JNum 7); ("title", JStr "A")];
                   remoteData := JObj [("title", JStr "B"); ("summary", JStr "s")];
                   c_conflictingFields := ["title"];
                   c_conflictType := Direct;
                   status := StatusResolved;
                   resolution := Some "keep_remote";
                   mergedData := Some (JObj [("title", JStr "B"); ("summary", JStr "s")]);
                   resolvedAt := Some 5000;
                   resolvedBy := Some 42 |}) ];
        warnings := [] |}).
Proof. reflexivity. Qed.

Example unknown_resolution_is_refused :
  resolveConflict none_rejects 5000 1 "keep_both" None None conflicted_state
  = (inl "Invalid resolution: keep_both", conflicted_state).
Proof. reflexivity. Qed.

(** The entity service is asked to write, unless the entity is gone and the
    remote side is kept. *)
Definition writes_entity (resolution : string) (c : ConflictLog) (st : State)
  : bool :=
  match Cms.findOne (c_contentType c) (c_entityId c) (entities st) with
  | Some _ => true
  | None => (resolution =? "keep_local")%string || (resolution =? "merge")%string
  end.

(** Every call the run awaits resolves. *)
Definition all_resolve (rejects : Rejections) (resolution : string)
    (c : ConflictLog) (st : State) : Prop :=
  conflictLog_findOne rejects = None
  /\ entityService_findOne rejects = None
  /\ (writes_entity resolution c st = true -> entityService_write rejects = None)
  /\ conflictLog_update rejects = None
  /\ versionTracker_markSynced rejects = None.

(** The row [resolveConflict] leaves in the log. *)
Definition resolvedAs (now : Z) (choice : string) (finalData : json)
    (by_ : option Z) (c : ConflictLog) : ConflictLog :=
  {| c_contentType := c_contentType c;
     c_entityId := c_entityId c;
     localData := localData c;
     remoteData := remoteData c;
     c_conflictingFields := c_conflictingFields c;
     c_conflictType := c_conflictType c;
     status := StatusResolved;
     resolution := Some choice;
     mergedData := Some finalData;
     resolvedAt := Some now;
     resolvedBy := by_ |}.

(** A run in which the conflict is found pending, the resolution is one of
    the three and every awaited call resolves, returns normally. *)
Lemma resolveConflict_returns rejects now conflictId choice merged by_ st c
    finalData :
  Db.findOne (Db.by_id conflictId) (conflictLog st) = Some c ->
  is_pending (snd c) = true ->
  finalDataOf choice merged (snd c) = Some finalData ->
  all_resolve rejects choice (snd c) st ->
  fst (resolveConflict rejects now conflictId choice merged by_ st) = inr tt.
Proof.
  intros Hfind Hpending Hfinal (H1 & H2 & H3 & H4 & H5).
  unfold writes_entity in H3.
  unfold resolveConflict.
  rewrite H1, Hfind, Hpending, Hfinal, H2, H4, H5. cbn [negb].
  destruct (Cms.findOne _ _ (entities st)).
  - now rewrite (H3 eq_refl).
  - destruct ((choice =? "keep_local")%string || (choice =? "merge")%string);
      [ now rewrite (H3 eq_refl) | reflexivity ].
Qed.

(** What a call that returns normally found, and the log it leaves. *)
Lemma resolveConflict_success rejects now conflictId choice merged by_ st :
  fst (resolveConflict rejects now conflictId choice merged by_ st) = inr tt ->
  exists c finalData,
    Db.findOne (Db.by_id conflictId) (conflictLog st) = Some c
    /\ is_pending (snd c) = true
    /\ finalDataOf choice merged (snd c) = Some finalData
    /\ all_resolve rejects choice (snd c) st
    /\ conflictLog (snd (resolveConflict rejects now conflictId choice merged
                           by_ st))
       = Db.update (Db.by_id conflictId) (resolvedAs now choice finalData by_)
           (conflictLog st).
Proof.
  unfold resolveConflict, all_resolve, writes_entity.
  destruct (conflictLog_findOne rejects); [ discriminate | ].
  destruct (Db.findOne (Db.by_id conflictId) (conflictLog st)) as [c | ]
    eqn:Hfind; [ | discriminate ].
  destruct (is_pending (snd c)) eqn:Hpending; cbn [negb]; [ | discriminate ].
  destruct (finalDataOf choice merged (snd c)) as [finalData | ] eqn:Hfinal;
    [ | discriminate ].
  destruct (entityService_findOne rejects); [ discriminate | ].
  intros Hok. exists c, finalData.
  destruct (Cms.findOne _ _ (entities st));
    [ | destruct ((choice =? "keep_local")%string || (choice =? "merge")%string) ];
    destruct (entityService_write rejects); try discriminate Hok;
    destruct (conflictLog_update rejects); try discriminate Hok;
    destruct (versionTracker_markSynced rejects); try discriminate Hok;
    repeat split; try reflexivity; intros; congruence.
Qed.

(** A call that raises has written nothing, unless what rejected is the
    update of the conflict row or [markSynced], which come after the entity
    has been written. *)
Lemma resolveConflict_failure rejects now conflictId choice merged by_ st e :
  fst (resolveConflict rejects now conflictId choice merged by_ st) = inl e ->
  conflictLog_update rejects = None ->
  versionTracker_markSynced rejects = None ->
  snd (resolveConflict rejects now conflictId choice merged by_ st) = st.
Proof.
  intros Hraise Hupdate Hmark. revert Hraise.
  unfold resolveConflict. rewrite Hupdate, Hmark.
  destruct (conflictLog_findOne rejects); [ reflexivity | ].
  destruct (Db.findOne (Db.by_id conflictId) (conflictLog st)) as [c | ];
    [ | reflexivity ].
  destruct (is_pending (snd c)); cbn [negb]; [ | reflexivity ].
  destruct (finalDataOf choice merged (snd c)); [ | reflexivity ].
  destruct (entityService_findOne rejects); [ reflexivity | ].
  destruct (Cms.findOne _ _ (entities st));
    [ | destruct ((choice =? "keep_local")%string || (choice =? "merge")%string) ];
    destruct (entityService_write rejects); try reflexivity; discriminate.
Qed.

(** Whatever the outcome, the log is as it was or has the row of the conflict
    resolved, and the metadata is as it was or has one entity marked
    synced. *)
Lemma resolveConflict_tables rejects now conflictId choice merged by_ st :
  let st' := snd (resolveConflict rejects now conflictId choice merged by_ st) in
  (conflictLog st' = conflictLog st
   \/ exists finalData,
        conflictLog st'
        = Db.update (Db.by_id conflictId) (resolvedAs now choice finalData by_)
            (conflictLog st))
  /\ (syncMetadata st' = syncMetadata st
      \/ exists ct id, syncMetadata st' = markSynced now ct id (syncMetadata st)).
Proof.
  cbv zeta. unfold resolveConflict.
  destruct (conflictLog_findOne rejects); [ now split; left | ].
  destruct (Db.findOne (Db.by_id conflictId) (conflictLog st)) as [c | ];
    [ | now split; left ].
  destruct (is_pending (snd c)); cbn [negb]; [ | now split; left ].
  destruct (finalDataOf choice merged (snd c)) as [finalData | ];
    [ | now split; left ].
  destruct (entityService_findOne rejects); [ now split; left | ].
  destruct (Cms.findOne _ _ (entities st));
    [ | destruct ((choice =? "keep_local")%string || (choice =? "merge")%string) ];
    destruct (entityService_write rejects);
    destruct (conflictLog_update rejects);
    destruct (versionTracker_markSynced rejects);
    cbn; split;
    first [ now left | right; now exists finalData | right; now eexists _, _ ].
Qed.

(** C10, as the code has it.  [resolveConflict] raises an error exactly when
    the conflict id is not in the log, the conflict is already resolved, the
    resolution is none of [keep_local], [keep_remote], [merge], or one of
    the calls it awaits rejects.  In the three cases of its own, met by a
    lookup that resolves, it raises its own error and has written nothing.
    More generally an error leaves the entities, the conflict log and the
    sync metadata as they were whenever neither the update of the conflict
    row nor [markSynced] is what rejected: those two come after the entity
    has been written. *)
Theorem resolveConflict_errors_are_atomic (rejects : Rejections)
    (now conflictId : Z) (resolution : string) (merged : option json)
    (by_ : option Z) (st : State) :
  let out := resolveConflict rejects now conflictId resolution merged by_ st in
  let found := Db.findOne (Db.by_id conflictId) (conflictLog st) in
  ((exists e, fst out = inl e)
   <-> (found = None
        \/ (exists c, found = Some c /\ status (snd c) = StatusResolved)
        \/ ~ valid_resolution resolution
        \/ (exists c, found = Some c
                      /\ ~ all_resolve rejects resolution (snd c) st)))
  /\ (conflictLog_findOne rejects = None ->
      (found = None
       \/ (exists c, found = Some c /\ status (snd c) = StatusResolved) ->
       out = (inl "Conflict not found or already resolved", st))
      /\ ((exists c, found = Some c /\ status (snd c) = StatusPending) ->
          ~ valid_resolution resolution ->
          out = (inl ("Invalid resolution: " +++ resolution), st)))
  /\ (forall e, fst out = inl e ->
                conflictLog_update rejects = None ->
                versionTracker_markSynced rejects = None ->
                snd out = st).
Proof.
  cbv zeta. split; [ | split ].
  - split.
    + intros (e & He).
      destruct (Db.findOne (Db.by_id conflictId) (conflictLog st)) as [c | ]
        eqn:Hfind; [ | now left ].
      destruct (status (snd c)) eqn:Hstatus;
        [ | right; left; now exists c ].
      destruct (finalDataOf resolution merged (snd c)) as [finalData | ]
        eqn:Hfinal.
      * do 3 right. exists c. split; [ reflexivity | ]. intros Hall.
        assert (Hp : is_pending (snd c) = true)
          by (unfold is_pending; now rewrite Hstatus).
        pose proof (resolveConflict_returns rejects now conflictId resolution
                      merged by_ st c finalData Hfind Hp Hfinal Hall) as Hok.
        congruence.
      * right. right. left. now apply (finalDataOf_none resolution merged (snd c)).
    + intros Hcase.
      destruct (fst (resolveConflict rejects now conflictId resolution merged
                       by_ st)) as [e | []] eqn:Hout; [ now exists e | ].
      exfalso.
      destruct (resolveConflict_success _ _ _ _ _ _ _ Hout)
        as (c & finalData & Hfind & Hpending & Hfinal & Hall & _).
      destruct Hcase
        as [Hnone | [(c' & Hc' & Hres) | [Hinvalid | (c' & Hc' & Hrej)]]].
      * congruence.
      * rewrite Hfind in Hc'. injection Hc' as <-.
        unfold is_pending in Hpending. now rewrite Hres in Hpending.
      * apply (finalDataOf_none resolution merged (snd c)) in Hinvalid.
        congruence.
      * rewrite Hfind in Hc'. injection Hc' as <-. now apply Hrej.
  - intros Hlookup. unfold resolveConflict. rewrite Hlookup. split.
    + intros [-> | (c & -> & Hres)]; [ reflexivity | ].
      unfold is_pending. now rewrite Hres.
    + intros (c & -> & Hstatus) Hinvalid.
      unfold is_pending. rewrite Hstatus. cbn [negb].
      apply (finalDataOf_none resolution merged (snd c)) in Hinvalid.
      now rewrite Hinvalid.
  - intros e. apply resolveConflict_failure.
Qed.

(** The update of the conflict row rejects, everything else resolves. *)
Definition log_update_rejects : Rejections :=
  {| conflictLog_findOne := None;
     entityService_findOne := None;
     entityService_write := None;
     conflictLog_update := Some "Connection terminated unexpectedly";
     versionTracker_markSynced := None |}.

(** C10 as stated fails when a call that [resolveConflict] awaits rejects.
    Here the conflict is in the log and pending and the resolution is
    [keep_remote], yet the call raises: the update of the conflict row
    rejected.  By then the entity has been overwritten with the remote side,
    while the conflict is still pending in the log. *)
Lemma rejected_update_leaves_the_entity_written :
  let out := resolveConflict log_update_rejects 5000 1 "keep_remote" None
               (Some 42) conflicted_state in
  Db.findOne (Db.by_id 1) (conflictLog conflicted_state)
  = Some (1, pending_conflict)
  /\ status pending_conflict = StatusPending
  /\ valid_resolution "keep_remote"
  /\ fst out = inl "Connection terminated unexpectedly"
  /\ Cms.findOne article_uid 7 (entities conflicted_state)
     = Some [("id", JNum 7); ("title", JStr "A")]
  /\ Cms.findOne article_uid 7 (entities (snd out))
     = Some [("id", JNum 7); ("title", JStr "B"); ("summary", JStr "s")]
  /\ conflictLog (snd out) = conflictLog conflicted_state.
Proof.
  cbv zeta. repeat split. right. now left.
Qed.

(** ** Automatic merge *)

Lemma assoc_set_field (k : string) (v : json) (l : list (string * json))
    (k' : string) :
  assoc k' (set_field k v l) = if (k' =? k)%string then Some v else assoc k' l.
Proof.
  induction l as [ | [k0 v0] l IH ]; cbn [set_field assoc].
  - reflexivity.
  - destruct (String.eqb_spec k k0) as [-> | Hk]; cbn [assoc].
    + now destruct (k' =? k0)%string.
    + rewrite IH. destruct (k' =? k)%string eqn:Hk'; [ | reflexivity ].
      apply String.eqb_eq in Hk'. subst k'.
      apply String.eqb_neq in Hk. now rewrite Hk.
Qed.

Lemma assoc_insert_index (n : Z) (k : string) (v : json)
    (l : list (string * json)) (k' : string) :
  assoc k l = None ->
  assoc k' (insert_index n k v l)
  = if (k' =? k)%string then Some v else assoc k' l.
Proof.
  induction l as [ | [k0 v0] l IH ]; cbn [insert_index assoc]; [ reflexivity | ].
  destruct (String.eqb_spec k k0) as [ | Hk ]; [ discriminate | ].
  intros Hnone.
  destruct (array_index k0) as [n0 | ]; [ destruct (n0 <? n) | ];
    cbn [assoc]; try reflexivity.
  rewrite (IH Hnone).
  destruct (String.eqb_spec k' k0) as [-> | ]; [ | reflexivity ].
  apply String.eqb_neq in Hk. rewrite String.eqb_sym in Hk. now rewrite Hk.
Qed.

Lemma assoc_app_last (k : string) (v : json) (l : list (string * json))
    (k' : string) :
  assoc k l = None ->
  assoc k' (l ++ [(k, v)]) = if (k' =? k)%string then Some v else assoc k' l.
Proof.
  induction l as [ | [k0 v0] l IH ]; cbn [app assoc]; [ reflexivity | ].
  destruct (String.eqb_spec k k0) as [ | Hk ]; [ discriminate | ].
  intros Hnone. rewrite (IH Hnone).
  destruct (String.eqb_spec k' k0) as [-> | ]; [ | reflexivity ].
  apply String.eqb_neq in Hk. rewrite String.eqb_sym in Hk. now rewrite Hk.
Qed.

(** Reading back after the assignment of a name that read as undefined. *)
Lemma assoc_assign_undefined (k : string) (v : json) (l : list (string * json))
    (k' : string) :
  is_undefined l k = true ->
  assoc k' (assign k v l) = if (k' =? k)%string then Some v else assoc k' l.
Proof.
  unfold is_undefined, assign. destruct (assoc k l) eqn:Hk; [ discriminate | ].
  intros Hproto. apply negb_true_iff in Hproto.
  destruct (String.eqb_spec k "__proto__") as [-> | _]; [ discriminate Hproto | ].
  destruct (array_index k).
  - now apply assoc_insert_index.
  - now apply assoc_app_last.
Qed.

(** The local side wins on [title]; [id] and [toString] are not taken from
    the remote side; the new array index [1] is enumerated before the names,
    the new name [summary] after them. *)
Example autoMerge_sample :
  autoMerge (JObj [("title", JStr "A"); ("body", JStr "text")])
            (JObj [ ("1", JStr "one"); ("id", JNum 7); ("title", JStr "B");
                    ("summary", JStr "s"); ("toString", JStr "x") ])
  = JObj [ ("1", JStr "one"); ("title", JStr "A"); ("body", JStr "text");
           ("summary", JStr "s") ].
Proof. reflexivity. Qed.

(** X3. [autoMerge] keeps every field of the local side with its local value,
    the reserved ones included, and takes from the remote side the fields
    the local side lacks, except [id], [createdAt], [updatedAt] and
    [syncVersion] and except the names every object inherits from
    [Object.prototype] ([constructor], [toString], ...), which never read
    as undefined.  A field the two sides both have is never taken from the
    remote side. *)
Theorem autoMerge_prefers_local (local remote : json) (k : string) :
  get (autoMerge local remote) k
  = match get local k with
    | Some v => Some v
    | None =>
        if includes ["id"; "createdAt"; "updatedAt"; "syncVersion"] k
           || includes [ "constructor"; "__defineGetter__"; "__defineSetter__";
                         "hasOwnProperty"; "__lookupGetter__";
                         "__lookupSetter__"; "isPrototypeOf";
                         "propertyIsEnumerable"; "toString"; "valueOf";
                         "__proto__"; "toLocaleString" ] k
        then None
        else get remote k
    end.
Proof.
  change [ "constructor"; "__defineGetter__"; "__defineSetter__";
           "hasOwnProperty"; "__lookupGetter__"; "__lookupSetter__";
           "isPrototypeOf"; "propertyIsEnumerable"; "toString"; "valueOf";
           "__proto__"; "toLocaleString" ] with Object_prototype.
  unfold autoMerge, get, spread. cbn [entries].
  generalize (entries local) as merged.
  induction (entries remote) as [ | [k1 v1] rem IH ]; intros merged;
    cbn [fold_left].
  - cbn [assoc]. destruct (assoc k merged); [ reflexivity | ].
    now destruct (_ || _).
  - rewrite IH. cbn [fst snd assoc].
    destruct (negb (includes _ k1) && is_undefined merged k1) eqn:Htake.
    + rewrite (assoc_assign_undefined k1 v1 merged k)
        by now apply andb_true_iff in Htake.
      apply andb_true_iff in Htake as [Hres Hundef].
      apply negb_true_iff in Hres.
      destruct (String.eqb_spec k k1) as [-> | Hk]; [ | reflexivity ].
      unfold is_undefined in Hundef.
      destruct (assoc k1 merged); [ discriminate | ].
      apply negb_true_iff in Hundef. now rewrite Hres, Hundef.
    + destruct (String.eqb_spec k k1) as [-> | Hk]; [ | reflexivity ].
      destruct (assoc k1 merged) eqn:Hm; [ reflexivity | ].
      unfold is_undefined in Htake. rewrite Hm in Htake.
      destruct (includes _ k1); [ reflexivity | ].
      cbn [negb andb orb] in *. apply negb_false_iff in Htake.
      now rewrite Htake.
Qed.

(** ** A conflict is resolved once *)

(** X4. After [resolveConflict] has returned normally, the row of the conflict
    is resolved and records the resolution, the data written, the time and
    the user; and every further [resolveConflict] on the same id, whatever
    the resolution, raises and writes nothing: the error is 'Conflict not
    found or already resolved', unless the lookup of the conflict itself
    rejects, with its own error. *)
Theorem resolved_conflict_is_final (rejects : Rejections) (now conflictId : Z)
    (choice : string) (merged : option json) (by_ : option Z) (st : State) :
  fst (resolveConflict rejects now conflictId choice merged by_ st) = inr tt ->
  let st' :=
    snd (resolveConflict rejects now conflictId choice merged by_ st) in
  (exists c row,
     Db.findOne (Db.by_id conflictId) (conflictLog st) = Some c
     /\ Db.findOne (Db.by_id conflictId) (conflictLog st') = Some row
     /\ status (snd row) = StatusResolved
     /\ resolution (snd row) = Some choice
     /\ mergedData (snd row) = finalDataOf choice merged (snd c)
     /\ resolvedAt (snd row) = Some now
     /\ resolvedBy (snd row) = by_)
  /\ (forall rejects' now' choice' merged' by',
        resolveConflict rejects' now' conflictId choice' merged' by' st'
        = (inl match conflictLog_findOne rejects' with
               | Some e => e
               | None => "Conflict not found or already resolved"
               end, st')).
Proof.
  intros Hok st'.
  destruct (resolveConflict_success _ _ _ _ _ _ _ Hok)
    as (c & finalData & Hfind & Hpending & Hfinal & _ & Hlog).
  fold st' in Hlog.
  assert (Hrow : Db.findOne (Db.by_id conflictId) (conflictLog st')
                 = Some (fst c, resolvedAs now choice finalData by_ (snd c))).
  { rewrite Hlog. apply Db.findOne_update; [ exact Hfind | ].
    apply Db.findOne_some in Hfind as [_ Hid]. exact Hid. }
  split.
  - exists c. eexists. split; [ exact Hfind | split; [ exact Hrow | ] ].
    cbn [snd resolvedAs status resolution mergedData resolvedAt resolvedBy].
    rewrite Hfinal. repeat split.
  - intros rejects' now' choice' merged' by'. unfold resolveConflict.
    destruct (conflictLog_findOne rejects'); [ reflexivity | ].
    rewrite Hrow. reflexivity.
Qed.

Lemma resolved_conflict_is_final_witness :
  fst (resolveConflict none_rejects 5000 1 "keep_remote" None (Some 42)
         conflicted_state)
  = inr tt
  /\ fst (resolveConflict none_rejects 6000 1 "keep_local" None None
            (snd (resolveConflict none_rejects 5000 1 "keep_remote" None
                    (Some 42) conflicted_state)))
     = inl "Conflict not found or already resolved".
Proof.
  split; [ reflexivity | ].
  pose proof (resolved_conflict_is_final none_rejects 5000 1 "keep_remote" None
                (Some 42) conflicted_state eq_refl) as [_ Hagain].
  exact (f_equal fst (Hagain none_rejects 6000 "keep_local" None None)).
Defined.

(** The pending row of an entity, once resolved, is no longer selected. *)
Lemma filter_update_found (p : Z * ConflictLog -> bool) (conflictId : Z)
    (data : ConflictLog -> ConflictLog) (t : table) (c : Z * ConflictLog) :
  Db.findOne (Db.by_id conflictId) t = Some c ->
  p c = true ->
  (forall row, p (fst row, data (snd row)) = false) ->
  (List.length (filter p t) <= 1)%nat ->
  filter p (Db.update (Db.by_id conflictId) data t) = [].
Proof.
  unfold Db.findOne. intros Hfind Hc Hdata.
  induction t as [ | r t IH ]; cbn [find Db.update filter]; [ discriminate | ].
  cbn [find] in Hfind. destruct (Db.by_id conflictId r) eqn:Hid.
  - injection Hfind as ->. rewrite Hc. cbn [filter List.length]. rewrite Hdata.
    intros Hlen. destruct (filter p t); [ reflexivity | simpl in Hlen; lia ].
  - cbn [filter]. destruct (p r) eqn:Hr; cbn [List.length]; intros Hlen.
    + apply find_some in Hfind as [Hin _].
      assert (In c (filter p t)) by (apply filter_In; auto).
      destruct (filter p t); [ contradiction | simpl in Hlen; lia ].
    + now apply IH.
Qed.

(** X5. On a log with at most one pending row per entity, a [resolveConflict]
    that returns normally leaves the entity of the conflict without a pending
    row, so that the next conflict on it opens a new row; the log keeps its
    ids, and at most one pending row per entity. *)
Theorem resolveConflict_closes_the_pending_row (rejects : Rejections)
    (now conflictId : Z) (choice : string) (merged : option json)
    (by_ : option Z) (st : State) (c : Z * ConflictLog) :
  one_pending_per_entity (conflictLog st) ->
  Db.findOne (Db.by_id conflictId) (conflictLog st) = Some c ->
  fst (resolveConflict rejects now conflictId choice merged by_ st) = inr tt ->
  let st' :=
    snd (resolveConflict rejects now conflictId choice merged by_ st) in
  Db.findOne (where_pending (c_contentType (snd c)) (c_entityId (snd c)))
    (conflictLog st') = None
  /\ one_pending_per_entity (conflictLog st')
  /\ Db.ids (conflictLog st') = Db.ids (conflictLog st).
Proof.
  intros Hinv Hfind Hok st'.
  destruct (resolveConflict_success _ _ _ _ _ _ _ Hok)
    as (c' & finalData & Hfind' & Hpending & Hfinal & _ & Hlog).
  rewrite Hfind in Hfind'. injection Hfind' as <-.
  fold st' in Hlog. rewrite Hlog.
  split; [ | split ].
  - unfold Db.findOne.
    match goal with |- find ?p ?l = None =>
      assert (Hnone : filter p l = []) end.
    { apply (filter_update_found _ _ _ _ c Hfind).
      - unfold where_pending. now rewrite String.eqb_refl, Z.eqb_refl, Hpending.
      - intros row. unfold where_pending, is_pending. cbn.
        now rewrite andb_false_r.
      - apply Hinv. }
    match goal with |- find ?p ?l = None =>
      destruct (find p l) as [row | ] eqn:Hrow; [ | reflexivity ] end.
    apply find_some in Hrow as [Hin Hsat].
    assert (Hin' : In row []) by (rewrite <- Hnone; apply filter_In; auto).
    destruct Hin'.
  - intros ct id. etransitivity; [ | apply (Hinv ct id) ].
    apply Db.filter_update_le. intros row.
    unfold where_pending, is_pending. cbn. now rewrite andb_false_r.
  - apply Db.ids_update.
Qed.

Lemma resolveConflict_closes_the_pending_row_witness :
  one_pending_per_entity (conflictLog conflicted_state)
  /\ Db.findOne (Db.by_id 1) (conflictLog conflicted_state)
     = Some (1, pending_conflict)
  /\ fst (resolveConflict none_rejects 5000 1 "merge" None None
            conflicted_state) = inr tt
  /\ Db.findOne (where_pending article_uid 7)
       (conflictLog (snd (resolveConflict none_rejects 5000 1 "merge" None None
                            conflicted_state))) = None.
Proof.
  assert (Hinv : one_pending_per_entity (conflictLog conflicted_state)).
  { intros ct id. cbn [conflictLog conflicted_state filter].
    destruct (where_pending ct id (1, pending_conflict)); simpl; lia. }
  pose proof (resolveConflict_closes_the_pending_row none_rejects 5000 1 "merge"
                None None conflicted_state (1, pending_conflict) Hinv eq_refl
                eq_refl)
    as (Hnone & _).
  split; [ exact Hinv | ].
  split; [ reflexivity | split; [ reflexivity | exact Hnone ] ].
Defined.

End ConflictResolver.

(* ===================================================================== *)
(** * controllers/conflict.ts: the [resolve] handler *)
(* ===================================================================== *)

Module ConflictController.
Import VersionTracker ConflictResolver.

(** What the handler reads of the request: [parseInt(ctx.params.id)], for a
    route that carries a numeric id; the properties [resolution] and
    [mergedData] of the body, [None] when the body lacks them; and
    [ctx.state.user?.id]. *)
Record Request := {
  id : Z;
  body_resolution : option json;
  body_mergedData : option json;
  userId : option Z
}.

(** [ctx.body = { success: true }], or [ctx.badRequest(message)]. *)
Inductive Response :=
| Success
| BadRequest (message : string).

(** [!x] on a property that may be undefined. *)
Definition not_ (x : option json) : bool :=
  match x with Some v => negb (truthy v) | None => true end.

Definition resolutions : list string := ["keep_local"; "keep_remote"; "merge"].

(** [resolve(ctx)]; [rejects] tells which awaited calls of the service
    reject in this run.  The handler catches whatever the service raises and
    answers 400 with its message. *)
Definition resolve (rejects : Rejections) (now : Z) (ctx : Request) (st : State)
  : Response * State :=
  if not_ (body_resolution ctx) then (BadRequest "resolution is required", st)
  else
    match body_resolution ctx with
    | Some (JStr choice) =>
        if negb (includes resolutions choice) then
          (BadRequest "resolution must be one of: keep_local, keep_remote, merge",
           st)
        else if (choice =? "merge")%string && not_ (body_mergedData ctx) then
          (BadRequest "mergedData is required when resolution is merge", st)
        else
          match resolveConflict rejects now (id ctx) choice (body_mergedData ctx)
                  (userId ctx) st with
          | (inr _, st') => (Success, st')
          | (inl message, st') =>
              (BadRequest (if (message =? "")%string
                           then "Failed to resolve conflict" else message),
               st')
          end
    | _ =>
        (BadRequest "resolution must be one of: keep_local, keep_remote, merge",
         st)
    end.

(** ** What the handler answers *)

Lemma finalDataOf_valid choice merged c :
  In choice resolutions -> finalDataOf choice merged c <> None.
Proof.
  intros Hin Hnone. apply finalDataOf_none in Hnone. apply Hnone.
  unfold valid_resolution. simpl in Hin. intuition.
Qed.

(** X6. The handler answers success exactly when the body names one of the
    three resolutions, carries a non-empty [mergedData] if the resolution is
    [merge], the conflict of the route is in the log and still pending, and
    every call the service awaits resolves.  In every other case it answers
    400; nothing has been written then, unless what rejected is the update
    of the conflict row or [markSynced], which the service calls after it
    has written the entity. *)
Theorem resolve_succeeds_on_valid_pending (rejects : Rejections) (now : Z)
    (ctx : Request) (st : State) :
  (fst (resolve rejects now ctx st) = Success
   <-> exists choice c,
         body_resolution ctx = Some (JStr choice)
         /\ In choice resolutions
         /\ (choice = "merge" -> not_ (body_mergedData ctx) = false)
         /\ Db.findOne (Db.by_id (id ctx)) (conflictLog st) = Some c
         /\ status (snd c) = StatusPending
         /\ all_resolve rejects choice (snd c) st)
  /\ (forall message,
        fst (resolve rejects now ctx st) = BadRequest message ->
        conflictLog_update rejects = None ->
        versionTracker_markSynced rejects = None ->
        snd (resolve rejects now ctx st) = st).
Proof.
  unfold resolve.
  destruct (not_ (body_resolution ctx)) eqn:Hnot.
  { split; [ | reflexivity ]. split; [ discriminate | ].
    intros (choice & c & Hbody & Hin & _). rewrite Hbody in Hnot. simpl in Hnot.
    destruct (String.eqb_spec choice ""); [ subst; simpl in Hin | discriminate ].
    intuition discriminate. }
  destruct (body_resolution ctx) as [ [ | | | choice | | ] | ];
    try (split; [ split; [ discriminate | intros (? & ? & H & _); discriminate H ]
                | reflexivity ]).
  destruct (includes resolutions choice) eqn:Hvalid; cbn [negb].
  2:{ split; [ | reflexivity ]. split; [ discriminate | ].
      intros (choice' & c & [= <-] & Hin & _).
      apply includes_In in Hin. congruence. }
  apply includes_In in Hvalid.
  destruct ((choice =? "merge")%string && not_ (body_mergedData ctx)) eqn:Hmerge.
  { split; [ | reflexivity ]. split; [ discriminate | ].
    intros (choice' & c & [= <-] & _ & Hdata & _).
    apply andb_true_iff in Hmerge as [Hc Hm]. apply String.eqb_eq in Hc.
    rewrite (Hdata Hc) in Hm. discriminate. }
  destruct (resolveConflict rejects now (id ctx) choice (body_mergedData ctx)
              (userId ctx) st) as [ [message | []] st' ] eqn:Hcall; cbn [fst snd].
  - split.
    + split; [ discriminate | ].
      intros (choice' & c & [= <-] & _ & _ & Hfind & Hstatus & Hall).
      destruct (finalDataOf choice (body_mergedData ctx) (snd c)) as [d | ] eqn:Hd;
        [ | now apply finalDataOf_valid in Hd ].
      assert (Hp : is_pending (snd c) = true)
        by (unfold is_pending; now rewrite Hstatus).
      pose proof (resolveConflict_returns rejects now (id ctx) choice
                    (body_mergedData ctx) (userId ctx) st c d Hfind Hp Hd Hall)
        as Hok.
      rewrite Hcall in Hok. discriminate Hok.
    + intros _ _ Hupdate Hmark.
      pose proof (resolveConflict_failure rejects now (id ctx) choice
                    (body_mergedData ctx) (userId ctx) st message) as Hsame.
      rewrite Hcall in Hsame. now apply Hsame.
  - split; [ | discriminate ].
    split; [ intros _ | reflexivity ].
    destruct (resolveConflict_success rejects now (id ctx) choice
                (body_mergedData ctx) (userId ctx) st)
      as (c & d & Hfind & Hp & _ & Hall & _);
      [ now rewrite Hcall | ].
    exists choice, c. repeat split; try assumption; try apply Hall.
    + intros ->. apply andb_false_iff in Hmerge as [H | H];
        [ discriminate H | exact H ].
    + unfold is_pending in Hp. now destruct (status (snd c)).
Qed.

(** X7. A merge that goes through the handler always writes the [mergedData] of
    the request: the handler refuses a merge without it, so the automatic
    merge of the service is never reached from the route. *)
Theorem resolve_merge_writes_the_supplied_data (rejects : Rejections) (now : Z)
    (ctx : Request) (st : State) :
  body_resolution ctx = Some (JStr "merge") ->
  fst (resolve rejects now ctx st) = Success ->
  exists supplied row,
    body_mergedData ctx = Some supplied
    /\ Db.findOne (Db.by_id (id ctx))
         (conflictLog (snd (resolve rejects now ctx st)))
       = Some row
    /\ status (snd row) = StatusResolved
    /\ mergedData (snd row) = Some supplied.
Proof.
  intros Hbody. unfold resolve. rewrite Hbody. cbn [not_ truthy].
  change (includes resolutions "merge") with true.
  change (("merge" =? "")%string) with false.
  change (("merge" =? "merge")%string) with true. cbn [negb andb].
  destruct (body_mergedData ctx) as [supplied | ] eqn:Hdata; cbn [not_];
    [ | discriminate ].
  destruct (truthy supplied) eqn:Htruthy; cbn [negb]; [ | discriminate ].
  destruct (resolveConflict rejects now (id ctx) "merge" (Some supplied)
              (userId ctx) st)
    as [ [message | []] st' ] eqn:Hcall; cbn [fst snd]; [ discriminate | ].
  intros _.
  destruct (resolveConflict_success rejects now (id ctx) "merge" (Some supplied)
              (userId ctx) st) as (c & d & Hfind & Hp & Hd & _ & Hlog);
    [ now rewrite Hcall | ].
  rewrite Hcall in Hlog. cbn [snd] in Hlog.
  unfold finalDataOf in Hd. cbn in Hd. rewrite Htruthy in Hd.
  injection Hd as <-.
  exists supplied. eexists. split; [ reflexivity | ].
  split; [ | split ]; cycle 1.
  3:{ rewrite Hlog. apply Db.findOne_update; [ exact Hfind | ].
      apply Db.findOne_some in Hfind as [_ Hid]. exact Hid. }
  all: reflexivity.
Qed.

Definition merge_request : Request :=
  {| id := 1;
     body_resolution := Some (JStr "merge");
     body_mergedData := Some (JObj [("title", JStr "A and B")]);
     userId := Some 42 |}.

Lemma resolve_merge_writes_the_supplied_data_witness :
  body_resolution merge_request = Some (JStr "merge")
  /\ fst (resolve none_rejects 5000 merge_request conflicted_state) = Success
  /\ exists supplied row,
       body_mergedData merge_request = Some supplied
       /\ Db.findOne (Db.by_id 1)
            (conflictLog (snd (resolve none_rejects 5000 merge_request
                                 conflicted_state)))
          = Some row
       /\ status (snd row) = StatusResolved
       /\ mergedData (snd row) = Some supplied.
Proof.
  split; [ reflexivity | split; [ reflexivity | ] ].
  exact (resolve_merge_writes_the_supplied_data none_rejects 5000 merge_request
           conflicted_state eq_refl eq_refl).
Defined.

End ConflictController.

(* ===================================================================== *)
(** * The sync service: [applyChange] *)
(* ===================================================================== *)

Module SyncService.
Import VersionTracker ConflictResolver.

Inductive Source := Local | Remote.

Record Change := {
  contentType : string;
  entityId : Z;
  data : json;
  operation : string;
  version : json
}.

(** [source === 'local' ? 'local' : 'remote'] *)
Definition locationOf (source : Source) : string :=
  match source with Local => "local" | Remote => "remote" end.

(** [{ ...localEntity, syncVersion: localMetadata.syncVersion }] *)
Definition localSide (localEntity : list (string * json)) (m : SyncMetadata) : json :=
  JObj (set_field "syncVersion" (JNum (syncVersion m)) localEntity).

(** [{ ...data, syncVersion: version }] *)
Definition remoteSide (change : Change) : json :=
  JObj (set_field "syncVersion" (version change) (spread (data change))).

(** The conflict check runs for a remote change when both the entity and
    its metadata exist. *)
Definition conflictOf (change : Change) (source : Source)
    (localEntity : option (list (string * json)))
    (localMetadata : option (Z * SyncMetadata)) : option ConflictReport :=
  match localEntity, localMetadata, source with
  | Some entity, Some metadata, Remote =>
      let report := detectConflict (localSide entity (snd metadata))
                                   (remoteSide change) in
      if hasConflict report then Some report else None
  | _, _, _ => None
  end.

(** The [switch (operation)]. *)
Definition dispatch (change : Change) (source : Source)
    (localEntity : option (list (string * json))) (st : State) : State :=
  let ct := contentType change in
  let id := entityId change in
  if (operation change =? "create")%string then
    match localEntity with
    | None =>
        let (created, store) := Cms.create ct (data change) (entities st) in
        let st1 := with_entities store st in
        with_syncMetadata
          (snd (incrementVersion ct (if id =? 0 then fst created else id)
                  (locationOf source) (syncMetadata st1))) st1
    | Some _ => st
    end
  else if (operation change =? "update")%string then
    match localEntity with
    | Some _ =>
        let st1 := with_entities (Cms.update ct id (data change) (entities st)) st in
        with_syncMetadata
          (snd (incrementVersion ct id (locationOf source) (syncMetadata st1))) st1
    | None =>
        warn ("Entity " +++ ct +++ ":" +++ string_of_Z id
              +++ " not found for update, skipping") st
    end
  else if (operation change =? "delete")%string then
    match localEntity with
    | Some _ =>
        let st1 := with_entities (Cms.delete ct id (entities st)) st in
        with_syncMetadata (Db.delete (where_entity ct id) (syncMetadata st1)) st1
    | None => st
    end
  else st.

(** [strapi.contentType(contentType)] is not empty. *)
Definition knownContentType (ct : string) (st : State) : bool :=
  match Cms.contentType ct (entities st) with Some _ => true | None => false end.

(** [applyChange(change, source)]: the result tells whether a conflict was
    detected. *)
Definition applyChange (now : Z) (change : Change) (source : Source) (st : State)
  : bool * State :=
  let ct := contentType change in
  let id := entityId change in
  if negb (knownContentType ct st) then
    (false, warn ("Content type " +++ ct +++ " not found, skipping change") st)
  else
    let localEntity := Cms.findOne ct id (entities st) in
    let localMetadata := getMetadata ct id (syncMetadata st) in
    match conflictOf change source localEntity localMetadata with
    | Some conflict =>
        let st1 :=
          with_conflictLog
            (flagConflict ct id
               (JObj (match localEntity with Some e => e | None => [] end))
               (data change)
               (match conflictingFields conflict with Some f => f | None => [] end)
               (conflictType conflict)
               (conflictLog st)) st in
        (true,
         with_syncMetadata
           (Db.update (where_entity ct id)
              (fun m => {| VersionTracker.contentType := VersionTracker.contentType m;
                           VersionTracker.entityId := VersionTracker.entityId m;
                           syncVersion := syncVersion m;
                           modifiedByLocation := modifiedByLocation m;
                           lastSyncedAt := lastSyncedAt m;
                           syncStatus := Conflict;
                           conflictFlag := true |})
              (syncMetadata st1)) st1)
    | None =>
        let st1 := dispatch change source localEntity st in
        (false, with_syncMetadata (markSynced now ct id (syncMetadata st1)) st1)
    end.

(** ** A detected conflict is logged, not applied *)

Definition article : list (string * json) :=
  [("id", JNum 7); ("title", JStr "A"); ("body", JStr "text")].

Definition articles : Cms.store := [ (article_uid, [ (7, article) ]) ].

Definition metadata_v2 (s : SyncStatus) : SyncMetadata :=
  {| VersionTracker.contentType := article_uid;
     VersionTracker.entityId := 7;
     syncVersion := 2;
     modifiedByLocation := "local";
     lastSyncedAt := None;
     syncStatus := s;
     conflictFlag := false |}.

Definition edited_locally : State :=
  {| entities := articles;
     syncMetadata := [(1, metadata_v2 Pending)];
     conflictLog := [];
     warnings := [] |}.

Definition remote_update : Change :=
  {| contentType := article_uid;
     entityId := 7;
     data := JObj [("title", JStr "B"); ("body", JStr "text")];
     operation := "update";
     version := JNum 3 |}.

Example remote_update_conflicts :
  applyChange 9000 remote_update Remote edited_locally
  = (true,
     {| entities := articles;
        syncMetadata :=
          [ (1, {| VersionTracker.contentType := article_uid;
                   VersionTracker.entityId := 7;
                   syncVersion := 2;
                   modifiedByLocation := "local";
                   lastSyncedAt := None;
                   syncStatus := Conflict;
                   conflictFlag := true |}) ];
        conflictLog :=
          [ (1, {| c_contentType := article_uid;
                   c_entityId := 7;
                   localData := JObj article;
                   remoteData := JObj [("title", JStr "B"); ("body", JStr "text")];
                   c_conflictingFields := ["title"];
                   c_conflictType := Direct;
                   status := StatusPending;
                   resolution := None;
                   mergedData := None;
                   resolvedAt := None;
                   resolvedBy := None |}) ];
        warnings := [] |}).
Proof. reflexivity. Qed.

(** C2. A remote change for an entity that exists locally with sync
    metadata, and for which [detectConflict] reports a conflict, is not
    applied: [applyChange] answers that a conflict was detected, the entities
    of the CMS are exactly as before, the conflict log has a pending row for
    the entity that holds the local entity, the remote data and the
    conflicting fields, still with at most one pending row per entity, and the
    sync metadata of the entity reads [syncStatus = conflict] and
    [conflictFlag = true].  The conflict log has unique ids and at most one
    pending row per entity when the change arrives. *)
Theorem remote_conflict_is_logged_not_applied (now : Z) (change : Change)
    (st : State) (localEntity : list (string * json)) (metadata : Z * SyncMetadata) :
  let ct := contentType change in
  let id := entityId change in
  let report := detectConflict (localSide localEntity (snd metadata))
                               (remoteSide change) in
  Cms.findOne ct id (entities st) = Some localEntity ->
  getMetadata ct id (syncMetadata st) = Some metadata ->
  hasConflict report = true ->
  Db.unique_ids (conflictLog st) ->
  one_pending_per_entity (conflictLog st) ->
  let out := applyChange now change Remote st in
  fst out = true
  /\ entities (snd out) = entities st
  /\ one_pending_per_entity (conflictLog (snd out))
  /\ (exists row,
        Db.findOne (where_pending ct id) (conflictLog (snd out)) = Some row
        /\ localData (snd row) = JObj localEntity
        /\ remoteData (snd row) = data change
        /\ Some (c_conflictingFields (snd row)) = conflictingFields report)
  /\ (exists m,
        getMetadata ct id (syncMetadata (snd out)) = Some (fst metadata, m)
        /\ syncStatus m = Conflict
        /\ conflictFlag m = true
        /\ syncVersion m = syncVersion (snd metadata)).
Proof.
  intros ct id report Hentity Hmeta Hconflict Hids Hinv out.
  assert (Hknown : knownContentType ct st = true).
  { unfold knownContentType. unfold Cms.findOne in Hentity.
    now destruct (Cms.contentType ct (entities st)). }
  subst out. unfold applyChange. fold ct id.
  rewrite Hknown. cbn [negb]. rewrite Hentity, Hmeta.
  unfold conflictOf. fold report. rewrite Hconflict.
  cbn [fst snd entities with_syncMetadata with_conflictLog conflictLog syncMetadata].
  repeat split.
  - now apply flagConflict_one_pending.
  - destruct (flagConflict_logged ct id (JObj localEntity) (data change)
                (match conflictingFields report with Some f => f | None => [] end)
                (conflictType report) (conflictLog st) Hids)
      as (row & Hrow & Hl & Hr & Hf & _).
    exists row. repeat split; try assumption.
    rewrite Hf.
    assert (Hsome : conflictingFields report <> None).
    { subst report. revert Hconflict. unfold detectConflict.
      repeat match goal with
             | |- context [if ?c then _ else _] => destruct c
             end; simpl; congruence. }
    destruct (conflictingFields report); congruence.
  - unfold getMetadata in *. eexists. split.
    + apply (Db.findOne_update _ _ _ metadata Hmeta).
      apply Db.findOne_some in Hmeta as [_ Hsat]. exact Hsat.
    + repeat split.
Qed.

Lemma remote_conflict_is_logged_not_applied_witness :
  Cms.findOne article_uid 7 (entities edited_locally) = Some article
  /\ getMetadata article_uid 7 (syncMetadata edited_locally)
     = Some (1, metadata_v2 Pending)
  /\ hasConflict (detectConflict (localSide article (metadata_v2 Pending))
                                 (remoteSide remote_update)) = true
  /\ fst (applyChange 9000 remote_update Remote edited_locally) = true
  /\ entities (snd (applyChange 9000 remote_update Remote edited_locally))
     = entities edited_locally.
Proof.
  assert (Hids : Db.unique_ids (conflictLog edited_locally)) by constructor.
  assert (Hinv : one_pending_per_entity (conflictLog edited_locally))
    by (intros ct id; simpl; lia).
  pose proof (remote_conflict_is_logged_not_applied 9000 remote_update
                edited_locally article (1, metadata_v2 Pending)
                eq_refl eq_refl eq_refl Hids Hinv) as H.
  refine (conj eq_refl (conj eq_refl (conj eq_refl
            (conj (proj1 H) (proj1 (proj2 H)))))).
Defined.

(** ** An update whose target is absent *)

(** Two local edits of article 7 leave this metadata row. *)
Example metadata_after_two_local_edits :
  snd (incrementVersion article_uid 7 "local"
         (snd (incrementVersion article_uid 7 "local" [])))
  = [(1, metadata_v2 Pending)].
Proof. reflexivity. Qed.

(** The entity was then removed from the CMS while its metadata row stayed
    behind, still pending. *)
Definition entity_gone : State :=
  {| entities := [ (article_uid, []) ];
     syncMetadata := [(1, metadata_v2 Pending)];
     conflictLog := [];
     warnings := [] |}.

(** What [applyChange] does with a remote update for an entity the CMS does
    not have: it warns, writes nothing to the CMS, and goes on to
    [markSynced]. *)
Lemma absent_update_is_dropped (now : Z) (change : Change) (source : Source)
    (st : State) :
  knownContentType (contentType change) st = true ->
  operation change = "update" ->
  Cms.findOne (contentType change) (entityId change) (entities st) = None ->
  applyChange now change source st
  = (false,
     {| entities := entities st;
        syncMetadata :=
          markSynced now (contentType change) (entityId change) (syncMetadata st);
        conflictLog := conflictLog st;
        warnings :=
          warnings st
          ++ [ "Entity " +++ contentType change +++ ":"
               +++ string_of_Z (entityId change)
               +++ " not found for update, skipping" ] |}).
Proof.
  intros Hknown Hop Hentity. unfold applyChange. cbv zeta.
  rewrite Hknown, Hentity. cbn [negb conflictOf].
  unfold dispatch. cbv zeta. rewrite Hop. reflexivity.
Qed.

(** C5 at a failing input. The remote update of article 7 finds no entity:
    the change is dropped with a warning and the CMS is untouched, yet the
    metadata row of the entity, pending before, is now marked [synced] with
    [lastSyncedAt] set. *)
Theorem dropped_update_is_marked_synced :
  applyChange 9000 remote_update Remote entity_gone
  = (false,
     {| entities := [ (article_uid, []) ];
        syncMetadata :=
          [ (1, {| VersionTracker.contentType := article_uid;
                   VersionTracker.entityId := 7;
                   syncVersion := 2;
                   modifiedByLocation := "local";
                   lastSyncedAt := Some 9000;
                   syncStatus := Synced;
                   conflictFlag := false |}) ];
        conflictLog := [];
        warnings :=
          ["Entity api::article.article:7 not found for update, skipping"] |}).
Proof. reflexivity. Qed.

(** ** A change made locally never conflicts *)

Lemma dispatch_conflictLog change source localEntity st :
  conflictLog (dispatch change source localEntity st) = conflictLog st.
Proof.
  unfold dispatch.
  destruct (operation change =? "create")%string.
  { destruct localEntity; [ reflexivity | ].
    now destruct (Cms.create _ _ _). }
  destruct (operation change =? "update")%string.
  { now destruct localEntity. }
  destruct (operation change =? "delete")%string; [ | reflexivity ].
  now destruct localEntity.
Qed.

(** X8. The conflict check runs for remote changes only: a change applied with
    source ['local'] is never reported as a conflict.  And whatever the
    source, a change that is not reported as a conflict leaves the conflict
    log as it was. *)
Theorem only_remote_changes_conflict (now : Z) (change : Change)
    (source : Source) (st : State) :
  let out := applyChange now change source st in
  (source = Local -> fst out = false)
  /\ (fst out = false -> conflictLog (snd out) = conflictLog st).
Proof.
  cbv zeta. unfold applyChange.
  destruct (negb (knownContentType (contentType change) st));
    [ split; reflexivity | ].
  destruct (conflictOf change source _ _) as [report | ] eqn:Hconflict;
    cbn [fst snd].
  - split; [ | discriminate ].
    intros ->. unfold conflictOf in Hconflict.
    destruct (Cms.findOne _ _ _); [ | discriminate ].
    destruct (getMetadata _ _ _); discriminate.
  - split; [ reflexivity | ]. intros _. cbn. apply dispatch_conflictLog.
Qed.

(** ** The tables keep their shape *)

(** The sync metadata has a key, one row per entity and a sync time on
    every synced row; the conflict log has a key and one pending row per
    entity. *)
Definition consistent (st : State) : Prop :=
  wellformed (syncMetadata st)
  /\ Db.unique_ids (conflictLog st)
  /\ ConflictResolver.one_pending_per_entity (conflictLog st).

Lemma dispatch_wellformed change source localEntity st :
  wellformed (syncMetadata st) ->
  wellformed (syncMetadata (dispatch change source localEntity st)).
Proof.
  intros Hwf. unfold dispatch.
  destruct (operation change =? "create")%string.
  { destruct localEntity; [ exact Hwf | ].
    destruct (Cms.create _ _ _) as [created store]. cbn.
    now apply incrementVersion_wellformed. }
  destruct (operation change =? "update")%string.
  { destruct localEntity; [ | exact Hwf ]. cbn.
    now apply incrementVersion_wellformed. }
  destruct (operation change =? "delete")%string; [ | exact Hwf ].
  destruct localEntity; [ | exact Hwf ]. cbn.
  now apply delete_wellformed.
Qed.

(** X9. [applyChange] and [resolveConflict] keep the tables in shape: after the
    call the sync metadata still has unique ids, at most one row per entity
    and a [lastSyncedAt] on every row whose status is ['synced'], and the
    conflict log still has unique ids and at most one pending row per
    entity. *)
Theorem sync_tables_stay_consistent (now : Z) (st : State) :
  consistent st ->
  (forall change source, consistent (snd (applyChange now change source st)))
  /\ (forall rejects conflictId choice merged by_,
        consistent
          (snd (resolveConflict rejects now conflictId choice merged by_ st))).
Proof.
  intros (Hwf & Hids & Hone). split.
  - intros change source. unfold applyChange.
    destruct (negb (knownContentType (contentType change) st));
      [ repeat split; try apply Hwf; assumption | ].
    destruct (conflictOf change source _ _) as [report | ]; cbn [snd].
    + split; [ | split ]; cbn.
      * destruct Hwf as (Hmids & Hmone & Hts). split; [ | split ].
        -- now apply Db.unique_ids_update.
        -- intros ct id. rewrite Db.filter_update_length; [ apply Hmone | ].
           intros row. reflexivity.
        -- intros row Hin.
           apply Db.in_update in Hin as [Hin | (r & _ & _ & ->)];
             [ now apply Hts | cbn; discriminate ].
      * now apply flagConflict_unique_ids.
      * now apply flagConflict_one_pending.
    + split; [ | split ]; cbn.
      * apply markSynced_wellformed. now apply dispatch_wellformed.
      * now rewrite dispatch_conflictLog.
      * now rewrite dispatch_conflictLog.
  - intros rejects conflictId choice merged by_.
    destruct (resolveConflict_tables rejects now conflictId choice merged by_ st)
      as [Hlog Hmeta].
    split; [ | split ].
    + destruct Hmeta as [-> | (ct & id & ->)];
        [ exact Hwf | now apply markSynced_wellformed ].
    + destruct Hlog as [-> | (finalData & ->)];
        [ exact Hids | now apply Db.unique_ids_update ].
    + destruct Hlog as [-> | (finalData & ->)]; [ exact Hone | ].
      intros ct id. etransitivity; [ | apply (Hone ct id) ].
      apply Db.filter_update_le. intros row.
      unfold where_pending, ConflictResolver.is_pending. cbn.
      now rewrite andb_false_r.
Qed.

Lemma edited_locally_consistent : consistent edited_locally.
Proof.
  split; [ split; [ | split ] | split ].
  - repeat constructor; simpl; intuition discriminate.
  - intros ct id. cbn [syncMetadata edited_locally filter].
    destruct (where_entity ct id _); simpl; lia.
  - intros row [<- | []]. discriminate.
  - constructor.
  - intros ct id. simpl. lia.
Qed.

Lemma sync_tables_stay_consistent_witness :
  consistent edited_locally
  /\ consistent (snd (applyChange 9000 remote_update Remote edited_locally)).
Proof.
  split; [ exact edited_locally_consistent | ].
  exact (proj1 (sync_tables_stay_consistent 9000 edited_locally
                  edited_locally_consistent) remote_update Remote).
Defined.

(** ** A remote change without data *)

(** X10. A remote change that carries no data, as the delete changes the pull
    endpoint of the master builds, met by an entity that exists locally with
    metadata of another version, is flagged as a conflict as soon as the
    local entity has one field that takes part in the comparison: every such
    field counts as present on the local side only.  The change is not
    applied, whatever its operation. *)
Theorem remote_change_without_data_conflicts (now : Z) (change : Change)
    (st : State) (localEntity : list (string * json))
    (metadata : Z * SyncMetadata) (v : Z) (k : string) :
  Cms.findOne (contentType change) (entityId change) (entities st)
  = Some localEntity ->
  getMetadata (contentType change) (entityId change) (syncMetadata st)
  = Some metadata ->
  data change = JNull ->
  version change = JNum v ->
  v <> syncVersion (snd metadata) ->
  get (JObj localEntity) "data" = None ->
  get (JObj localEntity) k <> None ->
  includes excludeFields k = false ->
  Db.unique_ids (conflictLog st) ->
  let out := applyChange now change Remote st in
  fst out = true
  /\ entities (snd out) = entities st
  /\ exists row,
       Db.findOne (where_pending (contentType change) (entityId change))
         (conflictLog (snd out)) = Some row
       /\ In k (c_conflictingFields (snd row)).
Proof.
  intros Hentity Hmeta Hdata Hversion Hv Hnodata Hk Hcompared Hids.
  set (L := localSide localEntity (snd metadata)).
  set (R := remoteSide change).
  assert (HR : R = JObj [("syncVersion", JNum v)]).
  { unfold R, remoteSide. now rewrite Hdata, Hversion. }
  assert (HgetL : forall key, key <> "syncVersion" ->
                              get L key = get (JObj localEntity) key).
  { intros key Hkey. unfold L, localSide, get. cbn [entries].
    rewrite assoc_set_field. apply String.eqb_neq in Hkey. now rewrite Hkey. }
  assert (Hksv : k <> "syncVersion").
  { intros ->. discriminate Hcompared. }
  assert (HdataL : dataOf L = L).
  { unfold dataOf. rewrite HgetL by discriminate. now rewrite Hnodata. }
  assert (HdataR : dataOf R = R) by (rewrite HR; reflexivity).
  assert (Hversions : versionsEqual L R = false).
  { unfold versionsEqual, versionOf. rewrite HR.
    replace (get L "syncVersion") with (Some (JNum (syncVersion (snd metadata)))).
    2:{ unfold L, localSide, get. cbn [entries]. rewrite assoc_set_field.
        reflexivity. }
    change (get (JObj [("syncVersion", JNum v)]) "syncVersion")
      with (Some (JNum v)).
    unfold or_else, truthy.
    destruct (Z.eqb_spec (syncVersion (snd metadata)) 0) as [H0 | H0],
             (Z.eqb_spec v 0) as [Hv0 | Hv0]; cbn [negb strict_eq];
      apply Z.eqb_neq; congruence. }
  assert (Hin : In k (conflictingOf (dataOf L) (dataOf R))).
  { apply conflictingOf_In. rewrite HdataL, HdataR. split.
    - split; [ exact Hcompared | left ]. apply keys_get.
      now rewrite HgetL.
    - unfold differs. rewrite HgetL by exact Hksv. rewrite HR.
      replace (get (JObj [("syncVersion", JNum v)]) k) with (@None json).
      + destruct (get (JObj localEntity) k); [ discriminate | contradiction ].
      + unfold get. cbn [entries assoc]. apply String.eqb_neq in Hksv.
        now rewrite Hksv. }
  assert (Hreport : detectConflict L R
                    = {| hasConflict := true;
                         conflictingFields :=
                           Some (conflictingOf (dataOf L) (dataOf R));
                         conflictType := Some Direct |}).
  { rewrite detectConflict_differing; [ | reflexivity | now rewrite HR | exact Hversions ].
    destruct (conflictingOf (dataOf L) (dataOf R)); [ destruct Hin | reflexivity ]. }
  assert (Hknown : knownContentType (contentType change) st = true).
  { unfold knownContentType. unfold Cms.findOne in Hentity.
    now destruct (Cms.contentType (contentType change) (entities st)). }
  cbv zeta. unfold applyChange. rewrite Hknown, Hentity, Hmeta.
  cbn [negb conflictOf]. fold L R. rewrite Hreport.
  cbn [hasConflict fst snd conflictingFields conflictType].
  split; [ reflexivity | split; [ reflexivity | ] ].
  cbn [conflictLog with_syncMetadata with_conflictLog].
  match goal with |- context [flagConflict ?ct ?id ?l ?r ?f ?kd ?t] =>
    destruct (flagConflict_logged ct id l r f kd t Hids)
      as (row & Hrow & _ & _ & Hfields & _)
  end.
  exists row. split; [ exact Hrow | ]. rewrite Hfields. exact Hin.
Qed.

Definition remote_delete : Change :=
  {| contentType := article_uid;
     entityId := 7;
     data := JNull;
     operation := "delete";
     version := JNum 3 |}.

Lemma remote_change_without_data_conflicts_witness :
  Cms.findOne article_uid 7 (entities edited_locally) = Some article
  /\ getMetadata article_uid 7 (syncMetadata edited_locally)
     = Some (1, metadata_v2 Pending)
  /\ fst (applyChange 9000 remote_delete Remote edited_locally) = true
  /\ entities (snd (applyChange 9000 remote_delete Remote edited_locally))
     = articles.
Proof.
  split; [ reflexivity | split; [ reflexivity | ] ].
  assert (Hv : 3 <> syncVersion (snd (1, metadata_v2 Pending)))
    by (cbn; lia).
  assert (Hk : get (JObj article) "title" <> None) by discriminate.
  pose proof (remote_change_without_data_conflicts 9000 remote_delete
                edited_locally article (1, metadata_v2 Pending) 3 "title"
                eq_refl eq_refl eq_refl eq_refl Hv eq_refl Hk eq_refl
                (NoDup_nil Z))
    as (Hflag & Hsame & _).
  split; [ exact Hflag | exact Hsame ].
Defined.

End SyncService.

(* ===================================================================== *)
(** * services/queue-manager.ts *)
(* ===================================================================== *)

Module QueueManager.
Import Config.

Inductive QueueStatus := Pending | Synced | Failed.

(** A row of [plugin::offline-sync.sync-queue], with the columns the service
    writes. *)
Record QueueEntry := {
  operation : string;
  contentType : string;
  entityId : Z;
  data : json;
  version : Z;
  status : QueueStatus;
  location : string;
  retryCount : Z;
  errorMessage : option string;
  syncedAt : option Z
}.

Definition table := Db.table QueueEntry.

(** The argument of [enqueue]. *)
Record Operation := {
  op_operation : string;
  op_contentType : string;
  op_entityId : Z;
  op_data : json;
  op_version : Z;
  op_location : string
}.

Definition is_pending (e : QueueEntry) : bool :=
  match status e with Pending => true | _ => false end.

(** [where: { contentType, entityId, status: 'pending' }] *)
Definition where_pending (ct : string) (id : Z) (row : Z * QueueEntry) : bool :=
  (contentType (snd row) =? ct)%string && (entityId (snd row) =? id)
  && is_pending (snd row).

(** The [data] of the update of an existing queue item. *)
Definition overwrite (op : Operation) (e : QueueEntry) : QueueEntry :=
  {| operation := op_operation op;
     contentType := contentType e;
     entityId := entityId e;
     data := op_data op;
     version := op_version op;
     status := status e;
     location := op_location op;
     retryCount := 0;
     errorMessage := errorMessage e;
     syncedAt := syncedAt e |}.

(** The [data] of a new queue item. *)
Definition newEntry (op : Operation) : QueueEntry :=
  {| operation := op_operation op;
     contentType := op_contentType op;
     entityId := op_entityId op;
     data := op_data op;
     version := op_version op;
     status := Pending;
     location := op_location op;
     retryCount := 0;
     errorMessage := None;
     syncedAt := None |}.

(** [enqueue(operation)]: the row written, or [None] for the [null] that is
    returned outside replica mode. *)
Definition enqueue (mode : Mode) (op : Operation) (t : table)
  : option (Z * QueueEntry) * table :=
  if negb (is_replica mode) then (None, t)
  else
    match Db.findOne (where_pending (op_contentType op) (op_entityId op)) t with
    | Some existing =>
        (Some (fst existing, overwrite op (snd existing)),
         Db.update (Db.by_id (fst existing)) (overwrite op) t)
    | None =>
        let (row, t') := Db.create (newEntry op) t in (Some row, t')
    end.

(** [markFailed(operationId, errorMessage)], with [retryAttempts || 3]. *)
Definition markFailed (retryAttempts : Z) (operationId : Z) (message : string)
    (t : table) : table :=
  match Db.findOne (Db.by_id operationId) t with
  | Some op =>
      let retries := Number_add (retryCount (snd op)) 1 in
      let maxRetries := if retryAttempts =? 0 then 3 else retryAttempts in
      Db.update (Db.by_id operationId)
        (fun e => {| operation := operation e;
                     contentType := contentType e;
                     entityId := entityId e;
                     data := data e;
                     version := version e;
                     status := if retries >=? maxRetries then Failed else Pending;
                     location := location e;
                     retryCount := retries;
                     errorMessage := Some message;
                     syncedAt := syncedAt e |}) t
  | None => t
  end.

(** [getPending(limit?)]: the pending rows by [createdAt], at most [limit],
    or [batchSize || 50], of them.  Rows are stored in the order of their
    creation, [create] appending them and no call changing [createdAt], so
    the order of the table is the order by [createdAt]. *)
Definition getPending (limit : option Z) (batchSize : Z) (t : table)
  : list (Z * QueueEntry) :=
  let default := if batchSize =? 0 then 50 else batchSize in
  let limit :=
    match limit with
    | Some l => if l =? 0 then default else l
    | None => default
    end in
  firstn (Z.to_nat limit) (Db.findMany (fun row => is_pending (snd row)) t).

(** [markSynced(operationId)]; [now] is the reading of [new Date()]. *)
Definition markSynced (now : Z) (operationId : Z) (t : table) : table :=
  Db.update (Db.by_id operationId)
    (fun e => {| operation := operation e;
                 contentType := contentType e;
                 entityId := entityId e;
                 data := data e;
                 version := version e;
                 status := Synced;
                 location := location e;
                 retryCount := retryCount e;
                 errorMessage := errorMessage e;
                 syncedAt := Some now |}) t.

(** [getQueueSize()]: the count of the pending rows. *)
Definition getQueueSize (t : table) : Z :=
  Z.of_nat (List.length (Db.findMany (fun row => is_pending (snd row)) t)).

(** [where: { status: 'failed', retryCount: { $lt: retryAttempts || 3 } }] *)
Definition where_retryable (retryAttempts : Z) (row : Z * QueueEntry) : bool :=
  match status (snd row) with Failed => true | _ => false end
  && (retryCount (snd row) <? (if retryAttempts =? 0 then 3 else retryAttempts)).

(** [retryFailed()] *)
Definition retryFailed (retryAttempts : Z) (t : table) : table :=
  let failed := Db.findMany (where_retryable retryAttempts) t in
  fold_left
    (fun q op =>
       Db.update (Db.by_id (fst op))
         (fun e => {| operation := operation e;
                      contentType := contentType e;
                      entityId := entityId e;
                      data := data e;
                      version := version e;
                      status := Pending;
                      location := location e;
                      retryCount := retryCount e;
                      errorMessage := None;
                      syncedAt := syncedAt e |}) q)
    failed t.

(** [where: { status: 'synced', syncedAt: { $lt: cutoffDate } }]; a row
    without [syncedAt] is not selected. *)
Definition where_stale (cutoffDate : Z) (row : Z * QueueEntry) : bool :=
  match status (snd row) with Synced => true | _ => false end
  && match syncedAt (snd row) with
     | Some at_ => at_ <? cutoffDate
     | None => false
     end.

(** [clearSynced(daysOld)]; [cutoffDate] is the date the function computes,
    [daysOld] days before the call.  The [delete] of the query engine removes
    one entry, the first the clause selects. *)
Definition clearSynced (cutoffDate : Z) (t : table) : table :=
  Db.delete (where_stale cutoffDate) t.

(** A run of calls to [enqueue]. *)
Definition enqueueAll (mode : Mode) (ops : list Operation) (t : table) : table :=
  fold_left (fun q op => snd (enqueue mode op q)) ops t.

(** ** One pending row per entity *)

Definition one_pending_per_entity (t : table) : Prop :=
  forall ct id, (List.length (filter (where_pending ct id) t) <= 1)%nat.

Lemma enqueue_unique_ids mode op t :
  Db.unique_ids t -> Db.unique_ids (snd (enqueue mode op t)).
Proof.
  unfold enqueue. destruct (negb (is_replica mode)); [ auto | ].
  destruct (Db.findOne _ t); cbn [snd].
  - apply Db.unique_ids_update.
  - apply Db.unique_ids_create.
Qed.

Lemma enqueue_one_pending mode op t :
  one_pending_per_entity t -> one_pending_per_entity (snd (enqueue mode op t)).
Proof.
  unfold enqueue, one_pending_per_entity.
  destruct (negb (is_replica mode)); [ auto | ].
  intros Hinv ct id.
  destruct (Db.findOne _ t) as [existing | ] eqn:Hfind; cbn [snd].
  - rewrite Db.filter_update_length; [ apply Hinv | ].
    intros row. reflexivity.
  - unfold Db.create. cbn [snd]. rewrite filter_app, length_app. cbn [filter].
    match goal with |- context [where_pending ct id ?row] =>
      destruct (where_pending ct id row) eqn:Hnew end; cbn [List.length].
    + unfold where_pending in Hnew. cbn in Hnew.
      apply andb_true_iff in Hnew as [Hnew _].
      apply andb_true_iff in Hnew as [Hct Hid].
      apply String.eqb_eq in Hct. apply Z.eqb_eq in Hid. subst ct id.
      rewrite (Db.filter_none _ _ Hfind). simpl. lia.
    + specialize (Hinv ct id). lia.
Qed.

Lemma enqueueAll_invariant mode ops t :
  Db.unique_ids t -> one_pending_per_entity t ->
  Db.unique_ids (enqueueAll mode ops t)
  /\ one_pending_per_entity (enqueueAll mode ops t).
Proof.
  unfold enqueueAll. revert t.
  induction ops as [ | op ops IH ]; intros t Hids Hinv; simpl; [ auto | ].
  apply IH; [ now apply enqueue_unique_ids | now apply enqueue_one_pending ].
Qed.

(** ** Sample runs *)

Definition created_article : Operation :=
  {| op_operation := "create"; op_contentType := "api::article.article";
     op_entityId := 7; op_data := JObj [("id", JNum 7); ("title", JStr "draft")];
     op_version := 1; op_location := "ship-1" |}.

Definition updated_article : Operation :=
  {| op_operation := "update"; op_contentType := "api::article.article";
     op_entityId := 7; op_data := JObj [("id", JNum 7); ("title", JStr "final")];
     op_version := 2; op_location := "ship-1" |}.

(** A create, a failed push, then an update of the same article: one pending
    row, carrying the update, its retry count back to zero. *)
Example edits_collapse_into_one_row :
  snd (enqueue Replica updated_article
         (markFailed 3 1 "timeout" (snd (enqueue Replica created_article []))))
  = [ (1, {| operation := "update";
             contentType := "api::article.article";
             entityId := 7;
             data := JObj [("id", JNum 7); ("title", JStr "final")];
             version := 2;
             status := Pending;
             location := "ship-1";
             retryCount := 0;
             errorMessage := Some "timeout";
             syncedAt := None |}) ].
Proof. reflexivity. Qed.

(** An update of the article whose payload is in the given locale. *)
Definition edited_in (locale title : string) (v : Z) : Operation :=
  {| op_operation := "update"; op_contentType := "api::article.article";
     op_entityId := 7;
     op_data := JObj [("id", JNum 7); ("locale", JStr locale); ("title", JStr title)];
     op_version := v; op_location := "ship-1" |}.

(** ** The queue holds the latest operation of an entity *)

Lemma where_pending_true ct id row :
  where_pending ct id row = true
  <-> contentType (snd row) = ct /\ entityId (snd row) = id
      /\ status (snd row) = Pending.
Proof.
  unfold where_pending, is_pending.
  rewrite !andb_true_iff, String.eqb_eq, Z.eqb_eq.
  destruct (status (snd row)); intuition discriminate.
Qed.

Lemma where_pending_other ct id ct' id' row :
  contentType (snd row) = ct -> entityId (snd row) = id ->
  ct' <> ct \/ id' <> id ->
  where_pending ct' id' row = false.
Proof.
  intros Hct Hid Hother. apply not_true_iff_false. intros H.
  apply where_pending_true in H as (Hct' & Hid' & _).
  destruct Hother; congruence.
Qed.

(** The pending rows of the other entities are out of reach of [enqueue]. *)
Lemma enqueue_frame mode op t ct id :
  Db.unique_ids t ->
  ct <> op_contentType op \/ id <> op_entityId op ->
  Db.findOne (where_pending ct id) (snd (enqueue mode op t))
  = Db.findOne (where_pending ct id) t.
Proof.
  intros Hids Hother. unfold enqueue.
  destruct (negb (is_replica mode)); [ reflexivity | ].
  destruct (Db.findOne (where_pending (op_contentType op) (op_entityId op)) t)
    as [existing | ] eqn:Hfind; cbn [snd].
  - apply Db.findOne_some in Hfind as [Hin Hsat].
    apply where_pending_true in Hsat as (Hct & Hid & _).
    apply Db.findOne_update_frame. intros r Hr Hrid.
    unfold Db.by_id in Hrid. apply Z.eqb_eq in Hrid.
    assert (r = existing) by now apply (Db.same_id_same_row t). subst r.
    split; now apply (where_pending_other (op_contentType op) (op_entityId op)).
  - unfold Db.create, Db.findOne. cbn [snd]. rewrite Db.find_app_last.
    destruct (find (where_pending ct id) t); [ reflexivity | ].
    now rewrite (where_pending_other (op_contentType op) (op_entityId op)).
Qed.

(** The pending row [enqueue] leaves for the entity of the operation. *)
Lemma enqueue_found op t :
  Db.unique_ids t ->
  exists row,
    Db.findOne (where_pending (op_contentType op) (op_entityId op))
      (snd (enqueue Replica op t)) = Some row
    /\ operation (snd row) = op_operation op
    /\ data (snd row) = op_data op
    /\ version (snd row) = op_version op
    /\ location (snd row) = op_location op
    /\ retryCount (snd row) = 0.
Proof.
  intros Hids. unfold enqueue. cbn [is_replica negb].
  destruct (Db.findOne (where_pending (op_contentType op) (op_entityId op)) t)
    as [existing | ] eqn:Hfind; cbn [snd].
  - exists (fst existing, overwrite op (snd existing)). split.
    { apply (Db.findOne_update_by_id _ _ _ existing Hids Hfind).
      apply Db.findOne_some in Hfind as [_ Hsat].
      apply where_pending_true in Hsat. now apply where_pending_true. }
    repeat split.
  - exists (Db.nextId t, newEntry op). split.
    { unfold Db.create, Db.findOne. cbn [snd]. rewrite Db.find_app_last.
      unfold Db.findOne in Hfind. rewrite Hfind.
      replace (where_pending _ _ _) with true; [ reflexivity | ].
      symmetry. now apply where_pending_true. }
    repeat split.
Qed.

Lemma enqueueAll_unique_ids mode ops t :
  Db.unique_ids t -> Db.unique_ids (enqueueAll mode ops t).
Proof.
  unfold enqueueAll. revert t.
  induction ops as [ | op ops IH ]; intros t Hids; simpl; [ exact Hids | ].
  apply IH. now apply enqueue_unique_ids.
Qed.

Lemma enqueueAll_frame mode ops t ct id :
  Db.unique_ids t ->
  Forall (fun op => ct <> op_contentType op \/ id <> op_entityId op) ops ->
  Db.findOne (where_pending ct id) (enqueueAll mode ops t)
  = Db.findOne (where_pending ct id) t.
Proof.
  unfold enqueueAll. revert t.
  induction ops as [ | op ops IH ]; intros t Hids Hother; simpl;
    [ reflexivity | ].
  inversion Hother as [ | ? ? Hop Hrest ]; subst.
  rewrite IH; [ | now apply enqueue_unique_ids | exact Hrest ].
  now apply enqueue_frame.
Qed.

(** X11. Whatever was queued before and whatever is queued afterwards for other
    entities, the pending row of an entity holds the operation, data,
    version and location of the last [enqueue] made for it, with a retry
    count of 0: the earlier operations of the entity are overwritten, and
    the operations of other entities do not touch the row. *)
Theorem queue_holds_latest_operation (earlier later : list Operation)
    (op : Operation) (t : table) :
  Db.unique_ids t ->
  Forall (fun op' => op_contentType op <> op_contentType op'
                     \/ op_entityId op <> op_entityId op') later ->
  exists row,
    Db.findOne (where_pending (op_contentType op) (op_entityId op))
      (enqueueAll Replica (earlier ++ op :: later) t) = Some row
    /\ operation (snd row) = op_operation op
    /\ data (snd row) = op_data op
    /\ version (snd row) = op_version op
    /\ location (snd row) = op_location op
    /\ retryCount (snd row) = 0.
Proof.
  intros Hids Hlater.
  assert (Hids1 : Db.unique_ids (enqueueAll Replica earlier t))
    by now apply enqueueAll_unique_ids.
  destruct (enqueue_found op _ Hids1) as (row & Hrow & Hfields).
  exists row. split; [ | exact Hfields ].
  unfold enqueueAll in *. rewrite fold_left_app. cbn [fold_left].
  fold (enqueueAll Replica later
          (snd (enqueue Replica op (fold_left
                  (fun q op0 => snd (enqueue Replica op0 q)) earlier t)))).
  rewrite enqueueAll_frame; [ exact Hrow | | exact Hlater ].
  now apply enqueue_unique_ids.
Qed.

Lemma queue_holds_latest_operation_witness :
  Db.unique_ids (@nil (Z * QueueEntry))
  /\ exists row,
       Db.findOne (where_pending "api::article.article" 7)
         (enqueueAll Replica
            ([created_article] ++ updated_article
               :: [ {| op_operation := "create";
                       op_contentType := "api::page.page"; op_entityId := 7;
                       op_data := JObj []; op_version := 1;
                       op_location := "ship-1" |} ]) []) = Some row
       /\ operation (snd row) = "update"
       /\ data (snd row) = JObj [("id", JNum 7); ("title", JStr "final")]
       /\ version (snd row) = 2
       /\ location (snd row) = "ship-1"
       /\ retryCount (snd row) = 0.
Proof.
  split; [ constructor | ].
  apply (queue_holds_latest_operation [created_article]
           [ {| op_operation := "create";
                op_contentType := "api::page.page"; op_entityId := 7;
                op_data := JObj []; op_version := 1;
                op_location := "ship-1" |} ] updated_article []).
  - constructor.
  - constructor; [ left; discriminate | constructor ].
Defined.

(** ** The size of the queue *)

(** X12. The queue grows by an [enqueue] only when the entity had no pending
    row: [getQueueSize] counts the entities with a pending change, not the
    edits; outside replica mode it never moves. *)
Theorem enqueue_grows_queue_for_new_entities_only (mode : Mode)
    (op : Operation) (t : table) :
  getQueueSize (snd (enqueue mode op t))
  = getQueueSize t
    + match mode,
            Db.findOne (where_pending (op_contentType op) (op_entityId op)) t
      with
      | Replica, None => 1
      | _, _ => 0
      end.
Proof.
  unfold getQueueSize, enqueue, Db.findMany.
  destruct mode; cbn [is_replica negb snd]; [ lia | ].
  destruct (Db.findOne (where_pending (op_contentType op) (op_entityId op)) t)
    as [existing | ]; cbn [snd].
  - rewrite Db.filter_update_length; [ lia | ]. intros row. reflexivity.
  - unfold Db.create. cbn [snd]. rewrite filter_app, length_app. simpl. lia.
Qed.

(** ** Retries *)

Definition maxRetries (retryAttempts : Z) : Z :=
  if retryAttempts =? 0 then 3 else retryAttempts.

Lemma markFailed_found retryAttempts operationId message t row :
  Db.findOne (Db.by_id operationId) t = Some row ->
  Db.findOne (Db.by_id operationId) (markFailed retryAttempts operationId message t)
  = Some (fst row,
          {| operation := operation (snd row);
             contentType := contentType (snd row);
             entityId := entityId (snd row);
             data := data (snd row);
             version := version (snd row);
             status := if Number_add (retryCount (snd row)) 1
                          >=? maxRetries retryAttempts
                       then Failed else Pending;
             location := location (snd row);
             retryCount := Number_add (retryCount (snd row)) 1;
             errorMessage := Some message;
             syncedAt := syncedAt (snd row) |}).
Proof.
  intros Hfind. unfold markFailed. rewrite Hfind. cbv zeta.
  match goal with |- context [Db.update _ ?f _] =>
    pose proof (Db.findOne_update (Db.by_id operationId) f _ row Hfind) as Hup
  end.
  apply Hup. apply Db.findOne_some in Hfind as [_ Hid]. exact Hid.
Qed.

(** X13. After [k] failed attempts on a queue entry, [k] at least 1, its retry
    count has grown by [k] and it carries the last error message; it is
    still pending while the count is below [retryAttempts] (3 when that is
    not configured) and failed from then on.  The count starts non-negative
    and stays within [2^53], the range in which a number counts exactly. *)
Theorem markFailed_exhausts_the_retries (retryAttempts operationId : Z)
    (message : string) (k : nat) (t : table) (row : Z * QueueEntry) :
  Db.findOne (Db.by_id operationId) t = Some row ->
  0 <= retryCount (snd row) ->
  retryCount (snd row) + Z.of_nat (S k) <= 2 ^ 53 ->
  exists row',
    Db.findOne (Db.by_id operationId)
      (Nat.iter (S k) (markFailed retryAttempts operationId message) t)
    = Some row'
    /\ retryCount (snd row') = retryCount (snd row) + Z.of_nat (S k)
    /\ errorMessage (snd row') = Some message
    /\ (status (snd row') = Failed
        <-> maxRetries retryAttempts <= retryCount (snd row) + Z.of_nat (S k))
    /\ (status (snd row') = Pending
        <-> retryCount (snd row) + Z.of_nat (S k) < maxRetries retryAttempts).
Proof.
  intros Hfind Hpos. induction k as [ | k IH ]; intros Hsafe.
  - cbn [Nat.iter nat_rect]. eexists.
    split; [ apply (markFailed_found _ _ _ _ row Hfind) | ].
    cbn [snd retryCount errorMessage status].
    rewrite Number_add_exact by lia.
    split; [ lia | split; [ reflexivity | ] ].
    destruct (Z.geb_spec (retryCount (snd row) + 1) (maxRetries retryAttempts))
      as [Hge | Hlt];
      split; split; intros H; try discriminate H; try reflexivity; lia.
  - destruct IH as (row1 & Hfind1 & Hcount & _); [ lia | ].
    change (Nat.iter (S (S k)) (markFailed retryAttempts operationId message) t)
      with (markFailed retryAttempts operationId message
              (Nat.iter (S k) (markFailed retryAttempts operationId message) t)).
    eexists. split; [ apply (markFailed_found _ _ _ _ row1 Hfind1) | ].
    cbn [snd retryCount errorMessage status]. rewrite Hcount.
    rewrite Number_add_exact by lia.
    split; [ lia | split; [ reflexivity | ] ].
    match goal with |- context [?a >=? ?b] =>
      destruct (Z.geb_spec a b) as [Hge | Hlt] end;
      split; split; intros H; try discriminate H; try reflexivity; lia.
Qed.

Lemma markFailed_exhausts_the_retries_witness :
  Db.findOne (Db.by_id 1) (snd (enqueue Replica created_article []))
  = Some (1, newEntry created_article)
  /\ exists row',
       Db.findOne (Db.by_id 1)
         (Nat.iter 3 (markFailed 0 1 "timeout")
            (snd (enqueue Replica created_article []))) = Some row'
       /\ retryCount (snd row') = 3
       /\ status (snd row') = Failed.
Proof.
  split; [ reflexivity | ].
  destruct (markFailed_exhausts_the_retries 0 1 "timeout" 2
              (snd (enqueue Replica created_article []))
              (1, newEntry created_article) eq_refl)
    as (row' & Hfind & Hcount & _ & Hfailed & _);
    [ vm_compute; discriminate | vm_compute; discriminate | ].
  exists row'. split; [ exact Hfind | split; [ exact Hcount | ] ].
  apply Hfailed. rewrite <- Hcount. rewrite Hcount. cbn. lia.
Defined.

(** ** Failed operations are not retried *)

(** The calls that write the queue. *)
Inductive Call :=
| Enqueue (op : Operation)
| MarkSynced (now operationId : Z)
| MarkFailed (operationId : Z) (message : string)
| RetryFailed
| ClearSynced (cutoffDate : Z).

Definition run (mode : Mode) (retryAttempts : Z) (t : table) (c : Call) : table :=
  match c with
  | Enqueue op => snd (enqueue mode op t)
  | MarkSynced now operationId => markSynced now operationId t
  | MarkFailed operationId message => markFailed retryAttempts operationId message t
  | RetryFailed => retryFailed retryAttempts t
  | ClearSynced cutoffDate => clearSynced cutoffDate t
  end.

(** A failed row has used up its retries. *)
Definition exhausted (retryAttempts : Z) (t : table) : Prop :=
  forall row, In row t -> status (snd row) = Failed ->
              maxRetries retryAttempts <= retryCount (snd row).

Lemma filter_nothing {X} (p : X -> bool) (l : list X) :
  (forall x, In x l -> p x = false) -> filter p l = [].
Proof.
  induction l as [ | x l IH ]; intros H; simpl; [ reflexivity | ].
  rewrite (H x (or_introl eq_refl)). apply IH. intros y Hy. apply H. now right.
Qed.

Lemma retryFailed_exhausted retryAttempts t :
  exhausted retryAttempts t -> retryFailed retryAttempts t = t.
Proof.
  intros Hinv. unfold retryFailed, Db.findMany.
  rewrite filter_nothing; [ reflexivity | ].
  intros row Hin. unfold where_retryable.
  destruct (status (snd row)) eqn:Hstatus; try reflexivity.
  specialize (Hinv row Hin Hstatus). unfold maxRetries in Hinv.
  cbn [andb]. apply Z.ltb_ge. exact Hinv.
Qed.

Lemma run_exhausted mode retryAttempts t c :
  Db.unique_ids t -> exhausted retryAttempts t ->
  Db.unique_ids (run mode retryAttempts t c)
  /\ exhausted retryAttempts (run mode retryAttempts t c).
Proof.
  intros Hids Hinv. destruct c as [op | now id | id message | | cutoff]; cbn [run].
  - split; [ now apply enqueue_unique_ids | ].
    unfold enqueue. destruct (negb (is_replica mode)); [ exact Hinv | ].
    destruct (Db.findOne _ t) as [existing | ] eqn:Hfind; cbn [snd].
    + apply Db.findOne_some in Hfind as [Hin Hsat].
      apply where_pending_true in Hsat as (_ & _ & Hpending).
      intros row Hrow.
      apply Db.in_update in Hrow as [Hrow | (r & Hr & Hrid & ->)];
        [ now apply Hinv | ].
      unfold Db.by_id in Hrid. apply Z.eqb_eq in Hrid.
      assert (r = existing) by now apply (Db.same_id_same_row t). subst r.
      cbn. rewrite Hpending. discriminate.
    + intros row Hrow. unfold Db.create in Hrow. cbn [snd] in Hrow.
      apply in_app_iff in Hrow as [Hrow | [<- | []]]; [ now apply Hinv | ].
      cbn. discriminate.
  - split; [ now apply Db.unique_ids_update | ].
    intros row Hrow. unfold markSynced in Hrow.
    apply Db.in_update in Hrow as [Hrow | (r & _ & _ & ->)];
      [ now apply Hinv | cbn; discriminate ].
  - unfold markFailed.
    destruct (Db.findOne (Db.by_id id) t) as [found | ]; [ | auto ].
    split; [ now apply Db.unique_ids_update | ].
    intros row Hrow.
    apply Db.in_update in Hrow as [Hrow | (r & _ & _ & ->)];
      [ now apply Hinv | ].
    cbn. fold (maxRetries retryAttempts).
    destruct (Z.geb_spec (Number_add (retryCount (snd found)) 1)
                (maxRetries retryAttempts))
      as [Hge | Hlt]; [ intros _; lia | discriminate ].
  - now rewrite retryFailed_exhausted.
  - split; [ now apply Db.unique_ids_delete | ].
    intros row Hrow. apply Db.in_delete in Hrow. now apply Hinv.
Qed.

Lemma runs_exhausted mode retryAttempts calls t :
  Db.unique_ids t -> exhausted retryAttempts t ->
  Db.unique_ids (fold_left (run mode retryAttempts) calls t)
  /\ exhausted retryAttempts (fold_left (run mode retryAttempts) calls t).
Proof.
  revert t. induction calls as [ | c calls IH ]; intros t Hids Hinv; simpl;
    [ auto | ].
  destruct (run_exhausted mode retryAttempts t c Hids Hinv) as [Hids' Hinv'].
  now apply IH.
Qed.

(** X14. Whatever calls of the queue manager built the queue from the empty
    table, under one configuration of [retryAttempts], a row is failed only
    with a retry count that has reached the maximum; and [retryFailed], which
    selects the failed rows whose count is below that maximum, selects none
    and leaves the queue exactly as it is. *)
Theorem retryFailed_revives_nothing (mode : Mode) (retryAttempts : Z)
    (calls : list Call) :
  let q := fold_left (run mode retryAttempts) calls [] in
  (forall row, In row q -> status (snd row) = Failed ->
               maxRetries retryAttempts <= retryCount (snd row))
  /\ retryFailed retryAttempts q = q.
Proof.
  intros q.
  assert (Hq : Db.unique_ids q /\ exhausted retryAttempts q).
  { apply runs_exhausted; [ constructor | intros row [] ]. }
  destruct Hq as [_ Hinv]. split; [ exact Hinv | ].
  now apply retryFailed_exhausted.
Qed.

(** ** Clearing the synced rows *)

Lemma in_delete_other (where_ : Z * QueueEntry -> bool) t row :
  In row t -> where_ row = false -> In row (Db.delete where_ t).
Proof.
  induction t as [ | r t IH ]; simpl; [ tauto | ].
  intros [<- | Hin] Hrow.
  - rewrite Hrow. now left.
  - destruct (where_ r); [ exact Hin | right; now apply IH ].
Qed.

(** X15. [clearSynced] removes at most one row per call, and only a row that is
    synced with a [syncedAt] before the cutoff: the pending rows, the failed
    rows and the rows synced since the cutoff are all still there. *)
Theorem clearSynced_spares_what_is_not_stale (cutoffDate : Z) (t : table) :
  (List.length t <= S (List.length (clearSynced cutoffDate t)))%nat
  /\ (forall row, In row (clearSynced cutoffDate t) -> In row t)
  /\ (forall row, In row t ->
        status (snd row) <> Synced
        \/ syncedAt (snd row) = None
        \/ (exists at_, syncedAt (snd row) = Some at_ /\ cutoffDate <= at_) ->
        In row (clearSynced cutoffDate t)).
Proof.
  unfold clearSynced. split; [ apply Db.length_delete | split ].
  - intros row. apply Db.in_delete.
  - intros row Hin Hkeep. apply in_delete_other; [ exact Hin | ].
    unfold where_stale.
    destruct Hkeep as [Hstatus | [Hnone | (at_ & Hat & Hle)]].
    + now destruct (status (snd row)).
    + rewrite Hnone. apply andb_false_r.
    + rewrite Hat. replace (at_ <? cutoffDate) with false; [ apply andb_false_r | ].
      symmetry. now apply Z.ltb_ge.
Qed.

End QueueManager.

(* ===================================================================== *)
(** * The replica outbound queue of the middleware: the [sync-queue] service *)
(* ===================================================================== *)

(** The document middleware of src/bootstrap.ts queues every local change of
    a replica through
    [strapi.plugin('offline-sync').service('sync-queue').enqueue], with the
    locale of the change.  Neither that service nor the content type of its
    rows is among the sources: the queue manager above is another service,
    whose rows have no locale.  The rows and [enqueue] are therefore taken
    from sections 3 and 4.B of the specification. *)
Module SyncQueue.

(** Modelled from the spec: the [status] of a row of the [sync-queue]
    service, one of [pending], [sent] and [failed] (section 3); the schema is
    missing from the sources. *)
Inductive Status := Pending | Sent | Failed.

(** Modelled from the spec: the row type [SyncQueueEntry] of the
    [sync-queue] service, whose schema is missing from the sources.
    Section 3 lists the columns: [shipId], [contentType], [contentId],
    [operation], [localVersion], [data] ([null] for a delete), a nullable
    [locale], [status], [retryCount], [errorMessage], [createdAt] and
    [sentAt]; the [id] is allotted by the table. *)
Record SyncQueueEntry := {
  shipId : string;
  contentType : string;
  contentId : string;
  operation : string;
  localVersion : Z;
  data : json;
  locale : option string;
  status : Status;
  retryCount : Z;
  errorMessage : option string;
  createdAt : Z;
  sentAt : option Z
}.

Definition table := Db.table SyncQueueEntry.

(** The argument of [enqueue], as the middleware builds it. *)
Record Change := {
  c_shipId : string;
  c_contentType : string;
  c_contentId : string;
  c_operation : string;
  c_localVersion : Z;
  c_data : json;
  c_locale : option string
}.

Definition is_pending (e : SyncQueueEntry) : bool :=
  match status e with Pending => true | _ => false end.

(** Modelled from the spec: the lookup of [enqueue], missing from the
    sources with the service; a [pending] row for the key [(contentType,
    contentId, locale)]. *)
Definition where_pending (ct id : string) (loc : option string)
    (row : Z * SyncQueueEntry) : bool :=
  (contentType (snd row) =? ct)%string && (contentId (snd row) =? id)%string
  && opt_string_eqb (locale (snd row)) loc
  && is_pending (snd row).

(** Modelled from the spec: the update [enqueue] makes, missing from the
    sources with the service; section 4.B has it overwrite the data, the
    operation and the version of the row and reset its retryCount to 0. *)
Definition overwrite (op : Change) (e : SyncQueueEntry) : SyncQueueEntry :=
  {| shipId := shipId e;
     contentType := contentType e;
     contentId := contentId e;
     operation := c_operation op;
     localVersion := c_localVersion op;
     data := c_data op;
     locale := locale e;
     status := status e;
     retryCount := 0;
     errorMessage := errorMessage e;
     createdAt := createdAt e;
     sentAt := sentAt e |}.

(** Modelled from the spec: the row [enqueue] inserts, missing from the
    sources with the service; a pending row that holds the change. *)
Definition newEntry (now : Z) (op : Change) : SyncQueueEntry :=
  {| shipId := c_shipId op;
     contentType := c_contentType op;
     contentId := c_contentId op;
     operation := c_operation op;
     localVersion := c_localVersion op;
     data := c_data op;
     locale := c_locale op;
     status := Pending;
     retryCount := 0;
     errorMessage := None;
     createdAt := now;
     sentAt := None |}.

(** Modelled from the spec: [enqueue] of the [sync-queue] service, which is
    missing from the sources (its caller in src/bootstrap.ts is there).
    Section 4.B: if a [pending] row exists for the same [(contentType,
    contentId, locale)], overwrite its data, operation and version and reset
    its retryCount to 0; else insert a new row. *)
Definition enqueue (now : Z) (op : Change) (t : table) : table :=
  match Db.findOne
          (where_pending (c_contentType op) (c_contentId op) (c_locale op)) t
  with
  | Some existing => Db.update (Db.by_id (fst existing)) (overwrite op) t
  | None => snd (Db.create (newEntry now op) t)
  end.

(** A run of calls to [enqueue], each at its time. *)
Definition enqueueAll (calls : list (Z * Change)) (t : table) : table :=
  fold_left (fun q call => enqueue (fst call) (snd call) q) calls t.

(** ** One pending row per key *)

Definition one_pending_per_key (t : table) : Prop :=
  forall ct id loc, (List.length (filter (where_pending ct id loc) t) <= 1)%nat.

Lemma where_pending_key ct id loc row :
  where_pending ct id loc row = true
  <-> contentType (snd row) = ct /\ contentId (snd row) = id
      /\ locale (snd row) = loc /\ status (snd row) = Pending.
Proof.
  unfold where_pending, is_pending.
  rewrite !andb_true_iff, !String.eqb_eq, VersionTracker.opt_string_eqb_eq.
  destruct (status (snd row)); intuition congruence.
Qed.

Lemma enqueue_ids_stay_unique now op t :
  Db.unique_ids t -> Db.unique_ids (enqueue now op t).
Proof.
  unfold enqueue. destruct (Db.findOne _ t).
  - apply Db.unique_ids_update.
  - apply Db.unique_ids_create.
Qed.

Lemma enqueue_keeps_the_key_invariant now op t :
  one_pending_per_key t -> one_pending_per_key (enqueue now op t).
Proof.
  unfold enqueue, one_pending_per_key. intros Hinv ct id loc.
  destruct (Db.findOne _ t) as [existing | ] eqn:Hfind.
  - rewrite Db.filter_update_length; [ apply Hinv | ].
    intros row. reflexivity.
  - unfold Db.create. cbn [snd]. rewrite filter_app, length_app. cbn [filter].
    destruct (where_pending ct id loc (Db.nextId t, newEntry now op)) eqn:Hnew;
      cbn [List.length].
    + apply where_pending_key in Hnew as (Hct & Hid & Hloc & _).
      cbn in Hct, Hid, Hloc. subst ct id loc.
      rewrite (Db.filter_none _ _ Hfind). simpl. lia.
    + specialize (Hinv ct id loc). lia.
Qed.

Lemma enqueueAll_keeps_the_key_invariant calls t :
  Db.unique_ids t -> one_pending_per_key t ->
  Db.unique_ids (enqueueAll calls t) /\ one_pending_per_key (enqueueAll calls t).
Proof.
  unfold enqueueAll. revert t.
  induction calls as [ | call calls IH ]; intros t Hids Hinv; simpl; [ auto | ].
  apply IH; [ now apply enqueue_ids_stay_unique | now apply enqueue_keeps_the_key_invariant ].
Qed.

(** C4.  From a queue with unique ids and at most one pending row per
    [(contentType, contentId, locale)], any run of [enqueue] calls leaves a
    queue with unique ids and at most one pending row per key.  On such a
    queue a further [enqueue] either finds the pending row of the key, and
    then overwrites in place its operation, data and version and resets its
    retryCount to 0, adding no row and leaving every other row as it is; or
    it finds none, and then adds one row, under an id that was not in use,
    which is pending and holds the change under its key. *)
Theorem enqueue_keeps_one_pending_per_key (calls : list (Z * Change))
    (t : table) :
  Db.unique_ids t ->
  one_pending_per_key t ->
  let q := enqueueAll calls t in
  Db.unique_ids q
  /\ one_pending_per_key q
  /\ (forall now op existing,
        Db.findOne
          (where_pending (c_contentType op) (c_contentId op) (c_locale op)) q
        = Some existing ->
        exists row,
          Db.findOne
            (where_pending (c_contentType op) (c_contentId op) (c_locale op))
            (enqueue now op q) = Some row
          /\ fst row = fst existing
          /\ operation (snd row) = c_operation op
          /\ data (snd row) = c_data op
          /\ localVersion (snd row) = c_localVersion op
          /\ retryCount (snd row) = 0
          /\ status (snd row) = Pending
          /\ Db.ids (enqueue now op q) = Db.ids q
          /\ (forall id, id <> fst existing ->
                Db.findOne (Db.by_id id) (enqueue now op q)
                = Db.findOne (Db.by_id id) q))
  /\ (forall now op,
        Db.findOne
          (where_pending (c_contentType op) (c_contentId op) (c_locale op)) q
        = None ->
        exists id row,
          enqueue now op q = q ++ [(id, row)]
          /\ ~ In id (Db.ids q)
          /\ status row = Pending
          /\ contentType row = c_contentType op
          /\ contentId row = c_contentId op
          /\ locale row = c_locale op
          /\ operation row = c_operation op
          /\ data row = c_data op
          /\ localVersion row = c_localVersion op).
Proof.
  intros Hids Hinv q.
  destruct (enqueueAll_keeps_the_key_invariant calls t Hids Hinv) as [Hids' Hinv'].
  fold q in Hids', Hinv'.
  split; [ exact Hids' | split; [ exact Hinv' | split ] ].
  - intros now op existing Hfind.
    exists (fst existing, overwrite op (snd existing)).
    unfold enqueue. rewrite Hfind.
    pose proof (Db.findOne_some _ _ _ Hfind) as [Hin Hsat].
    split.
    { apply (Db.findOne_update_by_id _ _ _ existing Hids' Hfind). exact Hsat. }
    apply where_pending_key in Hsat as (_ & _ & _ & Hstatus).
    repeat split; try exact Hstatus.
    + apply Db.ids_update.
    + intros id Hid. apply Db.findOne_update_frame.
      intros r Hr Hrid. unfold Db.by_id in *. cbn [fst].
      apply Z.eqb_eq in Hrid. rewrite Hrid.
      split; apply Z.eqb_neq; congruence.
  - intros now op Hfind. unfold enqueue. rewrite Hfind.
    exists (Db.nextId q), (newEntry now op).
    split; [ reflexivity | ].
    split; [ | repeat split ].
    intros Hin. apply Db.ids_below_nextId in Hin. lia.
Qed.

(** An article edited in English, then in Arabic, then in English again. *)
Definition edit (loc : option string) (title : string) (v : Z) : Change :=
  {| c_shipId := "ship-1";
     c_contentType := "api::article.article";
     c_contentId := "k3x9";
     c_operation := "update";
     c_localVersion := v;
     c_data := JObj [("title", JStr title)];
     c_locale := loc |}.

Lemma enqueue_keeps_one_pending_per_key_witness :
  Db.unique_ids (@nil (Z * SyncQueueEntry))
  /\ one_pending_per_key []
  /\ one_pending_per_key
       (enqueueAll [ (1000, edit (Some "en") "Hello" 2);
                     (2000, edit (Some "ar") "Marhaba" 3);
                     (3000, edit (Some "en") "Hello again" 4) ] [])
  /\ map (fun row => (locale (snd row), localVersion (snd row)))
       (enqueueAll [ (1000, edit (Some "en") "Hello" 2);
                     (2000, edit (Some "ar") "Marhaba" 3);
                     (3000, edit (Some "en") "Hello again" 4) ] [])
     = [ (Some "en", 4); (Some "ar", 3) ].
Proof.
  assert (Hids : Db.unique_ids (@nil (Z * SyncQueueEntry))) by constructor.
  assert (Hinv : one_pending_per_key []) by (intros ct id loc; simpl; lia).
  pose proof (enqueue_keeps_one_pending_per_key
                [ (1000, edit (Some "en") "Hello" 2);
                  (2000, edit (Some "ar") "Marhaba" 3);
                  (3000, edit (Some "en") "Hello again" 4) ] []
                Hids Hinv) as (_ & Hone & _).
  split; [ exact Hids | split; [ exact Hinv | split; [ exact Hone | reflexivity ] ] ].
Defined.

End SyncQueue.

(* ===================================================================== *)
(** * The lifecycle hooks of the plug-in *)
(* ===================================================================== *)

(** [registerLifecycleHooks] subscribes [afterCreate], [afterUpdate] and
    [afterDelete] to every model.  Each hook runs in a [try] whose handler
    logs; with a database that always succeeds the handler is never
    entered. *)
Module Lifecycle.
Import Config.

(** [pluginConfig.mode] and [pluginConfig.shipId], [None] for the default
    [null]. *)
Record PluginConfig := {
  mode : Mode;
  shipId : option string
}.

(** [event.model.uid], [event.result] and its numeric [id]. *)
Record Event := {
  uid : string;
  result : json;
  result_id : Z
}.

(** The sync metadata and the outbound queue. *)
Definition World : Type := VersionTracker.table * QueueManager.table.

(** [pluginConfig.mode === 'replica' ? 'local' : 'master'] *)
Definition location (config : PluginConfig) : string :=
  match mode config with Replica => "local" | Master => "master" end.

(** [pluginConfig.shipId || 'local'] *)
Definition queueLocation (config : PluginConfig) : string :=
  match shipId config with
  | Some ship => if (ship =? "")%string then "local" else ship
  | None => "local"
  end.

Definition enqueueIfReplica (config : PluginConfig) (op : QueueManager.Operation)
    (queue : QueueManager.table) : QueueManager.table :=
  match mode config with
  | Replica => snd (QueueManager.enqueue (mode config) op queue)
  | Master => queue
  end.

Definition afterCreate (config : PluginConfig) (event : Event) (w : World) : World :=
  if String.prefix "plugin::" (uid event) then w
  else
    let metadata :=
      snd (VersionTracker.incrementVersion (uid event) (result_id event)
             (location config) (fst w)) in
    (metadata,
     enqueueIfReplica config
       {| QueueManager.op_operation := "create";
          QueueManager.op_contentType := uid event;
          QueueManager.op_entityId := result_id event;
          QueueManager.op_data := result event;
          QueueManager.op_version := 1;
          QueueManager.op_location := queueLocation config |} (snd w)).

Definition afterUpdate (config : PluginConfig) (event : Event) (w : World) : World :=
  if String.prefix "plugin::" (uid event) then w
  else
    let (newVersion, metadata) :=
      VersionTracker.incrementVersion (uid event) (result_id event)
        (location config) (fst w) in
    (metadata,
     enqueueIfReplica config
       {| QueueManager.op_operation := "update";
          QueueManager.op_contentType := uid event;
          QueueManager.op_entityId := result_id event;
          QueueManager.op_data := result event;
          QueueManager.op_version := newVersion;
          QueueManager.op_location := queueLocation config |} (snd w)).

Definition afterDelete (config : PluginConfig) (event : Event) (w : World) : World :=
  if String.prefix "plugin::" (uid event) then w
  else
    (Db.delete (VersionTracker.where_entity (uid event) (result_id event)) (fst w),
     enqueueIfReplica config
       {| QueueManager.op_operation := "delete";
          QueueManager.op_contentType := uid event;
          QueueManager.op_entityId := result_id event;
          QueueManager.op_data := JNull;
          QueueManager.op_version := 0;
          QueueManager.op_location := queueLocation config |} (snd w)).

(** ** What the hooks queue *)

Definition pendingRow (event : Event) (queue : QueueManager.table)
  : option (Z * QueueManager.QueueEntry) :=
  Db.findOne (QueueManager.where_pending (uid event) (result_id event)) queue.

(** X16. On a replica, after an update of an entity that is not of a plug-in, the
    pending queue row of the entity holds the update with the result as data
    and the version the metadata now stores, one more than before (for a
    stored version below [2^53] in magnitude, where adding one is exact).
    After a create the pending row holds version 1 whatever the metadata
    stores, so the two agree only for an entity that had no metadata.  On
    the master the hooks do not touch the queue. *)
Theorem hooks_queue_the_change (config : PluginConfig) (event : Event)
    (w : World) :
  String.prefix "plugin::" (uid event) = false ->
  Db.unique_ids (fst w) ->
  Db.unique_ids (snd w) ->
  Z.abs (VersionTracker.storedVersion (uid event) (result_id event) (fst w))
  < 2 ^ 53 ->
  (mode config = Replica ->
   (exists row,
      pendingRow event (snd (afterUpdate config event w)) = Some row
      /\ QueueManager.operation (snd row) = "update"
      /\ QueueManager.data (snd row) = result event
      /\ QueueManager.version (snd row)
         = VersionTracker.storedVersion (uid event) (result_id event)
             (fst (afterUpdate config event w))
      /\ QueueManager.version (snd row)
         = VersionTracker.storedVersion (uid event) (result_id event) (fst w) + 1)
   /\ (exists row,
         pendingRow event (snd (afterCreate config event w)) = Some row
         /\ QueueManager.operation (snd row) = "create"
         /\ QueueManager.data (snd row) = result event
         /\ QueueManager.version (snd row) = 1
         /\ VersionTracker.storedVersion (uid event) (result_id event)
              (fst (afterCreate config event w))
            = VersionTracker.storedVersion (uid event) (result_id event) (fst w)
              + 1))
  /\ (mode config = Master ->
      snd (afterUpdate config event w) = snd w
      /\ snd (afterCreate config event w) = snd w
      /\ snd (afterDelete config event w) = snd w).
Proof.
  intros Hplugin Hmeta Hqueue Hsafe.
  unfold afterUpdate, afterCreate, afterDelete, pendingRow, enqueueIfReplica.
  rewrite Hplugin.
  pose proof (VersionTracker.storedVersion_incrementVersion (uid event)
                (result_id event) (location config) (fst w) (uid event)
                (result_id event) Hmeta) as Hstored.
  cbn [VersionTracker.is_edit_of] in Hstored.
  rewrite String.eqb_refl, Z.eqb_refl in Hstored. cbn [andb] in Hstored.
  rewrite Number_add_exact in Hstored by lia.
  assert (Hnew : fst (VersionTracker.incrementVersion (uid event)
                        (result_id event) (location config) (fst w))
                 = VersionTracker.storedVersion (uid event) (result_id event)
                     (fst w) + 1).
  { rewrite <- Number_add_exact by lia.
    rewrite VersionTracker.storedVersion_metadata.
    unfold VersionTracker.incrementVersion, VersionTracker.getMetadata.
    now destruct (Db.findOne _ (fst w)). }
  split.
  - intros Hmode. rewrite Hmode. split.
    + destruct (VersionTracker.incrementVersion (uid event) (result_id event)
                  (location config) (fst w)) as [newVersion metadata] eqn:Hinc.
      cbn [fst snd] in *.
      match goal with |- context [QueueManager.enqueue Replica ?op (snd w)] =>
        destruct (QueueManager.enqueue_found op (snd w) Hqueue)
          as (row & Hrow & Hop & Hdata & Hversion & _)
      end.
      cbn in Hrow, Hop, Hdata, Hversion.
      exists row. repeat split; try assumption; congruence.
    + match goal with |- context [QueueManager.enqueue Replica ?op (snd w)] =>
        destruct (QueueManager.enqueue_found op (snd w) Hqueue)
          as (row & Hrow & Hop & Hdata & Hversion & _)
      end.
      cbn in Hrow, Hop, Hdata, Hversion.
      exists row. cbn [fst snd]. repeat split; assumption.
  - intros Hmode. rewrite Hmode.
    destruct (VersionTracker.incrementVersion _ _ _ _). repeat split.
Qed.

Definition ship_config : PluginConfig :=
  {| mode := Replica; shipId := Some "ship-1" |}.

Definition article_saved : Event :=
  {| uid := "api::article.article";
     result := JObj [("id", JNum 7); ("title", JStr "final")];
     result_id := 7 |}.

Lemma hooks_queue_the_change_witness :
  String.prefix "plugin::" (uid article_saved) = false
  /\ Db.unique_ids (fst (VersionTracker.two_articles, @nil (Z * QueueManager.QueueEntry)))
  /\ Z.abs (VersionTracker.storedVersion (uid article_saved)
              (result_id article_saved) VersionTracker.two_articles) < 2 ^ 53
  /\ option_map (fun row => QueueManager.version (snd row))
       (pendingRow article_saved
          (snd (afterUpdate ship_config article_saved
                  (VersionTracker.two_articles, [])))) = Some 3
  /\ exists row,
       pendingRow article_saved
         (snd (afterCreate ship_config article_saved
                 (VersionTracker.two_articles, []))) = Some row
       /\ QueueManager.version (snd row) = 1
       /\ VersionTracker.storedVersion "api::article.article" 7
            (fst (afterCreate ship_config article_saved
                    (VersionTracker.two_articles, []))) = 3.
Proof.
  split; [ reflexivity | ].
  split; [ exact VersionTracker.two_articles_unique_ids | ].
  split; [ reflexivity | ].
  split; [ reflexivity | ].
  destruct (hooks_queue_the_change ship_config article_saved
              (VersionTracker.two_articles, []) eq_refl
              VersionTracker.two_articles_unique_ids (NoDup_nil Z) eq_refl)
    as [Hreplica _].
  destruct (Hreplica eq_refl) as [_ (row & Hrow & _ & _ & Hversion & Hstored)].
  exists row. split; [ exact Hrow | split; [ exact Hversion | exact Hstored ] ].
Defined.

(** ** What a delete leaves *)

Lemma findOne_delete_one (p : Z * VersionTracker.SyncMetadata -> bool)
    (t : VersionTracker.table) :
  (List.length (filter p t) <= 1)%nat -> Db.findOne p (Db.delete p t) = None.
Proof.
  unfold Db.findOne. induction t as [ | r t IH ]; cbn [filter Db.delete find];
    [ reflexivity | ].
  destruct (p r) eqn:Hr; cbn [List.length find]; intros Hlen.
  - destruct (find p t) as [row | ] eqn:Hfind; [ | reflexivity ].
    apply find_some in Hfind as [Hin Hsat].
    assert (In row (filter p t)) by (apply filter_In; auto).
    destruct (filter p t); [ contradiction | simpl in Hlen; lia ].
  - rewrite Hr. now apply IH.
Qed.

(** X17. With at most one metadata row per entity, [afterDelete] leaves the
    entity without metadata, so that an entity created later under the same
    id starts again at version 1; on a replica the pending queue row of the
    entity then holds the delete, with [null] data and version 0. *)
Theorem delete_hook_forgets_the_version (config : PluginConfig) (event : Event)
    (w : World) :
  String.prefix "plugin::" (uid event) = false ->
  VersionTracker.one_row_per_entity (fst w) ->
  Db.unique_ids (snd w) ->
  let w' := afterDelete config event w in
  VersionTracker.getMetadata (uid event) (result_id event) (fst w') = None
  /\ fst (VersionTracker.incrementVersion (uid event) (result_id event)
            (location config) (fst w')) = 1
  /\ (mode config = Replica ->
      exists row,
        pendingRow event (snd w') = Some row
        /\ QueueManager.operation (snd row) = "delete"
        /\ QueueManager.data (snd row) = JNull
        /\ QueueManager.version (snd row) = 0).
Proof.
  intros Hplugin Hone Hqueue w'. subst w'.
  unfold afterDelete, pendingRow, enqueueIfReplica. rewrite Hplugin. cbn [fst snd].
  assert (Hgone : VersionTracker.getMetadata (uid event) (result_id event)
                    (Db.delete (VersionTracker.where_entity (uid event)
                                  (result_id event)) (fst w)) = None).
  { apply findOne_delete_one. apply Hone. }
  split; [ exact Hgone | split ].
  - unfold VersionTracker.incrementVersion.
    unfold VersionTracker.getMetadata in Hgone. now rewrite Hgone.
  - intros Hmode. rewrite Hmode.
    match goal with |- context [QueueManager.enqueue Replica ?op (snd w)] =>
      destruct (QueueManager.enqueue_found op (snd w) Hqueue)
        as (row & Hrow & Hop & Hdata & Hversion & _)
    end.
    cbn in Hrow, Hop, Hdata, Hversion.
    exists row. repeat split; assumption.
Qed.

Lemma delete_hook_forgets_the_version_witness :
  String.prefix "plugin::" (uid article_saved) = false
  /\ VersionTracker.one_row_per_entity VersionTracker.two_articles
  /\ VersionTracker.getMetadata "api::article.article" 7
       (fst (afterDelete ship_config article_saved
               (VersionTracker.two_articles, []))) = None.
Proof.
  assert (Hone : VersionTracker.one_row_per_entity VersionTracker.two_articles).
  { intros ct id. unfold VersionTracker.two_articles, VersionTracker.where_entity.
    cbn [filter snd VersionTracker.contentType VersionTracker.entityId].
    destruct (7 =? id) eqn:H7, (8 =? id) eqn:H8;
      destruct ("api::article.article" =? ct)%string; simpl; lia. }
  split; [ reflexivity | split; [ exact Hone | ] ].
  exact (proj1 (delete_hook_forgets_the_version ship_config article_saved
                  (VersionTracker.two_articles, []) eq_refl Hone (NoDup_nil Z))).
Defined.

End Lifecycle.

(* ===================================================================== *)
(** * The sync service: [pushToMaster] *)
(* ===================================================================== *)

(** The push of the pending queue to the master over HTTP.  The request is
    a collaborator: it answers with the [data] of the response or throws.
    The clock is read once for the run. *)
Module Push.
Import Config ConflictResolver SyncService.

Record PluginConfig := {
  mode : Mode;
  masterUrl : option string;
  shipId : option string;
  batchSize : Z;
  retryAttempts : Z
}.

(** An element of the [changes] sent to the master. *)
Record PushedChange := {
  p_operation : string;
  p_contentType : string;
  p_entityId : Z;
  p_data : json;
  p_version : Z;
  p_location : option string
}.

(** [response.data] *)
Record PushResponse := {
  r_processed : Z;
  r_conflicts : Z;
  r_updatedEntities : list Change
}.

Record PushResult := {
  success : bool;
  processed : Z;
  conflicts : Z;
  errors : list string
}.

Definition World : Type := State * QueueManager.table.

(** [!!pluginConfig.masterUrl] *)
Definition configured (url : option string) : bool :=
  match url with
  | Some u => negb (u =? "")%string
  | None => false
  end.

Definition toChange (config : PluginConfig) (op : Z * QueueManager.QueueEntry)
  : PushedChange :=
  {| p_operation := QueueManager.operation (snd op);
     p_contentType := QueueManager.contentType (snd op);
     p_entityId := QueueManager.entityId (snd op);
     p_data := QueueManager.data (snd op);
     p_version := QueueManager.version (snd op);
     p_location :=
       if (QueueManager.location (snd op) =? "")%string then shipId config
       else Some (QueueManager.location (snd op)) |}.

Definition pushToMaster (now : Z) (config : PluginConfig)
    (post : list PushedChange -> exn + PushResponse) (w : World)
  : PushResult * World :=
  if negb (is_replica (mode config)) || negb (configured (masterUrl config)) then
    ({| success := false; processed := 0; conflicts := 0;
        errors := ["Not in replica mode or master URL not configured"] |}, w)
  else
    let pendingOps := QueueManager.getPending None (batchSize config) (snd w) in
    if (List.length pendingOps =? 0)%nat then
      ({| success := true; processed := 0; conflicts := 0; errors := [] |}, w)
    else
      let changes := map (toChange config) pendingOps in
      match post changes with
      | inr response =>
          let queue :=
            fold_left
              (fun q op =>
                 if r_processed response >? 0
                 then QueueManager.markSynced now (fst op) q
                 else q)
              pendingOps (snd w) in
          let st :=
            fold_left (fun st entity => snd (applyChange now entity Remote st))
              (r_updatedEntities response) (fst w) in
          ({| success := true;
              processed := r_processed response;
              conflicts := r_conflicts response;
              errors := [] |},
           (st, queue))
      | inl message =>
          let queue :=
            fold_left
              (fun q op =>
                 QueueManager.markFailed (retryAttempts config) (fst op)
                   (if (message =? "")%string then "Failed to push to master"
                    else message) q)
              pendingOps (snd w) in
          ({| success := false; processed := 0; conflicts := 0;
              errors := [if (message =? "")%string then "Unknown error"
                         else message] |},
           (fst w, queue))
      end.

(** ** What a push leaves in the queue *)

(** The [data] of [markSynced]. *)
Definition synced (now : Z) (e : QueueManager.QueueEntry) : QueueManager.QueueEntry :=
  {| QueueManager.operation := QueueManager.operation e;
     QueueManager.contentType := QueueManager.contentType e;
     QueueManager.entityId := QueueManager.entityId e;
     QueueManager.data := QueueManager.data e;
     QueueManager.version := QueueManager.version e;
     QueueManager.status := QueueManager.Synced;
     QueueManager.location := QueueManager.location e;
     QueueManager.retryCount := QueueManager.retryCount e;
     QueueManager.errorMessage := QueueManager.errorMessage e;
     QueueManager.syncedAt := Some now |}.

(** The row is one of the operations. *)
Definition among (ops : list (Z * QueueManager.QueueEntry))
    (row : Z * QueueManager.QueueEntry) : bool :=
  existsb (fun op => fst op =? fst row) ops.

Lemma in_firstn {X} (n : nat) (l : list X) (x : X) :
  In x (firstn n l) -> In x l.
Proof.
  intros Hin. rewrite <- (firstn_skipn n l). apply in_or_app. now left.
Qed.

Lemma markSynced_all now (ops : list (Z * QueueManager.QueueEntry))
    (q : QueueManager.table) :
  Db.unique_ids q ->
  fold_left (fun q op => QueueManager.markSynced now (fst op) q) ops q
  = map (fun row => if among ops row then (fst row, synced now (snd row)) else row) q.
Proof.
  revert q. induction ops as [ | op ops IH ]; intros q Hids; cbn [fold_left].
  - unfold among. cbn [existsb]. now rewrite map_id.
  - rewrite IH by now apply Db.unique_ids_update.
    unfold QueueManager.markSynced. rewrite (Db.update_by_id_map _ _ _ Hids).
    rewrite map_map. apply map_ext. intros row.
    unfold Db.update_row, among. cbn [existsb].
    rewrite (Z.eqb_sym (fst op) (fst row)).
    destruct (fst row =? fst op); cbn [fst snd orb]; [ | reflexivity ].
    now destruct (existsb _ ops).
Qed.

(** X18. When the master answers a push, the whole batch is marked synced as
    soon as the answer counts one processed change: every pending operation
    that was sent becomes synced, the ones the master reported as conflicts
    or skipped included, and no other row of the queue changes.  When the
    answer counts no processed change the queue is left exactly as it is, and
    the same operations are sent again by the next push.  In both cases the
    push reports success with the counts of the answer. *)
Theorem push_marks_the_whole_batch_synced (now : Z) (config : PluginConfig)
    (post : list PushedChange -> exn + PushResponse) (w : World)
    (response : PushResponse) :
  Db.unique_ids (snd w) ->
  mode config = Replica ->
  configured (masterUrl config) = true ->
  let pendingOps := QueueManager.getPending None (batchSize config) (snd w) in
  pendingOps <> [] ->
  post (map (toChange config) pendingOps) = inr response ->
  let out := pushToMaster now config post w in
  fst out = {| success := true;
               processed := r_processed response;
               conflicts := r_conflicts response;
               errors := [] |}
  /\ snd (snd out)
     = map (fun row =>
              if (r_processed response >? 0) && among pendingOps row
              then (fst row, synced now (snd row)) else row)
         (snd w)
  /\ (0 < r_processed response ->
      forall op, In op pendingOps ->
                 In (fst op, synced now (snd op)) (snd (snd out)))
  /\ (r_processed response <= 0 -> snd (snd out) = snd w).
Proof.
  intros Hids Hmode Hurl pendingOps Hsome Hpost out.
  assert (Hqueue : snd (snd out)
                   = map (fun row =>
                            if (r_processed response >? 0) && among pendingOps row
                            then (fst row, synced now (snd row)) else row)
                       (snd w)).
  { subst out. unfold pushToMaster. rewrite Hmode, Hurl. cbn [is_replica negb orb].
    fold pendingOps.
    destruct pendingOps as [ | op ops ] eqn:Hops; [ contradiction | ].
    cbn [List.length Nat.eqb]. rewrite Hpost. cbn [snd].
    destruct (r_processed response >? 0); cbn [andb].
    - now apply markSynced_all.
    - rewrite map_id. clear. generalize (snd w).
      induction (op :: ops) as [ | o os IH ]; intros q; cbn [fold_left];
        [ reflexivity | apply IH ]. }
  split; [ | split; [ exact Hqueue | split ] ].
  - subst out. unfold pushToMaster. rewrite Hmode, Hurl. cbn [is_replica negb orb].
    fold pendingOps.
    destruct pendingOps as [ | op ops ] eqn:Hops; [ contradiction | ].
    cbn [List.length Nat.eqb]. now rewrite Hpost.
  - intros Hprocessed op Hin. rewrite Hqueue.
    assert (Hq : In op (snd w)).
    { unfold pendingOps, QueueManager.getPending, Db.findMany in Hin.
      apply in_firstn in Hin. now apply filter_In in Hin as [Hin _]. }
    apply in_map_iff. exists op. split; [ | exact Hq ].
    replace (r_processed response >? 0) with true
      by (symmetry; apply Z.gtb_lt; lia).
    cbn [andb]. replace (among pendingOps op) with true; [ reflexivity | ].
    symmetry. apply existsb_exists. exists op.
    split; [ exact Hin | apply Z.eqb_refl ].
  - intros Hnone. rewrite Hqueue.
    replace (r_processed response >? 0) with false.
    + cbn [andb]. apply map_id.
    + symmetry. rewrite Z.gtb_ltb. apply Z.ltb_ge. lia.
Qed.

Definition ship : PluginConfig :=
  {| mode := Replica; masterUrl := Some "https://master.example.com";
     shipId := Some "ship-1"; batchSize := 50; retryAttempts := 3 |}.

(** Two articles edited on the ship. *)
Definition two_edits : QueueManager.table :=
  QueueManager.enqueueAll Replica
    [ QueueManager.created_article; QueueManager.edited_in "en" "Hello" 2;
      {| QueueManager.op_operation := "update";
         QueueManager.op_contentType := "api::article.article";
         QueueManager.op_entityId := 8;
         QueueManager.op_data := JObj [("title", JStr "Other")];
         QueueManager.op_version := 4;
         QueueManager.op_location := "ship-1" |} ] [].

(** The master applied one change and reported the other as a conflict. *)
Definition one_of_two (changes : list PushedChange) : exn + PushResponse :=
  inr {| r_processed := 1; r_conflicts := 1; r_updatedEntities := [] |}.

Lemma push_marks_the_whole_batch_synced_witness :
  Db.unique_ids two_edits
  /\ QueueManager.getPending None 50 two_edits <> []
  /\ map (fun row => QueueManager.status (snd row))
       (snd (snd (pushToMaster 9000 ship one_of_two (edited_locally, two_edits))))
     = [QueueManager.Synced; QueueManager.Synced]
  /\ conflicts (fst (pushToMaster 9000 ship one_of_two (edited_locally, two_edits)))
     = 1.
Proof.
  assert (Hids : Db.unique_ids two_edits).
  { apply QueueManager.enqueueAll_unique_ids. constructor. }
  assert (Hsome : QueueManager.getPending None 50 two_edits <> [])
    by discriminate.
  pose proof (push_marks_the_whole_batch_synced 9000 ship one_of_two
                (edited_locally, two_edits)
                {| r_processed := 1; r_conflicts := 1; r_updatedEntities := [] |}
                Hids eq_refl eq_refl Hsome eq_refl) as (Hresult & _).
  split; [ exact Hids | split; [ exact Hsome | split; [ reflexivity | ] ] ].
  exact (f_equal conflicts Hresult).
Defined.

End Push.

(* ===================================================================== *)
(** * services/ship-tracker.ts *)
(* ===================================================================== *)

Module ShipTracker.

(** A row of [plugin::offline-sync.sync-session]; times in milliseconds. *)
Record SyncSession := {
  shipId : string;
  lastSeenAt : Z;
  isOnline : bool;
  onlineThreshold : option Z;
  lastSyncAt : option Z;
  lastSyncStatus : option string;
  totalSyncs : Z;
  metadata : json
}.

Definition table := Db.table SyncSession.

(** [where: { shipId }] *)
Definition where_ship (id : string) (row : Z * SyncSession) : bool :=
  (shipId (snd row) =? id)%string.

(** [session.onlineThreshold || 300000]: five minutes when the column is
    empty or zero. *)
Definition thresholdOf (session : SyncSession) : Z :=
  match onlineThreshold session with
  | Some threshold => if threshold =? 0 then 300000 else threshold
  | None => 300000
  end.

(** [now.getTime() - new Date(session.lastSeenAt).getTime()]: two times
    since the epoch, whose difference is exact. *)
Definition timeSinceLastSeen (now : Z) (session : SyncSession) : Z :=
  now - lastSeenAt session.

(** [data: { isOnline }] *)
Definition setOnline (online : bool) (session : SyncSession) : SyncSession :=
  {| shipId := shipId session;
     lastSeenAt := lastSeenAt session;
     isOnline := online;
     onlineThreshold := onlineThreshold session;
     lastSyncAt := lastSyncAt session;
     lastSyncStatus := lastSyncStatus session;
     totalSyncs := totalSyncs session;
     metadata := metadata session |}.

Definition isShipOnline (now : Z) (id : string) (t : table) : bool * table :=
  match Db.findOne (where_ship id) t with
  | None => (false, t)
  | Some session =>
      let threshold := thresholdOf (snd session) in
      let online := timeSinceLastSeen now (snd session) <? threshold in
      if negb (Bool.eqb (isOnline (snd session)) online)
      then (online, Db.update (Db.by_id (fst session)) (setOnline online) t)
      else (online, t)
  end.

(** [recordShipActivity(shipId, metadata?)] *)
Definition recordShipActivity (now : Z) (id : string) (meta : option json)
    (t : table) : table :=
  match Db.findOne (where_ship id) t with
  | Some session =>
      Db.update (Db.by_id (fst session))
        (fun s => {| shipId := shipId s;
                     lastSeenAt := now;
                     isOnline := true;
                     onlineThreshold := onlineThreshold s;
                     lastSyncAt := lastSyncAt s;
                     lastSyncStatus := lastSyncStatus s;
                     totalSyncs := totalSyncs s;
                     metadata := or_else meta (metadata s) |}) t
  | None =>
      snd (Db.create {| shipId := id;
                        lastSeenAt := now;
                        isOnline := true;
                        onlineThreshold := Some 300000;
                        lastSyncAt := None;
                        lastSyncStatus := None;
                        totalSyncs := 0;
                        metadata := or_else meta (JObj []) |} t)
  end.

(** [updateShipSyncStatus(shipId, status, syncCount?)]: the new total is
    computed from the session that was read. *)
Definition updateShipSyncStatus (now : Z) (id : string) (status : string)
    (syncCount : option Z) (t : table) : table :=
  match Db.findOne (where_ship id) t with
  | Some session =>
      Db.update (Db.by_id (fst session))
        (fun s => {| shipId := shipId s;
                     lastSeenAt := lastSeenAt s;
                     isOnline := isOnline s;
                     onlineThreshold := onlineThreshold s;
                     lastSyncAt := Some now;
                     lastSyncStatus := Some status;
                     totalSyncs :=
                       match syncCount with
                       | Some n =>
                           if n =? 0 then Number_add (totalSyncs (snd session)) 1
                           else Number_add (totalSyncs (snd session)) n
                       | None => Number_add (totalSyncs (snd session)) 1
                       end;
                     metadata := metadata s |}) t
  | None => t
  end.

(** The body of the loop of [markOfflineShips] for one session of the
    snapshot. *)
Definition expireSession (now : Z) (t : table) (session : Z * SyncSession) : table :=
  if timeSinceLastSeen now (snd session) >=? thresholdOf (snd session)
  then Db.update (Db.by_id (fst session)) (setOnline false) t
  else t.

Definition markOfflineShips (now : Z) (t : table) : table :=
  let sessions := Db.findMany (fun row => isOnline (snd row)) t in
  fold_left (expireSession now) sessions t.

(** ** Liveness *)

Definition stale (now : Z) (session : SyncSession) : bool :=
  timeSinceLastSeen now session >=? thresholdOf session.

(** What the janitor pass does to one row: an online session that is stale
    goes offline, any other row is left as it is. *)
Definition expire (now : Z) (row : Z * SyncSession) : Z * SyncSession :=
  if isOnline (snd row) && stale now (snd row)
  then (fst row, setOnline false (snd row))
  else row.

(** The effect on one row of the loop body run for [session]. *)
Definition expireStep (now : Z) (session row : Z * SyncSession) : Z * SyncSession :=
  if stale now (snd session) && (fst row =? fst session)
  then (fst row, setOnline false (snd row))
  else row.

Section Janitor.

Variable now : Z.

Abbreviation step := (expireStep now).

Lemma expireSession_map (t : table) (session : Z * SyncSession) :
  Db.unique_ids t -> expireSession now t session = map (step session) t.
Proof.
  intros Hids. unfold expireSession, expireStep.
  fold (stale now (snd session)).
  destruct (stale now (snd session)); simpl.
  - rewrite (Db.update_by_id_map _ _ _ Hids). reflexivity.
  - now rewrite map_id.
Qed.

Lemma unique_ids_map_step (t : table) (session : Z * SyncSession) :
  Db.unique_ids t -> Db.unique_ids (map (step session) t).
Proof.
  unfold Db.unique_ids, Db.ids. rewrite map_map.
  erewrite map_ext; [ intros H; exact H | ].
  intros row. unfold expireStep. now destruct (_ && _).
Qed.

Lemma fold_expire_map (sessions : list (Z * SyncSession)) (t : table) :
  Db.unique_ids t ->
  fold_left (expireSession now) sessions t
  = map (fun row => fold_left (fun r session => step session r) sessions row) t.
Proof.
  revert t. induction sessions as [ | session sessions IH ]; intros t Hids; simpl.
  - now rewrite map_id.
  - rewrite (expireSession_map t session Hids).
    rewrite IH by now apply unique_ids_map_step.
    now rewrite map_map.
Qed.

Lemma fold_step (sessions : list (Z * SyncSession)) (row : Z * SyncSession) :
  fold_left (fun r session => step session r) sessions row
  = if existsb (fun session => stale now (snd session) && (fst row =? fst session))
         sessions
    then (fst row, setOnline false (snd row))
    else row.
Proof.
  revert row. induction sessions as [ | session sessions IH ]; intros row; simpl;
    [ reflexivity | ].
  rewrite IH. unfold expireStep.
  destruct (stale now (snd session) && (fst row =? fst session)); simpl;
    [ | reflexivity ].
  now destruct (existsb _ sessions).
Qed.

Lemma markOfflineShips_map (t : table) :
  Db.unique_ids t -> markOfflineShips now t = map (expire now) t.
Proof.
  intros Hids. unfold markOfflineShips, Db.findMany.
  rewrite (fold_expire_map _ t Hids). apply map_ext_in. intros row Hin.
  rewrite fold_step. unfold expire.
  destruct (isOnline (snd row) && stale now (snd row)) eqn:E.
  - apply andb_true_iff in E as [Hon Hstale].
    replace (existsb _ _) with true; [ reflexivity | ].
    symmetry. apply existsb_exists. exists row. split.
    + apply filter_In. auto.
    + now rewrite Hstale, Z.eqb_refl.
  - replace (existsb _ _) with false; [ reflexivity | ].
    symmetry. apply not_true_iff_false. intros Hex.
    apply existsb_exists in Hex as (session & Hs & Hcond).
    apply filter_In in Hs as [Hs Hon].
    apply andb_true_iff in Hcond as [Hstale Hid]. apply Z.eqb_eq in Hid.
    assert (row = session) by now apply (Db.same_id_same_row t).
    subst session. rewrite Hon, Hstale in E. discriminate.
Qed.

End Janitor.

Definition fleet : table :=
  [ (1, {| shipId := "ship-1"; lastSeenAt := 1000000; isOnline := true;
           onlineThreshold := Some 300000; lastSyncAt := None;
           lastSyncStatus := None; totalSyncs := 0; metadata := JObj [] |});
    (2, {| shipId := "ship-2"; lastSeenAt := 1200000; isOnline := true;
           onlineThreshold := None; lastSyncAt := None;
           lastSyncStatus := None; totalSyncs := 4; metadata := JObj [] |}) ].

Example ship_1_went_silent :
  isShipOnline 1300000 "ship-1" fleet
  = (false,
     [ (1, {| shipId := "ship-1"; lastSeenAt := 1000000; isOnline := false;
              onlineThreshold := Some 300000; lastSyncAt := None;
              lastSyncStatus := None; totalSyncs := 0; metadata := JObj [] |});
       (2, {| shipId := "ship-2"; lastSeenAt := 1200000; isOnline := true;
              onlineThreshold := None; lastSyncAt := None;
              lastSyncStatus := None; totalSyncs := 4; metadata := JObj [] |}) ]).
Proof. reflexivity. Qed.

Example janitor_pass :
  map (fun row => isOnline (snd row)) (markOfflineShips 1300000 fleet)
  = [false; true].
Proof. reflexivity. Qed.

(** What the janitor pass does to one row, written out: the threshold is
    the stored [onlineThreshold], and 300 000 ms when the column is empty or
    zero. *)
Definition flipped (now : Z) (row : Z * SyncSession) : Z * SyncSession :=
  let threshold :=
    match onlineThreshold (snd row) with
    | Some 0 | None => 300000
    | Some stored => stored
    end in
  if isOnline (snd row) && (threshold <=? now - lastSeenAt (snd row))
  then (fst row, setOnline false (snd row))
  else row.

Lemma thresholdOf_cases (session : SyncSession) :
  thresholdOf session
  = match onlineThreshold session with
    | Some 0 | None => 300000
    | Some stored => stored
    end.
Proof.
  unfold thresholdOf. now destruct (onlineThreshold session) as [ [ | p | p ] | ].
Qed.

Lemma expire_flipped now row : expire now row = flipped now row.
Proof.
  unfold expire, flipped, stale, timeSinceLastSeen.
  rewrite thresholdOf_cases, Z.geb_leb. reflexivity.
Qed.

(** C7, as the code has it.  With [id] the primary key of the session table:
    - a peer without a stored session is reported offline;
    - a peer with a stored session is reported online exactly when
      [now - lastSeenAt] is below its [onlineThreshold], a threshold that is
      stored as zero or not at all counting as 300 000 ms; after the call
      the stored [isOnline] of that session is the value reported;
    - after [markOfflineShips] every session whose [lastSeenAt] is at least
      that threshold old has [isOnline = false], and the pass changes
      nothing else: it only turns off the online sessions that are that
      old. *)
Theorem online_iff_seen_within_threshold (now : Z) (t : table) :
  Db.unique_ids t ->
  (forall id, Db.findOne (where_ship id) t = None ->
              isShipOnline now id t = (false, t))
  /\ (forall id session,
        Db.findOne (where_ship id) t = Some session ->
        match onlineThreshold (snd session) with
        | Some 0 | None =>
            fst (isShipOnline now id t) = true
            <-> now - lastSeenAt (snd session) < 300000
        | Some stored =>
            fst (isShipOnline now id t) = true
            <-> now - lastSeenAt (snd session) < stored
        end
        /\ Db.findOne (where_ship id) (snd (isShipOnline now id t))
           = Some (fst session,
                   setOnline (fst (isShipOnline now id t)) (snd session)))
  /\ (forall row, In row (markOfflineShips now t) ->
        match onlineThreshold (snd row) with
        | Some 0 | None => now - lastSeenAt (snd row) >= 300000
        | Some stored => now - lastSeenAt (snd row) >= stored
        end ->
        isOnline (snd row) = false)
  /\ markOfflineShips now t = map (flipped now) t.
Proof.
  intros Hids. split; [ | split; [ | split ] ].
  - intros id Hnone. unfold isShipOnline. now rewrite Hnone.
  - intros id [sid session] Hfind. unfold isShipOnline. rewrite Hfind.
    cbn [fst snd]. unfold timeSinceLastSeen.
    set (online := now - lastSeenAt session <? thresholdOf session).
    assert (Hiff : online = true
                   <-> now - lastSeenAt session < thresholdOf session)
      by apply Z.ltb_lt.
    rewrite thresholdOf_cases in Hiff.
    assert (Hsays : match onlineThreshold session with
                    | Some 0 | None =>
                        online = true <-> now - lastSeenAt session < 300000
                    | Some stored =>
                        online = true <-> now - lastSeenAt session < stored
                    end)
      by now destruct (onlineThreshold session) as [ [ | p | p ] | ].
    destruct (Bool.eqb (isOnline session) online) eqn:Heq; cbn [negb fst snd].
    + split; [ exact Hsays | ].
      rewrite Hfind. do 2 f_equal. apply Bool.eqb_prop in Heq.
      rewrite <- Heq. now destruct session.
    + split; [ exact Hsays | ].
      apply (Db.findOne_update_by_id _ _ _ (sid, session) Hids Hfind).
      apply Db.findOne_some in Hfind as [_ Hsat]. exact Hsat.
  - intros row Hin Hold. rewrite (markOfflineShips_map now t Hids) in Hin.
    apply in_map_iff in Hin as (r & <- & _). unfold expire in *.
    destruct (isOnline (snd r)) eqn:Hon; cbn [andb] in *.
    + destruct (stale now (snd r)) eqn:Hstale; [ reflexivity | ].
      unfold stale, timeSinceLastSeen in Hstale.
      rewrite thresholdOf_cases in Hstale. cbv iota in Hold.
      destruct (onlineThreshold (snd r)) as [ [ | p | p ] | ];
        cbv beta iota zeta in Hstale, Hold;
        rewrite Z.geb_leb in Hstale; apply Z.leb_gt in Hstale; lia.
    + exact Hon.
  - rewrite (markOfflineShips_map now t Hids). apply map_ext.
    intros row. apply expire_flipped.
Qed.

Lemma online_iff_seen_within_threshold_witness :
  Db.unique_ids fleet
  /\ fst (isShipOnline 1300000 "ship-2" fleet) = true
  /\ map (fun row => isOnline (snd row)) (markOfflineShips 1300000 fleet)
     = [false; true].
Proof.
  assert (Hids : Db.unique_ids fleet).
  { repeat constructor; simpl; intuition discriminate. }
  pose proof (online_iff_seen_within_threshold 1300000 fleet Hids)
    as (_ & Honline & _ & Hpass).
  split; [ exact Hids | split ].
  - apply (proj1 (Honline "ship-2" _ eq_refl)). reflexivity.
  - rewrite Hpass. reflexivity.
Defined.

(** A session whose threshold is stored as zero, last seen one second before
    the question is asked. *)
Definition zero_threshold : table :=
  [ (1, {| shipId := "ship-3"; lastSeenAt := 1000000; isOnline := false;
           onlineThreshold := Some 0; lastSyncAt := None;
           lastSyncStatus := None; totalSyncs := 0; metadata := JObj [] |}) ].

(** C7 as stated fails for a session whose [onlineThreshold] is stored as
    zero: the peer is reported online, and stored as online, although
    [now - lastSeenAt < onlineThreshold] is false. *)
Lemma zero_threshold_is_the_default :
  Db.findOne (where_ship "ship-3") zero_threshold
  = Some (1, {| shipId := "ship-3"; lastSeenAt := 1000000; isOnline := false;
                onlineThreshold := Some 0; lastSyncAt := None;
                lastSyncStatus := None; totalSyncs := 0; metadata := JObj [] |})
  /\ fst (isShipOnline 1001000 "ship-3" zero_threshold) = true
  /\ map (fun row => isOnline (snd row))
       (snd (isShipOnline 1001000 "ship-3" zero_threshold)) = [true]
  /\ ~ (1001000 - 1000000 < 0).
Proof. repeat split. lia. Qed.

(** ** Activity and liveness *)

(** The answer of [isShipOnline] is read off the first session of the
    ship. *)
Definition seenRecently (now : Z) (row : Z * SyncSession) : bool :=
  timeSinceLastSeen now (snd row) <? thresholdOf (snd row).

Lemma isShipOnline_answer now id t :
  fst (isShipOnline now id t)
  = match option_map (seenRecently now) (Db.findOne (where_ship id) t) with
    | Some online => online
    | None => false
    end.
Proof.
  unfold isShipOnline, seenRecently.
  destruct (Db.findOne (where_ship id) t) as [session | ]; [ | reflexivity ].
  cbn [option_map]. now destruct (negb _).
Qed.

(** The session [recordShipActivity] leaves for the ship. *)
Lemma recordShipActivity_found now id meta t :
  Db.unique_ids t ->
  exists session,
    Db.findOne (where_ship id) (recordShipActivity now id meta t) = Some session
    /\ lastSeenAt (snd session) = now
    /\ isOnline (snd session) = true
    /\ thresholdOf (snd session)
       = match Db.findOne (where_ship id) t with
         | Some known => thresholdOf (snd known)
         | None => 300000
         end.
Proof.
  intros Hids. unfold recordShipActivity.
  destruct (Db.findOne (where_ship id) t) as [known | ] eqn:Hfind.
  - eexists. split.
    { apply (Db.findOne_update_by_id _ _ _ known Hids Hfind).
      apply Db.findOne_some in Hfind as [_ Hsat]. exact Hsat. }
    repeat split.
  - eexists. split.
    { unfold Db.create, Db.findOne. cbn [snd]. rewrite Db.find_app_last.
      unfold Db.findOne in Hfind. rewrite Hfind.
      unfold where_ship. cbn. now rewrite String.eqb_refl. }
    repeat split.
Qed.

Lemma recordShipActivity_frame now id meta t id' :
  Db.unique_ids t -> id' <> id ->
  Db.findOne (where_ship id') (recordShipActivity now id meta t)
  = Db.findOne (where_ship id') t.
Proof.
  intros Hids Hother. unfold recordShipActivity.
  destruct (Db.findOne (where_ship id) t) as [known | ] eqn:Hfind.
  - apply Db.findOne_some in Hfind as [Hin Hsat].
    unfold where_ship in Hsat. apply String.eqb_eq in Hsat.
    apply Db.findOne_update_frame. intros r Hr Hrid.
    unfold Db.by_id in Hrid. apply Z.eqb_eq in Hrid.
    assert (r = known) by now apply (Db.same_id_same_row t). subst r.
    split; unfold where_ship; cbn [fst snd shipId]; apply String.eqb_neq;
      congruence.
  - unfold Db.create, Db.findOne. cbn [snd]. rewrite Db.find_app_last.
    destruct (find (where_ship id') t); [ reflexivity | ].
    unfold where_ship. cbn [fst snd shipId].
    replace (id =? id')%string with false; [ reflexivity | ].
    symmetry. apply String.eqb_neq. congruence.
Qed.

(** X19. After [recordShipActivity] at time [now], the ship is reported online
    at time [now'] exactly when [now' - now] is below its threshold: the
    [onlineThreshold] its session had stored, and 300 000 ms when that
    column was empty or zero or the ship had no session.  The sessions of
    the other ships are as they were. *)
Theorem ship_is_online_after_activity (now now' : Z) (id : string)
    (meta : option json) (t : table) :
  Db.unique_ids t ->
  let t' := recordShipActivity now id meta t in
  match option_map (fun known => onlineThreshold (snd known))
          (Db.findOne (where_ship id) t) with
  | Some (Some 0) | Some None | None =>
      fst (isShipOnline now' id t') = true <-> now' - now < 300000
  | Some (Some stored) =>
      fst (isShipOnline now' id t') = true <-> now' - now < stored
  end
  /\ (forall id', id' <> id ->
        Db.findOne (where_ship id') t' = Db.findOne (where_ship id') t).
Proof.
  intros Hids t'. split.
  - assert (Hsays : fst (isShipOnline now' id t') = true
                    <-> now' - now
                        < match Db.findOne (where_ship id) t with
                          | Some known => thresholdOf (snd known)
                          | None => 300000
                          end).
    { rewrite isShipOnline_answer.
      destruct (recordShipActivity_found now id meta t Hids)
        as (session & Hfind & Hseen & _ & Hthreshold).
      fold t' in Hfind. rewrite Hfind. cbn [option_map].
      unfold seenRecently, timeSinceLastSeen. rewrite Hseen, Hthreshold.
      apply Z.ltb_lt. }
    destruct (Db.findOne (where_ship id) t) as [known | ]; cbn [option_map];
      [ | exact Hsays ].
    rewrite thresholdOf_cases in Hsays.
    now destruct (onlineThreshold (snd known)) as [ [ | p | p ] | ].
  - intros id' Hother. now apply recordShipActivity_frame.
Qed.

Lemma ship_is_online_after_activity_witness :
  Db.unique_ids fleet
  /\ fst (isShipOnline 1599999 "ship-1"
            (recordShipActivity 1300000 "ship-1" None fleet)) = true
  /\ fst (isShipOnline 1600000 "ship-1"
            (recordShipActivity 1300000 "ship-1" None fleet)) = false.
Proof.
  assert (Hids : Db.unique_ids fleet).
  { repeat constructor; simpl; intuition discriminate. }
  split; [ exact Hids | split ].
  - apply (proj1 (ship_is_online_after_activity 1300000 1599999 "ship-1" None
                    fleet Hids)).
    reflexivity.
  - reflexivity.
Defined.

(** ** Sync reports *)

(** X20. [updateShipSyncStatus] records the time and the status of the sync on
    the session of the ship and adds [syncCount] to its [totalSyncs], or 1
    when [syncCount] is absent or zero, as long as the new total is within
    [2^53] in magnitude, the range in which a number counts exactly; it does
    nothing for a ship without a session.  A sync report is not an activity:
    the answer of [isShipOnline] is, for every ship and at every time, what
    it was before. *)
Theorem updateShipSyncStatus_counts_syncs (now : Z) (id : string)
    (status : string) (syncCount : option Z) (t : table) :
  Db.unique_ids t ->
  let t' := updateShipSyncStatus now id status syncCount t in
  (Db.findOne (where_ship id) t = None -> t' = t)
  /\ (forall session,
        Db.findOne (where_ship id) t = Some session ->
        Z.abs (totalSyncs (snd session)
               + match syncCount with
                 | Some n => if n =? 0 then 1 else n
                 | None => 1
                 end) <= 2 ^ 53 ->
        exists session',
          Db.findOne (where_ship id) t' = Some session'
          /\ totalSyncs (snd session')
             = totalSyncs (snd session)
               + match syncCount with
                 | Some n => if n =? 0 then 1 else n
                 | None => 1
                 end
          /\ lastSyncAt (snd session') = Some now
          /\ lastSyncStatus (snd session') = Some status)
  /\ (forall now' id',
        fst (isShipOnline now' id' t') = fst (isShipOnline now' id' t)).
Proof.
  intros Hids t'. subst t'. unfold updateShipSyncStatus.
  split; [ | split ].
  - now intros ->.
  - intros session Hfind Hsafe. rewrite Hfind. eexists. split.
    { apply (Db.findOne_update_by_id _ _ _ session Hids Hfind).
      apply Db.findOne_some in Hfind as [_ Hsat]. exact Hsat. }
    cbn [snd totalSyncs lastSyncAt lastSyncStatus].
    split; [ | split; reflexivity ].
    destruct syncCount as [n | ]; [ | now apply Number_add_exact ].
    destruct (n =? 0); now apply Number_add_exact.
  - intros now' id'. rewrite !isShipOnline_answer.
    destruct (Db.findOne (where_ship id) t) as [session | ]; [ | reflexivity ].
    match goal with |- context [Db.update ?w ?f t] =>
      rewrite (Db.findOne_update_view (seenRecently now') (where_ship id') w f t
                 (fun r => eq_refl) (fun r => eq_refl))
    end.
    reflexivity.
Qed.

Lemma updateShipSyncStatus_counts_syncs_witness :
  Db.unique_ids fleet
  /\ option_map (fun row => totalSyncs (snd row))
       (Db.findOne (where_ship "ship-2")
          (updateShipSyncStatus 1300000 "ship-2" "partial" (Some 0) fleet))
     = Some 5
  /\ fst (isShipOnline 1600000 "ship-1"
            (updateShipSyncStatus 1300000 "ship-1" "success" (Some 3) fleet))
     = fst (isShipOnline 1600000 "ship-1" fleet).
Proof.
  assert (Hids : Db.unique_ids fleet).
  { repeat constructor; simpl; intuition discriminate. }
  split; [ exact Hids | split ].
  - destruct (proj1 (proj2 (updateShipSyncStatus_counts_syncs 1300000 "ship-2"
                              "partial" (Some 0) fleet Hids)) _ eq_refl)
      as (session' & Hfind & Htotal & _).
    + vm_compute. discriminate.
    + rewrite Hfind. cbn [option_map]. now rewrite Htotal.
  - exact (proj2 (proj2 (updateShipSyncStatus_counts_syncs 1300000 "ship-1"
                           "success" (Some 3) fleet Hids)) 1600000 "ship-1").
Defined.

(** ** The janitor pass *)

Lemma expire_idempotent now row : expire now (expire now row) = expire now row.
Proof.
  unfold expire. destruct (isOnline (snd row) && stale now (snd row)) eqn:E.
  - reflexivity.
  - now rewrite E.
Qed.

(** X21. [markOfflineShips] is idempotent: a second pass at the same time changes
    nothing.  The pass keeps the sessions and their ids, and never turns a
    session online. *)
Theorem markOfflineShips_is_idempotent (now : Z) (t : table) :
  Db.unique_ids t ->
  markOfflineShips now (markOfflineShips now t) = markOfflineShips now t
  /\ Db.ids (markOfflineShips now t) = Db.ids t
  /\ (forall row, In row (markOfflineShips now t) -> isOnline (snd row) = true ->
                  In row t).
Proof.
  intros Hids. rewrite (markOfflineShips_map now t Hids).
  assert (Hsame : Db.ids (map (expire now) t) = Db.ids t).
  { unfold Db.ids. rewrite map_map. apply map_ext. intros row.
    unfold expire. now destruct (_ && _). }
  split; [ | split ].
  - rewrite markOfflineShips_map by (unfold Db.unique_ids; now rewrite Hsame).
    rewrite map_map. apply map_ext. intros row. apply expire_idempotent.
  - exact Hsame.
  - intros row Hin Hon. apply in_map_iff in Hin as (r & <- & Hin).
    unfold expire in *. destruct (isOnline (snd r) && stale now (snd r));
      [ discriminate Hon | exact Hin ].
Qed.

Lemma markOfflineShips_is_idempotent_witness :
  Db.unique_ids fleet
  /\ markOfflineShips 1300000 (markOfflineShips 1300000 fleet)
     = markOfflineShips 1300000 fleet.
Proof.
  assert (Hids : Db.unique_ids fleet).
  { repeat constructor; simpl; intuition discriminate. }
  split; [ exact Hids | ].
  exact (proj1 (markOfflineShips_is_idempotent 1300000 fleet Hids)).
Defined.

End ShipTracker.

(* ===================================================================== *)
(** * The media-sync service: URL rewriting *)
(* ===================================================================== *)

Module MediaSync.

(** ** [String.prototype.includes] and [String.prototype.replace] *)

(** [s.includes(p)] *)
Fixpoint str_includes (p s : string) : bool :=
  String.prefix p s
  || match s with
     | EmptyString => false
     | String _ s' => str_includes p s'
     end.

Fixpoint str_drop (n : nat) (s : string) : string :=
  match n, s with
  | O, _ => s
  | S n', String _ s' => str_drop n' s'
  | S _, EmptyString => EmptyString
  end.

(** The expansion of the replacement text of [replace] for a pattern
    without capture groups: [$$] is a dollar sign, [$&] the matched text,
    [$`] the text before the match and [$'] the text after it; any other
    dollar sign stands for itself. *)
Fixpoint getSubstitution (matched before after replacement : string) : string :=
  match replacement with
  | EmptyString => EmptyString
  | String c rest =>
      if (c =? "$")%char then
        match rest with
        | String d rest' =>
            if (d =? "$")%char then
              String "$" (getSubstitution matched before after rest')
            else if (d =? "&")%char then
              matched +++ getSubstitution matched before after rest'
            else if (d =? "`")%char then
              before +++ getSubstitution matched before after rest'
            else if (d =? "'")%char then
              after +++ getSubstitution matched before after rest'
            else String c (getSubstitution matched before after rest)
        | EmptyString => String c (getSubstitution matched before after rest)
        end
      else String c (getSubstitution matched before after rest)
  end.

(** [s.replace(new RegExp(escapeRegex(pattern), 'g'), replacement)]: the
    escaped pattern matches [pattern] literally, and the matches are taken
    from left to right without overlap.  [before] is the text already
    scanned and [skip] the number of characters of the current match still
    to pass over.  The empty pattern matches before every character and at
    the end. *)
Fixpoint replaceFrom (pattern replacement before : string) (skip : nat)
    (s : string) : string :=
  match s with
  | EmptyString =>
      match skip, pattern with
      | O, EmptyString => getSubstitution pattern before EmptyString replacement
      | _, _ => EmptyString
      end
  | String c s' =>
      let before' := before +++ String c EmptyString in
      match skip with
      | S k => replaceFrom pattern replacement before' k s'
      | O =>
          if String.prefix pattern s then
            getSubstitution pattern before (str_drop (String.length pattern) s)
              replacement
            +++ match pattern with
                | EmptyString =>
                    String c (replaceFrom pattern replacement before' O s')
                | String _ _ =>
                    replaceFrom pattern replacement before'
                      (String.length pattern - 1) s'
                end
          else String c (replaceFrom pattern replacement before' O s')
      end
  end.

Definition replaceAll (pattern replacement s : string) : string :=
  replaceFrom pattern replacement EmptyString O s.

(** ** [transformUrls] *)

(** [transformUrls(data, fromBaseUrl, toBaseUrl, mediaFields, depth = 0)].
    Below depth 20 every string that contains [fromBaseUrl] has all its
    occurrences replaced; arrays and objects are rebuilt one level deeper,
    an object by assigning its entries to a fresh one. *)
Fixpoint transformUrls (data : json) (fromBaseUrl toBaseUrl : string)
    (mediaFields : list string) (depth : nat) : json :=
  if (20 <? depth)%nat then data
  else
    match data with
    | JNull => data
    | JStr s =>
        if str_includes fromBaseUrl s
        then JStr (replaceAll fromBaseUrl toBaseUrl s)
        else data
    | JArr items =>
        JArr (map (fun item =>
                     transformUrls item fromBaseUrl toBaseUrl mediaFields (S depth))
                  items)
    | JObj fields =>
        JObj (rebuild (fun _ value =>
                         transformUrls value fromBaseUrl toBaseUrl mediaFields
                           (S depth))
                      fields)
    | _ => data
    end.

(** ** The configuration and the URL helpers *)

(** What [getMediaConfig()] returns when media sync is enabled, with the
    defaults filled in; the functions below take [None] for the [null] it
    returns when media sync is disabled. *)
Record MediaConfig := {
  transformUrlsEnabled : bool;
  ossBaseUrl : string;
  ossUploadPath : string;
  minioBaseUrl : string;
  mediaFields : list string
}.

(** [s.replace(pattern, replacement)] with a string pattern: the first
    occurrence is replaced, and the replacement text is expanded as for a
    regular expression. *)
Fixpoint replaceFirstFrom (pattern replacement before s : string) : string :=
  if String.prefix pattern s then
    getSubstitution pattern before (str_drop (String.length pattern) s) replacement
    +++ str_drop (String.length pattern) s
  else
    match s with
    | EmptyString => EmptyString
    | String c s' =>
        String c (replaceFirstFrom pattern replacement
                    (before +++ String c EmptyString) s')
    end.

Definition replaceFirst (pattern replacement s : string) : string :=
  replaceFirstFrom pattern replacement EmptyString s.

(** [s.replace(/\/$/, '')] *)
Fixpoint stripTrailingSlash (s : string) : string :=
  match s with
  | EmptyString => EmptyString
  | String c s' =>
      if (c =? "/")%char && (s' =? "")%string then EmptyString
      else String c (stripTrailingSlash s')
  end.

(** [s.replace(/^\//, '')] *)
Definition stripLeadingSlash (s : string) : string :=
  match s with
  | String c s' => if (c =? "/")%char then s' else s
  | EmptyString => s
  end.

Definition transformToReplica (config : option MediaConfig) (data : json) : json :=
  match config with
  | None => data
  | Some c =>
      if negb (transformUrlsEnabled c) then data
      else if (ossBaseUrl c =? "")%string || (minioBaseUrl c =? "")%string then data
      else transformUrls data (ossBaseUrl c) (minioBaseUrl c) (mediaFields c) 0
  end.

Definition transformToMaster (config : option MediaConfig) (data : json) : json :=
  match config with
  | None => data
  | Some c =>
      if negb (transformUrlsEnabled c) then data
      else if (ossBaseUrl c =? "")%string || (minioBaseUrl c =? "")%string then data
      else transformUrls data (minioBaseUrl c) (ossBaseUrl c) (mediaFields c) 0
  end.

Definition getMinioUrl (config : option MediaConfig) (objectPath : string) : string :=
  match config with
  | None => objectPath
  | Some c => minioBaseUrl c +++ "/" +++ objectPath
  end.

Definition getOssUrl (config : option MediaConfig) (objectPath : string) : string :=
  match config with
  | None => objectPath
  | Some c => ossBaseUrl c +++ "/" +++ objectPath
  end.

(** [urls.add(value)] on a [Set], kept in insertion order. *)
Definition Set_add (value : string) (urls : list string) : list string :=
  if existsb (String.eqb value) urls then urls else urls ++ [value].

(** The local function [extractFromValue] of [extractMediaUrls]; the set it
    fills is threaded through. *)
Fixpoint extractFromValue (ossBaseUrl : string) (value : json)
    (urls : list string) : list string :=
  match value with
  | JStr s => if str_includes ossBaseUrl s then Set_add s urls else urls
  | JArr items =>
      fold_left (fun acc item => extractFromValue ossBaseUrl item acc) items urls
  | JObj fields =>
      fold_left (fun acc kv => extractFromValue ossBaseUrl (snd kv) acc) fields urls
  | _ => urls
  end.

Definition extractMediaUrls (config : option MediaConfig) (data : json)
  : list string :=
  match config with
  | None => []
  | Some c => extractFromValue (ossBaseUrl c) data []
  end.

(** [urlToObjectPath(url)]; [None] is [null]. *)
Definition urlToObjectPath (config : option MediaConfig) (url : string)
  : option string :=
  match config with
  | None => None
  | Some c =>
      if str_includes (ossBaseUrl c) url then
        Some (replaceFirst (ossBaseUrl c) ""
                (replaceFirst (ossBaseUrl c +++ "/") "" url))
      else if str_includes (minioBaseUrl c) url then
        Some (replaceFirst (minioBaseUrl c) ""
                (replaceFirst (minioBaseUrl c +++ "/") "" url))
      else None
  end.

Definition minioUrlToOssUrl (config : option MediaConfig) (minioUrl : string)
  : string :=
  match config with
  | None => minioUrl
  | Some c =>
      if (minioUrl =? "")%string then minioUrl
      else
        let minioBase := stripTrailingSlash (minioBaseUrl c) in
        let ossBase := stripTrailingSlash (ossBaseUrl c) in
        if str_includes minioBase minioUrl then
          let path := stripLeadingSlash (replaceFirst minioBase "" minioUrl) in
          let ossPath :=
            if (ossUploadPath c =? "")%string then path
            else stripTrailingSlash (ossUploadPath c) +++ "/" +++ path in
          ossBase +++ "/" +++ ossPath
        else minioUrl
  end.

Definition ossUrlToMinioUrl (config : option MediaConfig) (ossUrl : string)
  : string :=
  match config with
  | None => ossUrl
  | Some c =>
      if (ossUrl =? "")%string then ossUrl
      else
        let ossBase := stripTrailingSlash (ossBaseUrl c) in
        let minioBase := stripTrailingSlash (minioBaseUrl c) in
        if str_includes ossBase ossUrl then
          let path := stripLeadingSlash (replaceFirst ossBase "" ossUrl) in
          let path :=
            if (ossUploadPath c =? "")%string then path
            else
              let uploadPrefix := stripTrailingSlash (ossUploadPath c) +++ "/" in
              if String.prefix uploadPrefix path
              then str_drop (String.length uploadPrefix) path
              else path in
          minioBase +++ "/" +++ path
        else ossUrl
  end.

Example replace_every_occurrence :
  replaceAll "ab" "X" "abcabab-b" = "XcXX-b".
Proof. reflexivity. Qed.

Example replace_with_dollar_patterns :
  replaceAll "b" "[$&|$`|$'|$$|$1]" "abc" = "a[b|a|c|$|$1]c".
Proof. reflexivity. Qed.

Example replace_empty_pattern :
  replaceAll "" "-" "ab" = "-a-b-".
Proof. reflexivity. Qed.

(** ** Rewriting there and back *)

(** The replacement text has no dollar sign, so it is inserted as it is. *)
Fixpoint no_dollar (s : string) : bool :=
  match s with
  | EmptyString => true
  | String c s' => negb (c =? "$")%char && no_dollar s'
  end.

(** Neither base URL occurs in [s]. *)
Definition clean (A B s : string) : bool :=
  negb (str_includes A s) && negb (str_includes B s).

(** [s] holds no URL, or is one URL under [A]: the base [A] followed by a
    path in which neither base occurs. *)
Definition plain_or_under (A B s : string) : bool :=
  clean A B s
  || (String.prefix A s && clean A B (str_drop (String.length A) s)).

(** Every string of the payload is of that form. *)
Fixpoint urls_under (A B : string) (v : json) : bool :=
  match v with
  | JStr s => plain_or_under A B s
  | JArr items => forallb (urls_under A B) items
  | JObj fields => forallb (fun kv => urls_under A B (snd kv)) fields
  | _ => true
  end.

Lemma getSubstitution_plain matched before after replacement :
  no_dollar replacement = true ->
  getSubstitution matched before after replacement = replacement.
Proof.
  induction replacement as [ | c rest IH ]; simpl; [ reflexivity | ].
  intros H. apply andb_true_iff in H as [Hc Hrest].
  apply negb_true_iff in Hc. rewrite Hc. now rewrite IH.
Qed.

Section Replace.

Variables pattern replacement : string.
Hypothesis Hplain : no_dollar replacement = true.

Lemma replaceFrom_before (s before before' : string) (skip : nat) :
  replaceFrom pattern replacement before skip s
  = replaceFrom pattern replacement before' skip s.
Proof.
  revert before before' skip.
  induction s as [ | c s IH ]; intros before before' skip; cbn [replaceFrom].
  - destruct skip, pattern; try reflexivity.
    now rewrite !getSubstitution_plain.
  - destruct skip as [ | k ]; [ | apply IH ].
    rewrite !getSubstitution_plain by exact Hplain.
    destruct (String.prefix pattern (String c s)).
    + f_equal. destruct pattern; [ f_equal | ]; apply IH.
    + f_equal. apply IH.
Qed.

Lemma str_includes_empty (s : string) : str_includes EmptyString s = true.
Proof. destruct s; reflexivity. Qed.

Lemma replaceFrom_absent (s before : string) :
  str_includes pattern s = false ->
  replaceFrom pattern replacement before O s = s.
Proof.
  revert before. induction s as [ | c s IH ]; intros before Habsent.
  - destruct pattern; [ discriminate Habsent | reflexivity ].
  - cbn [str_includes] in Habsent. apply orb_false_iff in Habsent as [Hpre Hrest].
    cbn [replaceFrom]. rewrite Hpre. f_equal. now apply IH.
Qed.

Lemma replaceFrom_skip (u s before : string) :
  replaceFrom pattern replacement before (String.length u) (u +++ s)
  = replaceFrom pattern replacement before O s.
Proof.
  revert before. induction u as [ | c u IH ]; intros before; [ reflexivity | ].
  cbn [String.length String.append replaceFrom]. rewrite IH.
  apply replaceFrom_before.
Qed.

End Replace.

Lemma prefix_append (p q : string) : String.prefix p (p +++ q) = true.
Proof.
  induction p as [ | c p IH ]; simpl; [ now destruct q | ].
  destruct (ascii_dec c c); [ exact IH | congruence ].
Qed.

Lemma prefix_split (p s : string) :
  String.prefix p s = true -> s = p +++ str_drop (String.length p) s.
Proof.
  revert s. induction p as [ | c p IH ]; intros s; [ reflexivity | ].
  destruct s as [ | d s ]; simpl; [ intros H; discriminate H | ].
  destruct (ascii_dec c d) as [-> | ]; [ | intros H; discriminate H ].
  intros H. f_equal. now apply IH.
Qed.

Lemma replaceAll_under (A B path : string) :
  no_dollar B = true ->
  str_includes A path = false ->
  replaceAll A B (A +++ path) = B +++ path.
Proof.
  intros HB Hpath. unfold replaceAll.
  destruct A as [ | a A' ].
  - now rewrite str_includes_empty in Hpath.
  - cbn [String.append replaceFrom].
    change (String a (A' +++ path)) with (String a A' +++ path).
    rewrite prefix_append.
    rewrite (getSubstitution_plain _ _ _ _ HB).
    cbn [String.length]. rewrite Nat.sub_succ, Nat.sub_0_r.
    rewrite (replaceFrom_skip _ _ HB).
    now rewrite (replaceFrom_absent _ _ _ _ Hpath).
Qed.

Lemma str_includes_append (p q : string) : str_includes p (p +++ q) = true.
Proof.
  destruct p as [ | c p ]; [ apply str_includes_empty | ].
  cbn [String.append str_includes].
  change (String c (p +++ q)) with (String c p +++ q).
  now rewrite prefix_append.
Qed.

(** One string, rewritten from [A] to [B] and back. *)
Definition rewriteString (fromBaseUrl toBaseUrl s : string) : string :=
  if str_includes fromBaseUrl s then replaceAll fromBaseUrl toBaseUrl s else s.

Lemma rewriteString_roundtrip (A B s : string) :
  no_dollar A = true -> no_dollar B = true ->
  plain_or_under A B s = true ->
  rewriteString B A (rewriteString A B s) = s.
Proof.
  intros HA HB Hok. unfold plain_or_under in Hok.
  apply orb_true_iff in Hok as [Hclean | Hunder].
  - unfold clean in Hclean. apply andb_true_iff in Hclean as [Hna Hnb].
    apply negb_true_iff in Hna, Hnb.
    unfold rewriteString. now rewrite Hna, Hnb.
  - apply andb_true_iff in Hunder as [Hpre Hclean].
    unfold clean in Hclean. apply andb_true_iff in Hclean as [Hna Hnb].
    apply negb_true_iff in Hna, Hnb.
    rewrite (prefix_split A s Hpre).
    set (path := str_drop (String.length A) s) in *.
    unfold rewriteString.
    rewrite str_includes_append, (replaceAll_under A B path HB Hna).
    rewrite str_includes_append, (replaceAll_under B A path HA Hnb).
    reflexivity.
Qed.

Lemma transformUrls_string (s A B : string) (mediaFields : list string)
    (depth : nat) :
  (20 <? depth)%nat = false ->
  transformUrls (JStr s) A B mediaFields depth = JStr (rewriteString A B s).
Proof.
  intros Hd. cbn [transformUrls]. rewrite Hd. unfold rewriteString.
  now destruct (str_includes A s).
Qed.

Lemma transformUrls_roundtrip_at (A B : string) (mediaFields : list string)
    (x : json) :
  no_dollar A = true -> no_dollar B = true ->
  urls_under A B x = true ->
  no_proto x = true ->
  forall depth,
    transformUrls (transformUrls x A B mediaFields depth) B A mediaFields depth = x.
Proof.
  intros HA HB.
  induction x as [ | b | n | s | items IH | fields IH ] using json_induction;
    intros Hok Hown depth;
    destruct (20 <? depth)%nat eqn:Hd;
    try (cbn [transformUrls]; rewrite Hd; cbn [transformUrls]; rewrite Hd;
         reflexivity).
  - rewrite !transformUrls_string by exact Hd.
    f_equal. now apply rewriteString_roundtrip.
  - cbn [transformUrls]. rewrite Hd. cbn [transformUrls]. rewrite Hd.
    f_equal. rewrite map_map. rewrite <- (map_id items) at 2.
    apply map_ext_in. intros item Hin.
    cbn [urls_under] in Hok. rewrite forallb_forall in Hok.
    rewrite Forall_forall in IH.
    apply IH; [ exact Hin | now apply Hok | now apply (no_proto_item items) ].
  - pose proof (no_proto_keys fields Hown) as Hkeys.
    cbn [transformUrls]. rewrite Hd. rewrite (rebuild_no_proto _ fields Hkeys).
    cbn [transformUrls]. rewrite Hd.
    rewrite rebuild_no_proto
      by (rewrite (keys_map_values (fun k => negb (k =? "__proto__")%string)
                     (fun _ v => transformUrls v A B mediaFields (S depth)));
          exact Hkeys).
    f_equal. rewrite map_map. rewrite <- (map_id fields) at 2.
    apply map_ext_in. intros [k v] Hin.
    cbn [urls_under] in Hok. rewrite forallb_forall in Hok.
    rewrite Forall_forall in IH. cbn [fst snd]. f_equal.
    apply (IH (k, v) Hin); [ exact (Hok (k, v) Hin) | ].
    exact (no_proto_field fields (k, v) Hown Hin).
Qed.

Definition oss : string := "https://cdn.example.com/uploads".
Definition minio : string := "http://localhost:9000/media".

Definition from_master : json :=
  JObj [ ("title", JStr "Deck plan");
         ("cover", JObj [ ("url", JStr "https://cdn.example.com/uploads/deck.jpg");
                          ("formats", JArr [ JStr "https://cdn.example.com/uploads/thumb_deck.jpg" ]) ]) ].

Definition from_replica : json :=
  JObj [ ("title", JStr "Deck plan");
         ("cover", JObj [ ("url", JStr "http://localhost:9000/media/deck.jpg") ]) ].

Example master_urls_become_local :
  transformUrls from_master oss minio [] 0
  = JObj [ ("title", JStr "Deck plan");
           ("cover", JObj [ ("url", JStr "http://localhost:9000/media/deck.jpg");
                            ("formats", JArr [ JStr "http://localhost:9000/media/thumb_deck.jpg" ]) ]) ].
Proof. reflexivity. Qed.

(** C8, as the code has it. For every payload whose strings each hold no
    URL of either base or are one URL under [A] ([A] followed by a path in
    which neither base occurs) and whose objects have no key [__proto__] of
    their own, and for base URLs without a dollar sign, rewriting from [A] to
    [B] and then from [B] to [A] gives the payload back. *)
Theorem transformUrls_roundtrip (A B : string) (mediaFields : list string)
    (x : json) :
  no_dollar A = true ->
  no_dollar B = true ->
  urls_under A B x = true ->
  no_proto x = true ->
  transformUrls (transformUrls x A B mediaFields 0) B A mediaFields 0 = x.
Proof.
  intros HA HB Hok Hown. now apply transformUrls_roundtrip_at.
Qed.

Lemma transformUrls_roundtrip_witness :
  no_dollar oss = true
  /\ no_dollar minio = true
  /\ urls_under oss minio from_master = true
  /\ no_proto from_master = true
  /\ transformUrls (transformUrls from_master oss minio [] 0) minio oss [] 0
     = from_master.
Proof.
  refine (conj eq_refl (conj eq_refl (conj eq_refl (conj eq_refl _)))).
  apply (transformUrls_roundtrip oss minio [] from_master); reflexivity.
Defined.

(** A payload without any URL, one of whose objects has a key [__proto__] of
    its own, as [JSON.parse] builds it from a message that has one. *)
Definition with_proto_key : json :=
  JObj [ ("title", JStr "Deck plan");
         ("__proto__", JObj [ ("polluted", JBool true) ]) ].

(** C8 as stated fails on a payload with a URL under [B]: the first pass
    leaves it alone and the second moves it under [A].  It also fails on a
    payload one of whose objects has a key [__proto__] of its own, which the
    rebuilt object does not get, although the payload holds no URL at
    all. *)
Lemma roundtrip_changes_the_payload :
  (transformUrls (transformUrls from_replica oss minio [] 0) minio oss [] 0
   = JObj [ ("title", JStr "Deck plan");
            ("cover", JObj [ ("url", JStr "https://cdn.example.com/uploads/deck.jpg") ]) ]
   /\ transformUrls (transformUrls from_replica oss minio [] 0) minio oss [] 0
      <> from_replica)
  /\ (transformUrls (transformUrls with_proto_key oss minio [] 0) minio oss [] 0
      = JObj [ ("title", JStr "Deck plan") ]
      /\ transformUrls (transformUrls with_proto_key oss minio [] 0) minio oss [] 0
         <> with_proto_key).
Proof. repeat split; discriminate. Qed.

(** ** Object paths and URLs *)

Lemma str_append_assoc (a b c : string) : (a +++ b) +++ c = a +++ b +++ c.
Proof. induction a as [ | x a IH ]; simpl; [ reflexivity | now rewrite IH ]. Qed.

Lemma str_drop_append (p s : string) : str_drop (String.length p) (p +++ s) = s.
Proof. induction p as [ | c p IH ]; simpl; [ reflexivity | exact IH ]. Qed.

Lemma replaceFirstFrom_prefix (p before s : string) :
  String.prefix p s = true ->
  replaceFirstFrom p "" before s = str_drop (String.length p) s.
Proof.
  intros Hpre. destruct s; cbn [replaceFirstFrom]; now rewrite Hpre.
Qed.

Lemma replaceFirst_prefix (p s : string) : replaceFirst p "" (p +++ s) = s.
Proof.
  unfold replaceFirst.
  rewrite replaceFirstFrom_prefix by apply prefix_append.
  apply str_drop_append.
Qed.

Lemma replaceFirstFrom_absent (p r before s : string) :
  str_includes p s = false -> replaceFirstFrom p r before s = s.
Proof.
  revert before. induction s as [ | c s IH ]; intros before Habsent;
    cbn [str_includes] in Habsent; apply orb_false_iff in Habsent as [Hpre Hrest];
    cbn [replaceFirstFrom]; rewrite Hpre; [ reflexivity | ].
  f_equal. now apply IH.
Qed.

Lemma stripLeadingSlash_slash (s : string) : stripLeadingSlash ("/" +++ s) = s.
Proof. reflexivity. Qed.

Lemma nonempty_url (a b : string) : (a +++ "/" +++ b =? "")%string = false.
Proof. apply String.eqb_neq. destruct a; discriminate. Qed.

(** X22. [urlToObjectPath] gives back the object path [getOssUrl] and
    [getMinioUrl] built the URL from: for an OSS URL when the OSS base does
    not occur in the path, for a MinIO URL when the OSS base does not occur
    in the URL and the MinIO base does not occur in the path. *)
Theorem urlToObjectPath_inverts_the_url_builders (c : MediaConfig)
    (objectPath : string) :
  (str_includes (ossBaseUrl c) objectPath = false ->
   urlToObjectPath (Some c) (getOssUrl (Some c) objectPath) = Some objectPath)
  /\ (str_includes (ossBaseUrl c) (getMinioUrl (Some c) objectPath) = false ->
      str_includes (minioBaseUrl c) objectPath = false ->
      urlToObjectPath (Some c) (getMinioUrl (Some c) objectPath)
      = Some objectPath).
Proof.
  unfold urlToObjectPath, getOssUrl, getMinioUrl. split.
  - intros Habsent. rewrite str_includes_append.
    rewrite <- str_append_assoc, replaceFirst_prefix.
    unfold replaceFirst. now rewrite replaceFirstFrom_absent.
  - intros Hoss Habsent. rewrite Hoss, str_includes_append.
    rewrite <- str_append_assoc, replaceFirst_prefix.
    unfold replaceFirst. now rewrite replaceFirstFrom_absent.
Qed.

Definition media : MediaConfig :=
  {| transformUrlsEnabled := true;
     ossBaseUrl := oss;
     ossUploadPath := "strapi-uploads/";
     minioBaseUrl := minio;
     mediaFields := ["url"; "formats"] |}.

Lemma urlToObjectPath_inverts_the_url_builders_witness :
  str_includes (ossBaseUrl media) "deck.jpg" = false
  /\ str_includes (ossBaseUrl media) (getMinioUrl (Some media) "deck.jpg") = false
  /\ str_includes (minioBaseUrl media) "deck.jpg" = false
  /\ urlToObjectPath (Some media) (getOssUrl (Some media) "deck.jpg")
     = Some "deck.jpg"
  /\ urlToObjectPath (Some media) (getMinioUrl (Some media) "deck.jpg")
     = Some "deck.jpg".
Proof.
  destruct (urlToObjectPath_inverts_the_url_builders media "deck.jpg")
    as [Hoss Hminio].
  refine (conj eq_refl (conj eq_refl (conj eq_refl (conj _ _)))).
  - exact (Hoss eq_refl).
  - exact (Hminio eq_refl eq_refl).
Defined.

Example object_path_of_a_local_url :
  urlToObjectPath (Some media) "http://localhost:9000/media/deck.jpg"
  = Some "deck.jpg".
Proof. reflexivity. Qed.

(** ** MinIO URLs and OSS URLs *)

Section UrlConversion.

Variable c : MediaConfig.

(** The OSS URL of an object path: under the upload path when one is
    configured. *)
Definition ossUrlOf (path : string) : string :=
  stripTrailingSlash (ossBaseUrl c) +++ "/"
  +++ (if (ossUploadPath c =? "")%string then path
       else stripTrailingSlash (ossUploadPath c) +++ "/" +++ path).

Definition minioUrlOf (path : string) : string :=
  stripTrailingSlash (minioBaseUrl c) +++ "/" +++ path.

Lemma minioUrlToOssUrl_under (path : string) :
  minioUrlToOssUrl (Some c) (minioUrlOf path) = ossUrlOf path.
Proof.
  unfold minioUrlToOssUrl, minioUrlOf, ossUrlOf.
  rewrite nonempty_url. cbv zeta.
  rewrite str_includes_append, replaceFirst_prefix.
  reflexivity.
Qed.

Lemma ossUrlToMinioUrl_under (path : string) :
  ossUrlToMinioUrl (Some c) (ossUrlOf path) = minioUrlOf path.
Proof.
  unfold ossUrlToMinioUrl, minioUrlOf, ossUrlOf.
  rewrite nonempty_url. cbv zeta.
  rewrite str_includes_append, replaceFirst_prefix, stripLeadingSlash_slash.
  destruct (ossUploadPath c =? "")%string; [ reflexivity | ].
  rewrite <- (str_append_assoc (stripTrailingSlash (ossUploadPath c)) "/" path).
  rewrite prefix_append, str_drop_append.
  reflexivity.
Qed.

End UrlConversion.

(** X23. A URL under the MinIO base (the base without its final slash, a slash,
    and any path) is taken by [minioUrlToOssUrl] to the OSS URL of the same
    path, under the upload path when one is configured, and
    [ossUrlToMinioUrl] brings it back unchanged. *)
Theorem minio_url_survives_the_round_trip (c : MediaConfig) (path : string) :
  minioUrlToOssUrl (Some c) (minioUrlOf c path) = ossUrlOf c path
  /\ ossUrlToMinioUrl (Some c) (minioUrlToOssUrl (Some c) (minioUrlOf c path))
     = minioUrlOf c path.
Proof.
  split; [ apply minioUrlToOssUrl_under | ].
  now rewrite minioUrlToOssUrl_under, ossUrlToMinioUrl_under.
Qed.

(** X24. An OSS URL under the upload path is taken by [ossUrlToMinioUrl] to the
    MinIO URL of the same path, the upload path removed, and
    [minioUrlToOssUrl] brings it back unchanged. *)
Theorem oss_url_survives_the_round_trip (c : MediaConfig) (path : string) :
  ossUrlToMinioUrl (Some c) (ossUrlOf c path) = minioUrlOf c path
  /\ minioUrlToOssUrl (Some c) (ossUrlToMinioUrl (Some c) (ossUrlOf c path))
     = ossUrlOf c path.
Proof.
  split; [ apply ossUrlToMinioUrl_under | ].
  now rewrite ossUrlToMinioUrl_under, minioUrlToOssUrl_under.
Qed.

Example local_url_to_oss :
  minioUrlToOssUrl (Some media) "http://localhost:9000/media/deck.jpg"
  = "https://cdn.example.com/uploads/strapi-uploads/deck.jpg".
Proof. reflexivity. Qed.

(** ** The URLs a payload refers to *)

(** The strings of a payload, at any depth. *)
Fixpoint strings (v : json) : list string :=
  match v with
  | JStr s => [s]
  | JArr items => flat_map strings items
  | JObj fields => flat_map (fun kv => strings (snd kv)) fields
  | _ => []
  end.

Lemma Set_add_spec (value : string) (urls : list string) :
  NoDup urls ->
  NoDup (Set_add value urls)
  /\ (forall s, In s (Set_add value urls) <-> In s urls \/ s = value).
Proof.
  intros Hnd. unfold Set_add.
  destruct (existsb (String.eqb value) urls) eqn:Hin.
  - split; [ exact Hnd | ]. intros s. split; [ auto | ].
    intros [H | ->]; [ exact H | ].
    apply existsb_exists in Hin as (x & Hx & Heq).
    apply String.eqb_eq in Heq. now subst.
  - split.
    + apply NoDup_app; [ exact Hnd | repeat constructor; simpl; tauto | ].
      intros s Hs [Heq | []]. subst s.
      assert (existsb (String.eqb value) urls = true); [ | congruence ].
      apply existsb_exists. exists value.
      split; [ exact Hs | apply String.eqb_refl ].
    + intros s. rewrite in_app_iff. simpl. intuition.
Qed.

Lemma extractFromValue_spec (base : string) (value : json) :
  forall urls,
    NoDup urls ->
    NoDup (extractFromValue base value urls)
    /\ (forall s, In s (extractFromValue base value urls)
                  <-> In s urls
                      \/ (In s (strings value) /\ str_includes base s = true)).
Proof.
  induction value as [ | b | n | s0 | items IH | fields IH ] using json_induction;
    intros urls Hnd; cbn [extractFromValue strings];
    try (split; [ exact Hnd | intros s; simpl; tauto ]).
  - destruct (str_includes base s0) eqn:Hin.
    + destruct (Set_add_spec s0 urls Hnd) as [Hnd' Hspec].
      split; [ exact Hnd' | ]. intros s. rewrite Hspec. simpl.
      split; [ intros [H | ->]; auto | intros [H | [[<- | []] _]]; auto ].
    + split; [ exact Hnd | ]. intros s. simpl. split; [ auto | ].
      intros [H | [[<- | []] H]]; [ exact H | congruence ].
  - revert urls Hnd. induction IH as [ | item items Hitem _ IHitems ];
      intros urls Hnd; cbn [fold_left flat_map].
    + split; [ exact Hnd | intros s; simpl; tauto ].
    + destruct (Hitem urls Hnd) as [Hnd1 Hspec1].
      destruct (IHitems _ Hnd1) as [Hnd2 Hspec2].
      split; [ exact Hnd2 | ]. intros s.
      rewrite Hspec2, Hspec1, in_app_iff. tauto.
  - revert urls Hnd. induction IH as [ | kv fields Hkv _ IHfields ];
      intros urls Hnd; cbn [fold_left flat_map].
    + split; [ exact Hnd | intros s; simpl; tauto ].
    + destruct (Hkv urls Hnd) as [Hnd1 Hspec1].
      destruct (IHfields _ Hnd1) as [Hnd2 Hspec2].
      split; [ exact Hnd2 | ]. intros s.
      rewrite Hspec2, Hspec1, in_app_iff. tauto.
Qed.

(** X25. [extractMediaUrls] returns, each once, exactly the strings of the
    payload that contain the OSS base URL, wherever they are and however
    deep; it returns nothing when media sync is disabled. *)
Theorem extractMediaUrls_finds_every_oss_url (c : MediaConfig) (data : json) :
  NoDup (extractMediaUrls (Some c) data)
  /\ (forall s, In s (extractMediaUrls (Some c) data)
                <-> In s (strings data) /\ str_includes (ossBaseUrl c) s = true)
  /\ extractMediaUrls None data = [].
Proof.
  unfold extractMediaUrls.
  destruct (extractFromValue_spec (ossBaseUrl c) data [] (NoDup_nil _))
    as [Hnd Hspec].
  split; [ exact Hnd | split; [ | reflexivity ] ].
  intros s. rewrite Hspec. simpl. tauto.
Qed.

(** ** Payloads without URLs to rewrite *)

Lemma transformUrls_nothing_to_rewrite (A B : string) (mediaFields : list string)
    (x : json) :
  (forall s, In s (strings x) -> str_includes A s = false) ->
  no_proto x = true ->
  forall depth, transformUrls x A B mediaFields depth = x.
Proof.
  induction x as [ | b | n | s0 | items IH | fields IH ] using json_induction;
    intros Hclean Hown depth; cbn [transformUrls];
    destruct (20 <? depth)%nat; try reflexivity.
  - rewrite (Hclean s0); [ reflexivity | now left ].
  - f_equal. rewrite <- (map_id items) at 2. apply map_ext_in.
    intros item Hin. rewrite Forall_forall in IH.
    apply IH; [ exact Hin | | now apply (no_proto_item items) ].
    intros s Hs. apply Hclean. cbn [strings]. apply in_flat_map. now exists item.
  - rewrite (rebuild_no_proto _ fields (no_proto_keys fields Hown)).
    f_equal. rewrite <- (map_id fields) at 2. apply map_ext_in.
    intros [k v] Hin. cbn [fst snd]. f_equal.
    rewrite Forall_forall in IH.
    apply (IH (k, v) Hin); [ | exact (no_proto_field fields (k, v) Hown Hin) ].
    intros s Hs. apply Hclean. cbn [strings]. apply in_flat_map.
    now exists (k, v).
Qed.

(** X26. A payload in which [extractMediaUrls] finds no URL to download, and
    none of whose objects has a key [__proto__] of its own, is left exactly
    as it is by [transformToReplica]: no string of it is rewritten, whatever
    the configuration of the URL rewriting.  (An object is rebuilt by
    assignment to a fresh one even when nothing is rewritten, and the
    assignment does not create the key [__proto__].) *)
Theorem nothing_to_download_nothing_to_rewrite (c : MediaConfig) (data : json) :
  extractMediaUrls (Some c) data = [] ->
  no_proto data = true ->
  transformToReplica (Some c) data = data.
Proof.
  intros Hnone Hown. unfold transformToReplica.
  destruct (negb (transformUrlsEnabled c)); [ reflexivity | ].
  destruct ((ossBaseUrl c =? "")%string || (minioBaseUrl c =? "")%string);
    [ reflexivity | ].
  apply transformUrls_nothing_to_rewrite; [ | exact Hown ]. intros s Hs.
  destruct (str_includes (ossBaseUrl c) s) eqn:Hin; [ | reflexivity ].
  assert (Hfound : In s (extractMediaUrls (Some c) data)).
  { unfold extractMediaUrls.
    apply (extractFromValue_spec (ossBaseUrl c) data [] (NoDup_nil _)). auto. }
  rewrite Hnone in Hfound. destruct Hfound.
Qed.

Lemma nothing_to_download_nothing_to_rewrite_witness :
  extractMediaUrls (Some media) from_replica = []
  /\ no_proto from_replica = true
  /\ transformToReplica (Some media) from_replica = from_replica.
Proof.
  split; [ reflexivity | split; [ reflexivity | ] ].
  exact (nothing_to_download_nothing_to_rewrite media from_replica eq_refl
           eq_refl).
Defined.

End MediaSync.

(* ===================================================================== *)
(** * src/bootstrap.ts : redaction of sensitive fields *)
(* ===================================================================== *)

Module Redaction.

Definition SENSITIVE_FIELDS : list string :=
  [ "password"; "resetPasswordToken"; "confirmationToken";
    "registrationToken"; "token"; "secret"; "apiKey" ].

Definition REDACTED : json := JStr "[REDACTED]".

(** [stripSensitiveData]: primitives and [null] are returned as they are, an
    array is mapped, and an object is rebuilt key by key, by assignment to a
    fresh object: a key of [SENSITIVE_FIELDS] receives the marker, an object
    or array value is stripped recursively, any other value is copied. *)
Fixpoint stripSensitiveData (obj : json) : json :=
  match obj with
  | JArr items => JArr (map stripSensitiveData items)
  | JObj fields =>
      JObj (rebuild (fun key value =>
                       if includes SENSITIVE_FIELDS key then REDACTED
                       else if is_object value then stripSensitiveData value
                       else value)
                    fields)
  | _ => obj
  end.

(** A field named in [SENSITIVE_FIELDS] occurs somewhere in the payload,
    at any nesting depth. *)
Fixpoint has_sensitive_field (v : json) : bool :=
  match v with
  | JArr items => existsb has_sensitive_field items
  | JObj fields =>
      existsb (fun kv => includes SENSITIVE_FIELDS (fst kv)
                         || has_sensitive_field (snd kv)) fields
  | _ => false
  end.

Definition is_marker (v : json) : bool :=
  match v with
  | JStr s => (s =? "[REDACTED]")%string
  | _ => false
  end.

(** Every sensitive field of the payload, at any nesting depth, holds the
    marker. *)
Fixpoint sensitive_values_masked (v : json) : bool :=
  match v with
  | JArr items => forallb sensitive_values_masked items
  | JObj fields =>
      forallb (fun kv => if includes SENSITIVE_FIELDS (fst kv)
                         then is_marker (snd kv)
                         else sensitive_values_masked (snd kv)) fields
  | _ => true
  end.

Lemma strip_primitive v : is_object v = false -> stripSensitiveData v = v.
Proof. destruct v; simpl; intros H; try reflexivity; discriminate. Qed.

Lemma strip_masks v : sensitive_values_masked (stripSensitiveData v) = true.
Proof.
  induction v as [ | b | n | s | items IH | fields IH ] using json_induction;
    cbn [stripSensitiveData sensitive_values_masked]; try reflexivity.
  - rewrite forallb_forall. intros x Hx.
    apply in_map_iff in Hx as (y & <- & Hy).
    rewrite Forall_forall in IH. now apply IH.
  - rewrite forallb_forall. intros [k v] Hx. unfold rebuild in Hx.
    apply filter_In in Hx as [Hx _].
    apply in_map_iff in Hx as ([k0 v0] & Heq & Hy). cbn [fst snd] in Heq.
    rewrite Forall_forall in IH. specialize (IH _ Hy). cbn [snd] in IH.
    injection Heq as <- <-. cbn [fst snd].
    destruct (includes SENSITIVE_FIELDS k0) eqn:Hs; [ reflexivity | ].
    destruct (is_object v0) eqn:Ho; [ exact IH | ].
    rewrite <- (strip_primitive v0 Ho). exact IH.
Qed.

(** Stripping keeps the names of the sensitive fields, in a payload none of
    whose objects has a key [__proto__] of its own. *)
Lemma strip_keeps_names v :
  no_proto v = true ->
  has_sensitive_field (stripSensitiveData v) = has_sensitive_field v.
Proof.
  induction v as [ | b | n | s | items IH | fields IH ] using json_induction;
    intros Hown; cbn [stripSensitiveData has_sensitive_field]; try reflexivity.
  - rewrite Forall_forall in IH.
    assert (Hitems : forall x, In x items ->
                       has_sensitive_field (stripSensitiveData x)
                       = has_sensitive_field x).
    { intros x Hx. apply IH; [ exact Hx | now apply (no_proto_item items) ]. }
    clear IH Hown. induction items as [ | x l IHl ]; [ reflexivity | ].
    cbn [map existsb]. rewrite (Hitems x (or_introl eq_refl)).
    f_equal. apply IHl. intros y Hy. apply Hitems. now right.
  - rewrite (rebuild_no_proto _ fields (no_proto_keys fields Hown)).
    rewrite Forall_forall in IH.
    assert (Hfields : forall kv, In kv fields ->
                        has_sensitive_field (stripSensitiveData (snd kv))
                        = has_sensitive_field (snd kv)).
    { intros kv Hkv. apply IH; [ exact Hkv | ].
      now apply (no_proto_field fields). }
    clear IH Hown. induction fields as [ | [k v] l IHl ]; [ reflexivity | ].
    cbn [map existsb fst snd].
    rewrite IHl by (intros kv Hkv; apply Hfields; now right).
    f_equal. destruct (includes SENSITIVE_FIELDS k) eqn:Hs; [ reflexivity | ].
    cbn [orb]. destruct (is_object v) eqn:Ho; [ | reflexivity ].
    exact (Hfields (k, v) (or_introl eq_refl)).
Qed.

End Redaction.

(* ===================================================================== *)
(** * src/bootstrap.ts : the document-service middleware *)
(* ===================================================================== *)

Module Middleware.
Import Config Redaction.

(** ** Configuration and process-wide state *)


Record PluginConfig := {
  mode : Mode;
  shipId : string;
  contentTypes : list string
}.

(** The part of the [strapi] object the middleware reads: the configuration
    and the two loop-prevention flags the bus consumer sets around an apply;
    [offlineSyncPush] tells whether the debounced push handler is installed. *)
Record Strapi := {
  pluginConfig : PluginConfig;
  _offlineSyncFromMaster : bool;
  _offlineSyncFromShip : bool;
  offlineSyncPush : bool
}.

Record SyncContext := {
  action : string;
  uid : string;
  params : json
}.

Inductive Operation := OpCreate | OpUpdate | OpDelete.

Definition operation_name (o : Operation) : string :=
  match o with OpCreate => "create" | OpUpdate => "update" | OpDelete => "delete" end.

(** Argument of [syncQueue.enqueue]. *)
Record QueueItem := {
  q_shipId : string;
  q_contentType : string;
  q_contentId : string;
  q_operation : Operation;
  q_localVersion : Z;
  q_data : json;
  q_locale : json
}.

(** Message handed to [kafkaProducer.sendToShips]; the timestamp is kept as
    the clock reading it is rendered from. *)
Record SyncMessage := {
  m_messageId : string;
  m_shipId : string;
  m_timestamp : Z;
  m_operation : Operation;
  m_contentType : string;
  m_contentId : string;
  m_version : Z;
  m_data : json;
  m_locale : json;
  m_fileRecords : option (list json)
}.

(** Argument of [masterSyncQueue.enqueue]. *)
Record MasterQueueItem := {
  mq_contentType : string;
  mq_contentId : string;
  mq_operation : Operation;
  mq_data : json;
  mq_locale : json
}.

Inductive Level := Debug | Info | Error.

(** ** Effects

    Every call that leaves the middleware is recorded in a trace, and so is
    the exception when the call throws; what the call answers, or the
    exception it raises, is up to the service. *)

(** The message of a thrown [Error]. *)
Definition exn := string.

Inductive event :=
| EvNext (ctx : SyncContext)
| EvFindOne (uid documentId : string)
| EvIncrementVersion (uid documentId shipId : string)
| EvEnqueue (item : QueueItem)
| EvOfflineSyncPush
| EvLogEdit (contentType documentId : string) (op : Operation)
            (editedBy : string) (locale : json)
| EvMediaIsEnabled
| EvExtractFileIds (data : json)
| EvGetFileRecords (ids : list json)
| EvIsConnected
| EvClock
| EvSendToShips (msg : SyncMessage)
| EvMasterEnqueue (item : MasterQueueItem)
| EvLog (level : Level) (message : string)
| EvThrow (origin : event) (error : exn).

Definition trace := list event.

(** The collaborators of the middleware.  Each answers from the history of
    calls so far and may throw. *)
Record Services := {
  next : trace -> SyncContext -> exn + json;
  documents_findOne : trace -> string -> string -> exn + json;
  versionManager_incrementVersion : trace -> string -> string -> string -> exn + Z;
  syncQueue_enqueue : trace -> QueueItem -> exn + unit;
  strapi_offlineSyncPush : trace -> exn + unit;
  masterSyncQueue_logEdit : trace -> string -> string -> Operation -> exn + unit;
  mediaSync_isEnabled : trace -> exn + bool;
  mediaSync_extractFileIds : trace -> json -> exn + list json;
  mediaSync_getFileRecords : trace -> list json -> exn + list json;
  kafkaProducer_isConnected : trace -> exn + bool;
  Date_now : trace -> Z;
  kafkaProducer_sendToShips : trace -> SyncMessage -> exn + unit;
  masterSyncQueue_enqueue : trace -> MasterQueueItem -> exn + unit
}.

(** State (the trace) and exceptions. *)
Definition M (A : Type) : Type := trace -> (exn + A) * trace.

Definition ret {A} (a : A) : M A := fun t => (inr a, t).

Definition bind {A B} (m : M A) (k : A -> M B) : M B :=
  fun t =>
    match m t with
    | (inr a, t') => k a t'
    | (inl e, t') => (inl e, t')
    end.

(** [try { m } catch (e) { h e }]. *)
Definition try_catch {A} (m : M A) (h : exn -> M A) : M A :=
  fun t =>
    match m t with
    | (inl e, t') => h e t'
    | r => r
    end.

(** A call to a collaborator: recorded, then answered, normally or with an
    exception. *)
Definition call {A} (e : event) (answer : trace -> exn + A) : M A :=
  fun t =>
    match answer t with
    | inr a => (inr a, t ++ [e])
    | inl error => (inl error, t ++ [e; EvThrow e error])
    end.

(** [strapi.log.<level>(message)]. *)
Definition log (l : Level) (message : string) : M unit :=
  fun t => (inr tt, t ++ [EvLog l message]).

Declare Scope m_scope.
Delimit Scope m_scope with m.
Notation "x <- m ;; k" := (bind m (fun x => k))
  (at level 100, m at next level, right associativity) : m_scope.
Notation "m ;; k" := (bind m (fun _ => k))
  (at level 100, right associativity) : m_scope.

Local Open Scope m_scope.

(** ** The middleware *)

(** [`${v}`] in a template literal. *)
Fixpoint to_string (v : json) : string :=
  match v with
  | JNull => "null"
  | JBool true => "true"
  | JBool false => "false"
  | JNum n => string_of_Z n
  | JStr s => s
  | JArr items =>
      join "," (map (fun x => match x with JNull => "" | _ => to_string x end) items)
  | JObj _ => "[object Object]"
  end.

Definition startsWith (s p : string) : bool := String.prefix p s.

Definition trackedActions : list string := ["create"; "update"; "delete"; "publish"].

(** [locale ? ` [${locale}]` : ''] *)
Definition locale_suffix (locale : json) : string :=
  if truthy locale then " [" +++ to_string locale +++ "]" else "".

Definition is_delete (o : Operation) : bool :=
  match o with OpDelete => true | _ => false end.

Section Hook.

Variable S : Services.
Variable strapi : Strapi.

(** The [documentId] of the operation: for a delete the parameters come
    first, for the other actions the result does. *)
Definition resolveDocumentId (action : string) (paramsDocumentId : option json)
    (result : json) : option string :=
  if (action =? "delete")%string then
    match as_nonempty_string paramsDocumentId with
    | Some d => Some d
    | None => as_nonempty_string (get result "documentId")
    end
  else
    match as_nonempty_string (get result "documentId") with
    | Some d => Some d
    | None =>
        match as_nonempty_string (get result "id") with
        | Some d => Some d
        | None => as_nonempty_string paramsDocumentId
        end
    end.

(** Bulk results are skipped: an array, or an object with a [count],
    [deletedCount] or [entries] property. *)
Definition isBulkResult (result : json) : bool :=
  truthy result && is_object result
  && (has_key result "count" || has_key result "deletedCount"
      || has_key result "entries").

Definition mapOperation (action : string) : Operation :=
  let operation := OpUpdate in
  let operation := if (action =? "create")%string then OpCreate else operation in
  if (action =? "delete")%string then OpDelete else operation.

(** Replica mode: bump the version, strip, enqueue, trigger the push. *)
Definition replicaBranch (action uid documentId : string) (operation : Operation)
    (syncData locale : json) : M unit :=
  if _offlineSyncFromMaster strapi then
    log Debug ("[Sync] Skipping queue for " +++ uid +++ " (" +++ documentId
               +++ ") - originated from master")
  else
    try_catch
      (version <- (if is_delete operation then ret 0
                   else call (EvIncrementVersion uid documentId
                                (shipId (pluginConfig strapi)))
                          (fun t => versionManager_incrementVersion S t uid documentId
                                      (shipId (pluginConfig strapi)))) ;;
       let safeData :=
         if is_delete operation then JNull else stripSensitiveData syncData in
       let item := {| q_shipId := shipId (pluginConfig strapi);
                      q_contentType := uid;
                      q_contentId := documentId;
                      q_operation := operation;
                      q_localVersion := version;
                      q_data := safeData;
                      q_locale := locale |} in
       call (EvEnqueue item) (fun t => syncQueue_enqueue S t item) ;;
       log Info ("[Sync] ✅ Queued " +++ operation_name operation +++ " for " +++ uid
                 +++ " (" +++ documentId +++ ")" +++ locale_suffix locale) ;;
       if offlineSyncPush strapi
       then call EvOfflineSyncPush (strapi_offlineSyncPush S)
       else ret tt)
      (fun error =>
         log Error ("[Sync] Queue error for " +++ action +++ " " +++ uid +++ ": "
                    +++ error)).

(** File records of the media relations of the payload; a failure here is
    logged and gives no records. *)
Definition collectFileRecords (operation : Operation) (safeData : json)
  : M (list json) :=
  if truthy safeData && negb (is_delete operation) then
    try_catch
      (enabled <- call EvMediaIsEnabled (mediaSync_isEnabled S) ;;
       if enabled : bool then
         fileIds <- call (EvExtractFileIds safeData)
                      (fun t => mediaSync_extractFileIds S t safeData) ;;
         if (0 <? List.length fileIds)%nat then
           fileRecords <- call (EvGetFileRecords fileIds)
                            (fun t => mediaSync_getFileRecords S t fileIds) ;;
           log Debug ("[Sync] Including "
                      +++ string_of_nat (List.length fileRecords)
                      +++ " file records for ships") ;;
           ret fileRecords
         else ret []
       else ret [])
      (fun fileErr =>
         log Debug ("[Sync] File record extraction skipped: " +++ fileErr) ;;
         ret [])
  else ret [].

(** Master mode: log the edit, then publish when the producer is connected
    and queue for later otherwise. *)
Definition masterBranch (uid documentId : string) (operation : Operation)
    (syncData locale : json) : M unit :=
  if _offlineSyncFromShip strapi then
    log Debug ("[Sync] Skipping broadcast for " +++ uid +++ " (" +++ documentId
               +++ ") - originated from ship")
  else
    try_catch
      (let safeData :=
         if is_delete operation then JNull else stripSensitiveData syncData in
       call (EvLogEdit uid documentId operation "master-admin" locale)
            (fun t => masterSyncQueue_logEdit S t uid documentId operation) ;;
       fileRecords <- collectFileRecords operation safeData ;;
       connected <- call EvIsConnected (kafkaProducer_isConnected S) ;;
       if connected : bool then
         now <- call EvClock (fun t => inr (Date_now S t)) ;;
         stamp <- call EvClock (fun t => inr (Date_now S t)) ;;
         let message :=
           {| m_messageId := "master-" +++ string_of_Z now +++ "-" +++ documentId;
              m_shipId := "master";
              m_timestamp := stamp;
              m_operation := operation;
              m_contentType := uid;
              m_contentId := documentId;
              m_version := 0;
              m_data := safeData;
              m_locale := locale;
              m_fileRecords :=
                if (0 <? List.length fileRecords)%nat then Some fileRecords
                else None |} in
         call (EvSendToShips message) (fun t => kafkaProducer_sendToShips S t message) ;;
         log Info ("[Sync] 📤 Published " +++ operation_name operation +++ " for "
                   +++ uid +++ " (" +++ documentId +++ ")" +++ locale_suffix locale
                   +++ " to ships")
       else
         let queueData :=
           if (0 <? List.length fileRecords)%nat
           then set_field "_fileRecords" (JArr fileRecords) (spread safeData)
           else spread safeData in
         let item := {| mq_contentType := uid;
                        mq_contentId := documentId;
                        mq_operation := operation;
                        mq_data := JObj queueData;
                        mq_locale := locale |} in
         call (EvMasterEnqueue item) (fun t => masterSyncQueue_enqueue S t item) ;;
         log Info ("[Sync] 📥 Queued " +++ operation_name operation +++ " for " +++ uid
                   +++ " (" +++ documentId +++ ")" +++ locale_suffix locale
                   +++ " (Kafka offline)"))
      (fun error =>
         log Debug ("[Sync] Failed to publish/queue to ships: " +++ error)).

(** The body of the outer [try]; each of its [return result] statements is
    the end of the computation. *)
Definition syncLogic (context : SyncContext) (paramsDocumentId : option json)
    (paramsLocale : json) (result : json) : M unit :=
  let action := action context in
  let uid := uid context in
  if (0 <? List.length (contentTypes (pluginConfig strapi)))%nat
     && negb (includes (contentTypes (pluginConfig strapi)) uid)
  then ret tt
  else if negb (includes trackedActions action) then ret tt
  else
    match resolveDocumentId action paramsDocumentId result with
    | None =>
        log Debug ("[Sync] Skipping " +++ action +++ " for " +++ uid
                   +++ " - no valid documentId")
    | Some documentId =>
        if negb (action =? "delete")%string && is_array result then
          log Debug ("[Sync] Skipping array result for " +++ uid)
        else if negb (action =? "delete")%string && isBulkResult result then
          log Debug ("[Sync] Skipping bulk/count result for " +++ uid)
        else
          let operation := mapOperation action in
          let locale :=
            if truthy paramsLocale then paramsLocale
            else or_else (get result "locale") JNull in
          syncData <-
            (if (action =? "publish")%string
                && (negb (truthy result)
                    || (List.length (Object_keys result) <? 3)%nat)
             then try_catch
                    (call (EvFindOne uid documentId)
                          (fun t => documents_findOne S t uid documentId))
                    (fun _ => ret result)
             else ret result) ;;
          match mode (pluginConfig strapi) with
          | Replica => replicaBranch action uid documentId operation syncData locale
          | Master => masterBranch uid documentId operation syncData locale
          end
    end.

(** [strapi.documents.use(async (context, next) => ...)]. *)
Definition middleware (context : SyncContext) : M json :=
  let uid := uid context in
  if (uid =? "")%string || startsWith uid "plugin::" || startsWith uid "admin::"
  then call (EvNext context) (fun t => next S t context)
  else
    let paramsDocumentId := get (params context) "documentId" in
    let paramsLocale := or_else (get (params context) "locale") JNull in
    result <- call (EvNext context) (fun t => next S t context) ;;
    try_catch
      (syncLogic context paramsDocumentId paramsLocale result)
      (fun syncError =>
         log Debug ("[Sync] Sync processing error (non-blocking): " +++ syncError)) ;;
    ret result.

End Hook.

(** ** Reasoning about computations *)

(** [m] appends events that all satisfy [P], and nothing else changes. *)
Definition emits {A} (P : event -> Prop) (m : M A) : Prop :=
  forall t, exists evs, snd (m t) = t ++ evs /\ Forall P evs.


Section Emits.

Context {A B : Type} (P : event -> Prop).

Lemma emits_ret (a : A) : emits P (ret a).
Proof. intros t. exists []. simpl. now rewrite app_nil_r. Qed.

Lemma emits_log l msg : P (EvLog l msg) -> emits P (log l msg).
Proof. intros H t. exists [EvLog l msg]. simpl. auto. Qed.

Lemma emits_call e (f : trace -> exn + A) :
  P e -> (forall error, P (EvThrow e error)) -> emits P (call e f).
Proof.
  intros H Hthrow t. unfold call. destruct (f t) as [error | a].
  - exists [e; EvThrow e error]. simpl. auto.
  - exists [e]. simpl. auto.
Qed.

Lemma emits_bind (m : M A) (k : A -> M B) :
  emits P m -> (forall a, emits P (k a)) -> emits P (bind m k).
Proof.
  intros Hm Hk t. unfold bind.
  destruct (Hm t) as (evs1 & E1 & F1).
  destruct (m t) as [[e | a] t1]; simpl in E1; subst t1.
  - exists evs1. auto.
  - destruct (Hk a (t ++ evs1)) as (evs2 & E2 & F2).
    exists (evs1 ++ evs2). rewrite E2, app_assoc. split; [ reflexivity | ].
    apply Forall_app; auto.
Qed.

Lemma emits_try_catch (m : M A) (h : exn -> M A) :
  emits P m -> (forall e, emits P (h e)) -> emits P (try_catch m h).
Proof.
  intros Hm Hh t. unfold try_catch.
  destruct (Hm t) as (evs1 & E1 & F1).
  destruct (m t) as [[e | a] t1]; simpl in E1; subst t1.
  - destruct (Hh e (t ++ evs1)) as (evs2 & E2 & F2).
    exists (evs1 ++ evs2). rewrite E2, app_assoc. split; [ reflexivity | ].
    apply Forall_app; auto.
  - exists evs1. auto.
Qed.


End Emits.


(** Splits a goal [emits P m] along the structure of [m]; what is left are
    the events themselves. *)
Ltac emits_step :=
  match goal with
  | |- emits _ (bind _ _) => apply emits_bind; [ | intros ? ]
  | |- emits _ (try_catch _ _) => apply emits_try_catch; [ | intros ? ]
  | |- emits _ (ret _) => apply emits_ret
  | |- emits _ (log _ _) => apply emits_log
  | |- emits _ (call _ _) => apply emits_call; [ | intros ? ]
  | |- emits _ (if ?c then _ else _) => destruct c
  | |- emits _ (match ?x with _ => _ end) => destruct x
  | |- emits _ (let _ := _ in _) => cbv zeta
  end.

Ltac emits_all := repeat emits_step.

(** ** Sample runs *)

Definition sample_user : json :=
  JObj [ ("documentId", JStr "u1");
         ("username", JStr "ada");
         ("password", JStr "hunter2");
         ("profile", JObj [("apiKey", JStr "k-123"); ("city", JStr "Oslo")]) ].

Definition create_user : SyncContext :=
  {| action := "create"; uid := "api::member.member"; params := JNull |}.

(** Collaborators that all answer normally. *)
Definition healthy_services : Services :=
  {| next := fun _ _ => inr sample_user;
     documents_findOne := fun _ _ _ => inr sample_user;
     versionManager_incrementVersion := fun _ _ _ _ => inr 1;
     syncQueue_enqueue := fun _ _ => inr tt;
     strapi_offlineSyncPush := fun _ => inr tt;
     masterSyncQueue_logEdit := fun _ _ _ _ => inr tt;
     mediaSync_isEnabled := fun _ => inr false;
     mediaSync_extractFileIds := fun _ _ => inr [];
     mediaSync_getFileRecords := fun _ _ => inr [];
     kafkaProducer_isConnected := fun _ => inr true;
     Date_now := fun _ => 1700000000000;
     kafkaProducer_sendToShips := fun _ _ => inr tt;
     masterSyncQueue_enqueue := fun _ _ => inr tt |}.

(** The CMS operation succeeds and every sync service throws. *)
Definition broken_services : Services :=
  {| next := fun _ _ => inr sample_user;
     documents_findOne := fun _ _ _ => inl "db down";
     versionManager_incrementVersion := fun _ _ _ _ => inl "version-manager down";
     syncQueue_enqueue := fun _ _ => inl "queue down";
     strapi_offlineSyncPush := fun _ => inl "push failed";
     masterSyncQueue_logEdit := fun _ _ _ _ => inl "queue down";
     mediaSync_isEnabled := fun _ => inl "media down";
     mediaSync_extractFileIds := fun _ _ => inl "media down";
     mediaSync_getFileRecords := fun _ _ => inl "media down";
     kafkaProducer_isConnected := fun _ => inl "kafka down";
     Date_now := fun _ => 1700000000000;
     kafkaProducer_sendToShips := fun _ _ => inl "kafka down";
     masterSyncQueue_enqueue := fun _ _ => inl "queue down" |}.

Definition replica_strapi (fromMaster : bool) : Strapi :=
  {| pluginConfig := {| mode := Replica; shipId := "ship-1"; contentTypes := [] |};
     _offlineSyncFromMaster := fromMaster;
     _offlineSyncFromShip := false;
     offlineSyncPush := true |}.

Definition master_strapi (fromShip : bool) : Strapi :=
  {| pluginConfig := {| mode := Master; shipId := ""; contentTypes := [] |};
     _offlineSyncFromMaster := false;
     _offlineSyncFromShip := fromShip;
     offlineSyncPush := false |}.

(** The items handed to [syncQueue.enqueue] along a trace. *)
Definition enqueued (t : trace) : list QueueItem :=
  flat_map (fun e => match e with EvEnqueue item => [item] | _ => [] end) t.

(** On a replica a local create bumps the version, queues the stripped
    payload and triggers the push. *)
Example replica_create_is_queued :
  snd (middleware healthy_services (replica_strapi false) create_user [])
  = [ EvNext create_user;
      EvIncrementVersion "api::member.member" "u1" "ship-1";
      EvEnqueue {| q_shipId := "ship-1";
                   q_contentType := "api::member.member";
                   q_contentId := "u1";
                   q_operation := OpCreate;
                   q_localVersion := 1;
                   q_data := JObj [ ("documentId", JStr "u1");
                                    ("username", JStr "ada");
                                    ("password", JStr "[REDACTED]");
                                    ("profile", JObj [("apiKey", JStr "[REDACTED]");
                                                      ("city", JStr "Oslo")]) ];
                   q_locale := JNull |};
      EvLog Info "[Sync] ✅ Queued create for api::member.member (u1)";
      EvOfflineSyncPush ].
Proof. reflexivity. Qed.

(** With every sync service down, the error is logged and nothing more. *)
Example replica_create_with_broken_services :
  middleware broken_services (replica_strapi false) create_user []
  = (inr sample_user,
     [ EvNext create_user;
       EvIncrementVersion "api::member.member" "u1" "ship-1";
       EvThrow (EvIncrementVersion "api::member.member" "u1" "ship-1")
         "version-manager down";
       EvLog Error
         "[Sync] Queue error for create api::member.member: version-manager down" ]).
Proof. reflexivity. Qed.

Example master_create_with_broken_services :
  middleware broken_services (master_strapi false) create_user []
  = (inr sample_user,
     [ EvNext create_user;
       EvLogEdit "api::member.member" "u1" OpCreate "master-admin" JNull;
       EvThrow (EvLogEdit "api::member.member" "u1" OpCreate "master-admin" JNull)
         "queue down";
       EvLog Debug "[Sync] Failed to publish/queue to ships: queue down" ]).
Proof. reflexivity. Qed.

(** ** What a run leaves in the trace *)

(** The events a run may append when the change came from the peer: the CMS
    operation itself, the read that completes a publish result, and log
    lines.  Every other event reaches a sync service. *)
Fixpoint propagates (e : event) : bool :=
  match e with
  | EvNext _ | EvFindOne _ _ | EvLog _ _ => false
  | EvThrow origin _ => propagates origin
  | _ => true
  end.

(** The loop-prevention flag that matters in the mode the process runs in. *)
Definition originatedFromPeer (strapi : Strapi) : bool :=
  match mode (pluginConfig strapi) with
  | Replica => _offlineSyncFromMaster strapi
  | Master => _offlineSyncFromShip strapi
  end.

(** The payload of a master queue item without the [_fileRecords] the
    middleware attaches to it (they come from the media service as they
    are). *)
Definition without_file_records (data : json) : json :=
  match data with
  | JObj fields =>
      JObj (filter (fun kv => negb (fst kv =? "_fileRecords")%string) fields)
  | _ => data
  end.

(** The payloads that leave for the bus carry the marker in every sensitive
    field. *)
Definition payload_masked (e : event) : Prop :=
  match e with
  | EvEnqueue item => sensitive_values_masked (q_data item) = true
  | EvSendToShips msg => sensitive_values_masked (m_data msg) = true
  | EvMasterEnqueue item =>
      sensitive_values_masked (without_file_records (mq_data item)) = true
  | _ => True
  end.

(** ** The hook never fails the CMS operation *)












Section Handled.

Context {A B : Type}.







End Handled.







(** ** Loop prevention *)

Lemma flagged_run_emits (S : Services) (strapi : Strapi) (context : SyncContext) :
  originatedFromPeer strapi = true ->
  emits (fun e => propagates e = false) (middleware S strapi context).
Proof.
  destruct strapi as [[m ship cts] fromMaster fromShip push].
  unfold originatedFromPeer. simpl. intros Hflag.
  unfold middleware, syncLogic, replicaBranch, masterBranch. simpl.
  destruct m; subst; emits_all; reflexivity.
Qed.

(** C6. While the loop-prevention flag of the running mode is set
    ([_offlineSyncFromMaster] on a replica, [_offlineSyncFromShip] on the
    master), a document operation that goes through the middleware reaches no
    sync service: no version bump, no queue entry, no push trigger, nothing
    published and nothing queued for broadcast.  The run appends only the CMS
    operation, the read that completes a publish result, and log lines. *)
Theorem flagged_change_is_not_propagated (S : Services) (strapi : Strapi)
    (context : SyncContext) (t : trace) :
  originatedFromPeer strapi = true ->
  exists evs,
    snd (middleware S strapi context t) = t ++ evs
    /\ Forall (fun e => propagates e = false) evs.
Proof. intros Hflag. exact (flagged_run_emits S strapi context Hflag t). Qed.

Lemma flagged_change_is_not_propagated_witness :
  originatedFromPeer (replica_strapi true) = true
  /\ exists evs,
       snd (middleware healthy_services (replica_strapi true) create_user [])
       = [] ++ evs
       /\ Forall (fun e => propagates e = false) evs.
Proof.
  split; [ reflexivity | ].
  apply (flagged_change_is_not_propagated healthy_services (replica_strapi true)
           create_user []).
  reflexivity.
Defined.

(** The same operation on the master, once as a local edit and once while a
    ship update is being applied. *)
Example master_create_is_published :
  snd (middleware healthy_services (master_strapi false) create_user [])
  = [ EvNext create_user;
      EvLogEdit "api::member.member" "u1" OpCreate "master-admin" JNull;
      EvMediaIsEnabled;
      EvIsConnected;
      EvClock;
      EvClock;
      EvSendToShips
        {| m_messageId := "master-1700000000000-u1";
           m_shipId := "master";
           m_timestamp := 1700000000000;
           m_operation := OpCreate;
           m_contentType := "api::member.member";
           m_contentId := "u1";
           m_version := 0;
           m_data := stripSensitiveData sample_user;
           m_locale := JNull;
           m_fileRecords := None |};
      EvLog Info "[Sync] 📤 Published create for api::member.member (u1) to ships" ].
Proof. reflexivity. Qed.

Example master_apply_from_ship_is_silent :
  snd (middleware healthy_services (master_strapi true) create_user [])
  = [ EvNext create_user;
      EvLog Debug
        "[Sync] Skipping broadcast for api::member.member (u1) - originated from ship" ].
Proof. reflexivity. Qed.

(** ** Redaction of the outgoing payloads *)

Lemma safeData_masked (operation : Operation) (syncData : json) :
  sensitive_values_masked
    (if is_delete operation then JNull else stripSensitiveData syncData) = true.
Proof. destruct (is_delete operation); [ reflexivity | apply strip_masks ]. Qed.

(** An array index is not the name of a sensitive field. *)
Lemma index_not_sensitive (i : nat) :
  includes SENSITIVE_FIELDS (string_of_nat i) = false.
Proof.
  destruct (includes SENSITIVE_FIELDS (string_of_nat i)) eqn:Hin; [ | reflexivity ].
  exfalso.
  assert (Hparse : NilZero.uint_of_string (string_of_nat i) <> None).
  { unfold string_of_nat, string_of_Z.
    destruct (Z.of_nat i) as [ | p | p ] eqn:Ei; [ | | lia ]; simpl.
    - discriminate.
    - destruct (NilZero.usu_gen (Pos.to_uint p)) as [-> | ->]; discriminate. }
  unfold includes in Hin. apply existsb_exists in Hin as (name & Hname & Heq).
  apply String.eqb_eq in Heq. rewrite Heq in Hparse.
  simpl in Hname.
  repeat (destruct Hname as [<- | Hname]; [ now apply Hparse | ]).
  exact Hname.
Qed.

Lemma indexed_masked (items : list json) :
  forallb sensitive_values_masked items = true ->
  sensitive_values_masked (JObj (indexed items)) = true.
Proof.
  intros Hall. simpl. apply forallb_forall. intros [k v] Hkv.
  unfold indexed in Hkv.
  pose proof (in_combine_l _ _ _ _ Hkv) as Hk.
  pose proof (in_combine_r _ _ _ _ Hkv) as Hv.
  apply in_map_iff in Hk as (i & <- & _). simpl.
  rewrite index_not_sensitive.
  rewrite forallb_forall in Hall. now apply Hall.
Qed.

Lemma chars_masked (s : string) :
  forallb sensitive_values_masked (chars s) = true.
Proof. induction s; simpl; auto. Qed.

Lemma spread_masked (v : json) :
  sensitive_values_masked v = true ->
  sensitive_values_masked (JObj (spread v)) = true.
Proof.
  destruct v; unfold spread; simpl entries; intros H; try reflexivity.
  - apply indexed_masked, chars_masked.
  - now apply indexed_masked.
  - exact H.
Qed.

Lemma filter_set_file_records v fields :
  filter (fun kv => negb (fst kv =? "_fileRecords")%string)
         (set_field "_fileRecords" v fields)
  = filter (fun kv => negb (fst kv =? "_fileRecords")%string) fields.
Proof.
  induction fields as [ | [k x] l IH ]; [ reflexivity | ].
  cbn [set_field].
  destruct ("_fileRecords" =? k)%string eqn:E.
  - apply String.eqb_eq in E. subst k. reflexivity.
  - cbn [filter fst]. rewrite String.eqb_sym, E. cbn [negb]. now rewrite IH.
Qed.

Lemma filter_masked (f : string * json -> bool) fields :
  sensitive_values_masked (JObj fields) = true ->
  sensitive_values_masked (JObj (filter f fields)) = true.
Proof.
  simpl. rewrite !forallb_forall. intros H kv Hin.
  apply filter_In in Hin as [Hin _]. now apply H.
Qed.

Lemma queueData_masked (operation : Operation) (syncData : json)
    (fileRecords : list json) :
  let safeData :=
    if is_delete operation then JNull else stripSensitiveData syncData in
  sensitive_values_masked
    (without_file_records
       (JObj (if (0 <? List.length fileRecords)%nat
              then set_field "_fileRecords" (JArr fileRecords) (spread safeData)
              else spread safeData))) = true.
Proof.
  intros safeData. unfold without_file_records.
  assert (H : sensitive_values_masked (JObj (spread safeData)) = true)
    by apply spread_masked, safeData_masked.
  destruct (0 <? List.length fileRecords)%nat.
  - rewrite filter_set_file_records. now apply filter_masked.
  - now apply filter_masked.
Qed.

Lemma middleware_emits_masked (S : Services) (strapi : Strapi)
    (context : SyncContext) :
  emits payload_masked (middleware S strapi context).
Proof.
  unfold middleware, syncLogic, replicaBranch, masterBranch, collectFileRecords.
  emits_all; simpl; auto using safeData_masked.
  apply queueData_masked.
Qed.

(** What the redaction does: it masks, it does not omit.  In every payload
    the middleware hands to the replica queue, publishes to the ships or
    hands to the master queue (its attached [_fileRecords] apart), each
    field named in [SENSITIVE_FIELDS], at any nesting depth, holds the marker
    ['[REDACTED]']; the field itself stays, so that stripping keeps the
    presence of sensitive field names as it was (in a payload without a key
    [__proto__]). *)
Lemma sensitive_fields_are_masked (S : Services) (strapi : Strapi)
    (context : SyncContext) (t : trace) :
  (exists evs,
     snd (middleware S strapi context t) = t ++ evs /\ Forall payload_masked evs)
  /\ (forall data,
        sensitive_values_masked (stripSensitiveData data) = true
        /\ (no_proto data = true ->
            has_sensitive_field (stripSensitiveData data)
            = has_sensitive_field data)).
Proof.
  split.
  - exact (middleware_emits_masked S strapi context t).
  - intros data. split; [ apply strip_masks | apply strip_keeps_names ].
Qed.

(** C9, at the input on which the code departs from it.  A member is created
    on a replica with a [password] and, nested in its profile, an [apiKey].
    The payload the middleware queues for the bus still has both fields:
    their values are replaced by the marker ['[REDACTED]'], the fields are
    not omitted as the claim, the comment of [stripSensitiveData] ("strip")
    and the README of the plug-in say. *)
Lemma redaction_keeps_sensitive_fields :
  exists item,
    In item (enqueued (snd (middleware healthy_services (replica_strapi false)
                              create_user [])))
    /\ has_sensitive_field (q_data item) = true
    /\ get (q_data item) "password" = Some (JStr "[REDACTED]")
    /\ option_map (fun profile => get profile "apiKey")
         (get (q_data item) "profile")
       = Some (Some (JStr "[REDACTED]")).
Proof.
  eexists. split; [ left; reflexivity | repeat split; reflexivity ].
Qed.

(** ** When the CMS operation fails *)

(** X27. If [next()] throws, the middleware throws the same error and nothing
    else has happened: no sync service was called and nothing was logged. *)
Theorem cms_failure_skips_sync (S : Services) (strapi : Strapi)
    (context : SyncContext) (t : trace) (error : exn) :
  next S t context = inl error ->
  middleware S strapi context t
  = (inl error, t ++ [EvNext context; EvThrow (EvNext context) error]).
Proof.
  intros Hnext. unfold middleware.
  destruct (_ || _ || _).
  - unfold call. now rewrite Hnext.
  - unfold bind at 1. unfold call at 1. now rewrite Hnext.
Qed.

(** The CMS is down. *)
Definition failing_cms : Services :=
  {| next := fun _ _ => inl "validation failed";
     documents_findOne := documents_findOne healthy_services;
     versionManager_incrementVersion :=
       versionManager_incrementVersion healthy_services;
     syncQueue_enqueue := syncQueue_enqueue healthy_services;
     strapi_offlineSyncPush := strapi_offlineSyncPush healthy_services;
     masterSyncQueue_logEdit := masterSyncQueue_logEdit healthy_services;
     mediaSync_isEnabled := mediaSync_isEnabled healthy_services;
     mediaSync_extractFileIds := mediaSync_extractFileIds healthy_services;
     mediaSync_getFileRecords := mediaSync_getFileRecords healthy_services;
     kafkaProducer_isConnected := kafkaProducer_isConnected healthy_services;
     Date_now := Date_now healthy_services;
     kafkaProducer_sendToShips := kafkaProducer_sendToShips healthy_services;
     masterSyncQueue_enqueue := masterSyncQueue_enqueue healthy_services |}.

Lemma cms_failure_skips_sync_witness :
  next failing_cms [] create_user = inl "validation failed"
  /\ middleware failing_cms (replica_strapi false) create_user []
     = (inl "validation failed",
        [EvNext create_user; EvThrow (EvNext create_user) "validation failed"]).
Proof.
  split; [ reflexivity | ].
  exact (cms_failure_skips_sync failing_cms (replica_strapi false) create_user
           [] "validation failed" eq_refl).
Defined.

(** ** Operations the middleware does not track *)

(** The operation is on no content type, on a type of a plug-in or of the
    admin, on a type outside a non-empty [contentTypes] list, or its action
    is none of create, update, delete and publish. *)
Definition untracked (strapi : Strapi) (context : SyncContext) : bool :=
  (uid context =? "")%string
  || startsWith (uid context) "plugin::"
  || startsWith (uid context) "admin::"
  || ((0 <? List.length (contentTypes (pluginConfig strapi)))%nat
      && negb (includes (contentTypes (pluginConfig strapi)) (uid context)))
  || negb (includes trackedActions (action context)).

(** X28. For an operation it does not track, the middleware is the CMS operation
    and nothing more: same result or same error, no call to a sync service
    and no log line, in either mode. *)
Theorem untracked_operation_passes_through (S : Services) (strapi : Strapi)
    (context : SyncContext) (t : trace) :
  untracked strapi context = true ->
  middleware S strapi context t
  = call (EvNext context) (fun t => next S t context) t.
Proof.
  unfold untracked, middleware. intros Hskip.
  destruct ((uid context =? "")%string || startsWith (uid context) "plugin::"
            || startsWith (uid context) "admin::"); [ reflexivity | ].
  cbn [orb] in Hskip.
  unfold bind at 1. unfold call.
  destruct (next S t context) as [error | result]; [ reflexivity | ].
  unfold syncLogic.
  destruct ((0 <? List.length (contentTypes (pluginConfig strapi)))%nat
            && negb (includes (contentTypes (pluginConfig strapi)) (uid context)));
    [ reflexivity | ].
  cbn [orb] in Hskip. now rewrite Hskip.
Qed.

Definition find_members : SyncContext :=
  {| action := "findMany"; uid := "api::member.member"; params := JNull |}.

Lemma untracked_operation_passes_through_witness :
  untracked (replica_strapi false) find_members = true
  /\ middleware healthy_services (replica_strapi false) find_members []
     = (inr sample_user, [EvNext find_members]).
Proof.
  split; [ reflexivity | ].
  exact (untracked_operation_passes_through healthy_services
           (replica_strapi false) find_members [] eq_refl).
Defined.

(** ** Each mode calls its own services *)

(** The services of the replica branch. *)
Fixpoint replicaService (e : event) : bool :=
  match e with
  | EvIncrementVersion _ _ _ | EvEnqueue _ | EvOfflineSyncPush => true
  | EvThrow origin _ => replicaService origin
  | _ => false
  end.

(** The services of the master branch. *)
Fixpoint masterService (e : event) : bool :=
  match e with
  | EvLogEdit _ _ _ _ _ | EvMediaIsEnabled | EvExtractFileIds _
  | EvGetFileRecords _ | EvIsConnected | EvClock | EvSendToShips _
  | EvMasterEnqueue _ => true
  | EvThrow origin _ => masterService origin
  | _ => false
  end.

Definition foreignService (m : Mode) (e : event) : bool :=
  match m with
  | Replica => masterService e
  | Master => replicaService e
  end.

(** X29. On a replica the middleware never logs an edit for the ships, asks the
    media service or the producer, publishes or queues for broadcast; on
    the master it never bumps a version, queues for the master or triggers
    the push.  This holds for every operation, whatever the services
    answer. *)
Theorem each_mode_calls_its_own_services (S : Services) (strapi : Strapi)
    (context : SyncContext) (t : trace) :
  exists evs,
    snd (middleware S strapi context t) = t ++ evs
    /\ Forall (fun e => foreignService (mode (pluginConfig strapi)) e = false) evs.
Proof.
  revert t. change (emits (fun e => foreignService (mode (pluginConfig strapi)) e
                                    = false) (middleware S strapi context)).
  destruct strapi as [[m ship cts] fromMaster fromShip push]. cbn [mode pluginConfig].
  unfold middleware, syncLogic, replicaBranch, masterBranch, collectFileRecords.
  cbn [mode pluginConfig _offlineSyncFromMaster _offlineSyncFromShip
       offlineSyncPush contentTypes shipId].
  destruct m; emits_all; reflexivity.
Qed.

(** ** Deletions *)

(** What a run for a delete may hand to the sync services: no version bump
    and no request to the media service; a queue item, a message or a master
    queue item for a delete, without data and without file records. *)
Fixpoint deletion_only (e : event) : Prop :=
  match e with
  | EvIncrementVersion _ _ _ | EvMediaIsEnabled | EvExtractFileIds _
  | EvGetFileRecords _ => False
  | EvEnqueue item =>
      q_operation item = OpDelete /\ q_data item = JNull
      /\ q_localVersion item = 0
  | EvSendToShips msg =>
      m_operation msg = OpDelete /\ m_data msg = JNull
      /\ m_fileRecords msg = None
  | EvMasterEnqueue item =>
      mq_operation item = OpDelete /\ mq_data item = JObj []
  | EvLogEdit _ _ op _ _ => op = OpDelete
  | EvThrow origin _ => deletion_only origin
  | _ => True
  end.

(** X30. A delete is propagated without payload: the replica queues it with
    version 0 and [null] data and does not bump the version of the document;
    the master publishes it with [null] data, or queues it with empty data,
    and asks the media service for no file record. *)
Theorem delete_is_propagated_without_payload (S : Services) (strapi : Strapi)
    (context : SyncContext) (t : trace) :
  action context = "delete" ->
  exists evs,
    snd (middleware S strapi context t) = t ++ evs
    /\ Forall deletion_only evs.
Proof.
  intros Haction. revert t.
  change (emits deletion_only (middleware S strapi context)).
  destruct context as [a u p]. cbn [action] in Haction. subst a.
  unfold middleware, syncLogic, replicaBranch, masterBranch, collectFileRecords.
  cbn [action uid params].
  change (mapOperation "delete") with OpDelete.
  change (("delete" =? "delete")%string) with true.
  change (("delete" =? "publish")%string) with false.
  cbn [negb andb is_delete truthy].
  repeat first
    [ match goal with
      | |- emits ?P (bind (ret ?a) ?k) => change (emits P (k a)); cbv beta
      end
    | emits_step ];
    cbn; auto.
Qed.

Definition delete_user : SyncContext :=
  {| action := "delete"; uid := "api::member.member";
     params := JObj [("documentId", JStr "u1")] |}.

Lemma delete_is_propagated_without_payload_witness :
  action delete_user = "delete"
  /\ enqueued (snd (middleware healthy_services (replica_strapi false)
                      delete_user []))
     = [ {| q_shipId := "ship-1";
            q_contentType := "api::member.member";
            q_contentId := "u1";
            q_operation := OpDelete;
            q_localVersion := 0;
            q_data := JNull;
            q_locale := JNull |} ]
  /\ exists evs,
       snd (middleware healthy_services (replica_strapi false) delete_user [])
       = [] ++ evs
       /\ Forall deletion_only evs.
Proof.
  split; [ reflexivity | split; [ reflexivity | ] ].
  exact (delete_is_propagated_without_payload healthy_services
           (replica_strapi false) delete_user [] eq_refl).
Defined.

End Middleware.
